(** * Interactive particles: hand signal extractor and particle behaviour engine

    A shallow embedding of [src/HandTracker.js], [src/ParticleSystem.js] and
    the frame driver of [src/main.js].

    Numbers.  The development has two layers.  In the first, JavaScript
    numbers are modelled as the real numbers [R] they approximate:
    [Math.sqrt], [Math.sin], [Math.cos], [Math.acos], [Math.abs], [Math.min],
    [Math.max] and [Math.pow(_, 2)] become [sqrt], [sin], [cos], [acos],
    [Rabs], [Rmin], [Rmax] and [_ ^ 2].  This layer leaves out rounding and
    NaN; it carries what does not turn on them: which branch runs, what a
    call leaves alone, shapes, flags and timers, and bounds that rounding
    respects.  The second layer, module [IEEE], embeds the classifier, the
    extractor and the per-frame step once more with binary64 arithmetic and
    binary32 stores; it carries what turns on a comparison of computed
    values or on the value a buffer holds.

    Arrays.  A JavaScript array or typed array is a [list]; [a[i]] is stdpp's
    lookup and [a[i] = v] on a typed array is stdpp's insert, which like a
    typed array ignores a write out of range. *)

From Stdlib Require Import Reals Lra Lia.
From Stdlib Require QArith Floats.
From stdpp Require Import base option list gmap strings.

Local Open Scope R_scope.

(** ** Shared data *)

(** A JavaScript object of the shape [{x, y, z}]: a landmark of the hand
    skeleton, or a cursor position. *)
Record Point : Type := mkPoint { x : R; y : R; z : R }.

Inductive Gesture : Type := pinch | open | fist | neutral.
Inductive Swipe : Type := none | left | right.

(** The object returned by [HandTracker.getData] and consumed by
    [ParticleSystem.update].  [update] tests [handData.position] for
    truthiness, so the field is optional here. *)
Record HandData : Type := mkHandData {
  position : option Point;
  proximity : R;
  gesture : Gesture;
  swipe : Swipe;
  raw : list Point
}.

Global Instance Point_inhabited : Inhabited Point := populate (mkPoint 0 0 0).

Global Instance Rlt_decision (a b : R) : Decision (a < b) := Rlt_dec a b.
Global Instance Rgt_decision (a b : R) : Decision (a > b) := Rgt_dec a b.

(** [a < b] and [a > b] as JavaScript booleans. *)
Definition Rltb (a b : R) : bool := bool_decide (a < b).
Definition Rgtb (a b : R) : bool := bool_decide (a > b).

(** ** Completions: a call returns normally or throws a [TypeError] *)

Inductive Completion (A : Type) : Type :=
| Normal (a : A)
| TypeError.
Arguments Normal {A} a.
Arguments TypeError {A}.

Definition bind {A B : Type} (c : Completion A) (k : A -> Completion B) : Completion B :=
  match c with
  | Normal a => k a
  | TypeError => TypeError
  end.

Notation "'let*' v ':=' c 'in' k" := (bind c (fun v => k))
  (at level 10, v name, c at level 100, k at level 200).

(** ** HandTracker.js *)

Module HandTracker.

(** What the perception provider hands to [onResults]. *)
Record Results : Type := mkResults {
  multiHandLandmarks : option (list (list Point))
}.

(** The fields of the tracker that [getData] reads or writes. *)
Record t : Type := mkTracker {
  results : option Results;
  lastPalmX : option R
}.

(** The constructor: [this.results = null; this.lastPalmX = null]. *)
Definition new : t := {| results := None; lastPalmX := None |}.

Definition onResults (r : option Results) (h : t) : t :=
  {| results := r; lastPalmX := lastPalmX h |}.

(** [landmarks[i]] followed by a property access: out of range the element
    is [undefined] and reading [.x] from it throws. *)
Definition get (landmarks : list Point) (i : nat) : Completion Point :=
  match landmarks !! i with
  | Some p => Normal p
  | None => TypeError
  end.

Definition distSq (p1 p2 : Point) : R :=
  (x p1 - x p2) ^ 2 + (y p1 - y p2) ^ 2.

Definition isExtended (landmarks : list Point) (tipIdx pipIdx mcpIdx : nat)
  : Completion bool :=
  let* wrist := get landmarks 0 in
  let* tip := get landmarks tipIdx in
  let* pip := get landmarks pipIdx in
  Normal (Rgtb (distSq tip wrist) (distSq pip wrist)).

Definition detectGesture (landmarks : list Point) : Completion Gesture :=
  let* thumbOpen := isExtended landmarks 4 3 2 in
  let* indexOpen := isExtended landmarks 8 6 5 in
  let* middleOpen := isExtended landmarks 12 10 9 in
  let* ringOpen := isExtended landmarks 16 14 13 in
  let* pinkyOpen := isExtended landmarks 20 18 17 in
  let openCount :=
    length (List.filter (fun b : bool => b) [indexOpen; middleOpen; ringOpen; pinkyOpen]) in
  let* l4 := get landmarks 4 in
  let* l8 := get landmarks 8 in
  let pinchDist := sqrt (distSq l4 l8) in
  let isPinch := Rltb pinchDist 0.05 in
  if isPinch then Normal pinch
  else if Nat.eqb openCount 4 then Normal open
  else if Nat.eqb openCount 0 then Normal fist
  else Normal neutral.

(** [getData]: the completion (the returned object or [null]) and the
    tracker afterwards.  A throw leaves the tracker as it was: the only
    assignment to a field on the present-hand path is the last statement
    before the [return]. *)
Definition getData (h : t) : Completion (option HandData) * t :=
  match results h with
  | None => (Normal None, {| results := results h; lastPalmX := None |})
  | Some r =>
    match multiHandLandmarks r with
    | None => (Normal None, {| results := results h; lastPalmX := None |})
    | Some [] => (Normal None, {| results := results h; lastPalmX := None |})
    | Some (landmarks :: _) =>
      let run : Completion (HandData * R) :=
        let* indexTip := get landmarks 8 in
        let* wrist := get landmarks 0 in
        let x' := (x indexTip - 0.5) * 2 in
        let y' := (0.5 - y indexTip) * 2 in
        let* middleMcp := get landmarks 9 in
        let dx := x wrist - x middleMcp in
        let dy := y wrist - y middleMcp in
        let palmSize := sqrt (dx * dx + dy * dy) in
        let proximity := Rmin (Rmax ((palmSize - 0.1) * 3.0) 0) 1 in
        let* gesture := detectGesture landmarks in
        let* l9 := get landmarks 9 in
        let palmX := x l9 in
        let swipe :=
          match lastPalmX h with
          | Some last =>
            let diff := palmX - last in
            if Rgtb (Rabs diff) 0.03 then
              if Rgtb diff 0 then left else right
            else none
          | None => none
          end in
        Normal ({| position := Some (mkPoint x' y' 0);
                   proximity := proximity;
                   gesture := gesture;
                   swipe := swipe;
                   raw := landmarks |}, palmX) in
      match run with
      | Normal (data, palmX) =>
        (Normal (Some data), {| results := results h; lastPalmX := Some palmX |})
      | TypeError => (TypeError, h)
      end
    end
  end.

(** The input of a frame is absent: the guard at the top of [getData]. *)
Definition absent (h : t) : Prop :=
  match results h with
  | None => True
  | Some r =>
    match multiHandLandmarks r with
    | None | Some [] => True
    | Some (_ :: _) => False
    end
  end.

(** A frame with a hand: the first hand's landmark list is [landmarks]. *)
Definition present (h : t) (landmarks : list Point) : Prop :=
  exists r rest, results h = Some r /\
    multiHandLandmarks r = Some (landmarks :: rest).

(** The perception provider delivers one hand with these landmarks. *)
Definition frame (landmarks : list Point) : option Results :=
  Some {| multiHandLandmarks := Some [landmarks] |}.

End HandTracker.

(** ** Math.random, typed arrays, for loops *)

(** The random source: [draws n] is what the [n]-th call of [Math.random]
    returns, [next] the number of calls made so far. *)
Record Rng : Type := mkRng { draws : nat -> R; next : nat }.

Definition Math_random (g : Rng) : R * Rng :=
  (draws g (next g), {| draws := draws g; next := S (next g) |}).

(** [Math.floor] on a real. *)
Definition Math_floor (r : R) : Z := Int_part r.

(** [new Float32Array(n)]: [n] zeros. *)
Definition Float32Array (n : nat) : list R := replicate n 0.

(** [a[i]] on a typed array.  Out of range JavaScript yields [undefined],
    which arithmetic turns into NaN; NaN is outside this model and [rd] is [0]
    there.  The theorems on [update] assume a well-formed engine, where every
    read is in range. *)
Definition rd (a : list R) (i : nat) : R := default 0 (a !! i).

(** [for (let i = a; i < b; i++) body]. *)
Definition for_range {S : Type} (a b : nat) (body : nat -> S -> S) (s : S) : S :=
  fold_left (fun s i => body i s) (seq a (b - a)) s.

(** ** ParticleSystem.js *)

Module ParticleSystem.

(** A value found under a property name of [this.templates]: one of the
    generated buffers, or a member inherited from [Object.prototype]
    ([this.templates] is created by the literal [{}]). *)
Inductive Property : Type :=
| Buffer (b : list R)
| Inherited.

(** The property names every object literal inherits. *)
Definition Object_prototype : list string :=
  ["constructor"; "__defineGetter__"; "__defineSetter__"; "hasOwnProperty";
   "__lookupGetter__"; "__lookupSetter__"; "isPrototypeOf";
   "propertyIsEnumerable"; "toString"; "valueOf"; "__proto__";
   "toLocaleString"]%string.

(** [templates[name]]: own properties first, then the prototype;
    [None] is [undefined]. *)
Definition get_property (templates : gmap string (list R)) (name : string)
  : option Property :=
  match templates !! name with
  | Some b => Some (Buffer b)
  | None => if bool_decide (name ∈ Object_prototype) then Some Inherited else None
  end.

(** The engine.  [attracted] is not assigned by the constructor and is
    [undefined] until a setter runs; it is only ever tested for truthiness,
    so [undefined] is [false] here.  [timers] counts the callbacks scheduled
    by [setTimeout] that have not run yet. *)
Record t : Type := mk {
  count : nat;
  uTime : R;
  uGlow : R;
  positions : list R;
  aScale : list R;
  aColor : list R;
  aTarget : list R;
  templates : gmap string (list R);
  currentTarget : string;
  wavePhase : R;
  isWaving : bool;
  expanded : bool;
  attracted : bool;
  timers : nat
}.

(** One iteration of the loop of [initParticles]. *)
Definition initParticle (i : nat) (st : list R * list R * list R * Rng)
  : list R * list R * list R * Rng :=
  let '(positions, scales, colors, g) := st in
  let i3 := (i * 3)%nat in
  let '(u, g) := Math_random g in
  let positions := <[i3 := (u - 0.5) * 10]> positions in
  let '(u, g) := Math_random g in
  let positions := <[(i3 + 1)%nat := (u - 0.5) * 10]> positions in
  let '(u, g) := Math_random g in
  let positions := <[(i3 + 2)%nat := (u - 0.5) * 10]> positions in
  let '(u, g) := Math_random g in
  let scales := <[i := u]> scales in
  let '(u, g) := Math_random g in
  let colors := <[i3 := 0.2 + u * 0.3]> colors in
  let '(u, g) := Math_random g in
  let colors := <[(i3 + 1)%nat := 0.4 + u * 0.4]> colors in
  let '(u, g) := Math_random g in
  let colors := <[(i3 + 2)%nat := 0.8 + u * 0.2]> colors in
  (positions, scales, colors, g).

(** [initParticles]: the position, scale, colour and target attributes. *)
Definition initParticles (count : nat) (g : Rng)
  : list R * list R * list R * list R * Rng :=
  let positions := Float32Array (count * 3) in
  let scales := Float32Array count in
  let colors := Float32Array (count * 3) in
  let targets := Float32Array (count * 3) in
  let '(positions, scales, colors, g) :=
    for_range 0 count initParticle (positions, scales, colors, g) in
  (positions, scales, colors, targets, g).

(** The body shared by the sphere loop and the first loop of saturn: a
    point of the sphere of radius [r]. *)
Definition spherePoint (r : R) (i : nat) (st : list R * Rng) : list R * Rng :=
  let '(buf, g) := st in
  let i3 := (i * 3)%nat in
  let '(u, g) := Math_random g in
  let theta := u * PI * 2 in
  let '(u, g) := Math_random g in
  let phi := acos ((u * 2) - 1) in
  let buf := <[i3 := r * sin phi * cos theta]> buf in
  let buf := <[(i3 + 1)%nat := r * sin phi * sin theta]> buf in
  let buf := <[(i3 + 2)%nat := r * cos phi]> buf in
  (buf, g).

Definition randomScalar (i : nat) (st : list R * Rng) : list R * Rng :=
  let '(buf, g) := st in
  let '(u, g) := Math_random g in
  (<[i := (u - 0.5) * 12]> buf, g).

Definition cubePoint (i : nat) (st : list R * Rng) : list R * Rng :=
  let '(buf, g) := st in
  let i3 := (i * 3)%nat in
  let s := 5 in
  let '(u, g) := Math_random g in
  let buf := <[i3 := (u - 0.5) * s]> buf in
  let '(u, g) := Math_random g in
  let buf := <[(i3 + 1)%nat := (u - 0.5) * s]> buf in
  let '(u, g) := Math_random g in
  let buf := <[(i3 + 2)%nat := (u - 0.5) * s]> buf in
  (buf, g).

(** The second loop of saturn: a point of the tilted ring. *)
Definition ringPoint (i : nat) (st : list R * Rng) : list R * Rng :=
  let '(buf, g) := st in
  let i3 := (i * 3)%nat in
  let '(u, g) := Math_random g in
  let theta := u * PI * 2 in
  let '(u, g) := Math_random g in
  let r := 3.5 + u * 4 in
  let x0 := r * cos theta in
  let '(u, g) := Math_random g in
  let y0 := (u - 0.5) * 0.2 in
  let z0 := r * sin theta in
  let tilt := 0.4 in
  let tx := x0 in
  let x1 := tx * cos tilt - y0 * sin tilt in
  let y1 := tx * sin tilt + y0 * cos tilt in
  let buf := <[i3 := x1]> buf in
  let buf := <[(i3 + 1)%nat := y1]> buf in
  let buf := <[(i3 + 2)%nat := z0]> buf in
  (buf, g).

(** [Math.floor(this.count * 0.4)]. *)
Definition sphereCount (count : nat) : nat :=
  Z.to_nat (Math_floor (INR count * 0.4)).

(** [generateTemplates]: the templates object, the target attribute (a copy
    of the random template) and the random source afterwards. *)
Definition generateTemplates (count : nat) (g : Rng)
  : gmap string (list R) * list R * Rng :=
  let templates : gmap string (list R) := ∅ in
  let '(random, g) :=
    for_range 0 (count * 3) randomScalar (Float32Array (count * 3), g) in
  let templates := <["random"%string := random]> templates in
  let '(sphere, g) :=
    for_range 0 count (spherePoint 4) (Float32Array (count * 3), g) in
  let templates := <["sphere"%string := sphere]> templates in
  let '(cube, g) :=
    for_range 0 count cubePoint (Float32Array (count * 3), g) in
  let templates := <["cube"%string := cube]> templates in
  let '(saturn, g) :=
    for_range 0 (sphereCount count) (spherePoint 2.5) (Float32Array (count * 3), g) in
  let '(saturn, g) :=
    for_range (sphereCount count) count ringPoint (saturn, g) in
  let templates := <["saturn"%string := saturn]> templates in
  (templates, random, g).

(** The constructor, for a particle count and a random source. *)
Definition new (count : nat) (g : Rng) : t :=
  let '(positions, scales, colors, targets, g) := initParticles count g in
  let '(templates, targets, g) := generateTemplates count g in
  {| count := count;
     uTime := 0;
     uGlow := 0.0;
     positions := positions;
     aScale := scales;
     aColor := colors;
     aTarget := targets;
     templates := templates;
     currentTarget := "random";
     wavePhase := 0;
     isWaving := false;
     expanded := false;
     attracted := false;
     timers := 0 |}.

Definition set_flags (s : t) (target : string) (e a : bool) : t :=
  {| count := count s; uTime := uTime s; uGlow := uGlow s;
     positions := positions s; aScale := aScale s; aColor := aColor s;
     aTarget := aTarget s; templates := templates s;
     currentTarget := target;
     wavePhase := wavePhase s; isWaving := isWaving s;
     expanded := e; attracted := a; timers := timers s |}.

Definition setTarget (templateName : string) (s : t) : t :=
  match get_property (templates s) templateName with
  | Some _ => set_flags s templateName false false
  | None => s
  end.

Definition set_wave (s : t) (phase : R) (waving : bool) (n : nat) : t :=
  {| count := count s; uTime := uTime s; uGlow := uGlow s;
     positions := positions s; aScale := aScale s; aColor := aColor s;
     aTarget := aTarget s; templates := templates s;
     currentTarget := currentTarget s;
     wavePhase := phase; isWaving := waving;
     expanded := expanded s; attracted := attracted s; timers := n |}.

Definition triggerWave (s : t) : t := set_wave s 0 true (S (timers s)).

(** The callback given to [setTimeout] runs, when one is pending. *)
Definition timeout (s : t) : t :=
  match timers s with
  | O => s
  | S n => set_wave s (wavePhase s) false n
  end.

Definition setExpanded (state : bool) (s : t) : t :=
  let s := set_flags s (currentTarget s) state (attracted s) in
  if state then set_flags s (currentTarget s) (expanded s) false else s.

Definition setAttract (state : bool) (s : t) : t :=
  let s := set_flags s (currentTarget s) (expanded s) state in
  if state then set_flags s (currentTarget s) false (attracted s) else s.

(** The body of the per-particle loop of [update].  [s] carries the flags
    and the wave phase as they are when the loop runs. *)
Definition updateParticle (s : t) (targetPositions : list R)
    (repelPos : option Point) (attractPos : Point)
    (i : nat) (bufs : list R * list R) : list R * list R :=
  let '(positions, colors) := bufs in
  let i3 := (i * 3)%nat in
  let tx := rd targetPositions i3 in
  let ty := rd targetPositions (i3 + 1) in
  let tz := rd targetPositions (i3 + 2) in
  let '(tx, ty, tz) :=
    if expanded s then (tx * 2.0, ty * 2.0, tz * 2.0) else (tx, ty, tz) in
  let ty :=
    if isWaving s then
      let waveY := sin (tx * 0.5 + wavePhase s) * 2.0 in
      ty + waveY
    else ty in
  let ease := 0.05 in
  let cx := rd positions i3 in
  let cy := rd positions (i3 + 1) in
  let cz := rd positions (i3 + 2) in
  let '(tx, ty, tz) :=
    if attracted s then
      (x attractPos + (tx * 0.1), y attractPos + (ty * 0.1), z attractPos + (tz * 0.1))
    else (tx, ty, tz) in
  let positions := <[i3 := rd positions i3 + (tx - cx) * ease]> positions in
  let positions := <[(i3 + 1)%nat := rd positions (i3 + 1) + (ty - cy) * ease]> positions in
  let positions := <[(i3 + 2)%nat := rd positions (i3 + 2) + (tz - cz) * ease]> positions in
  match repelPos with
  | Some repel =>
    if negb (attracted s) then
      let dx := rd positions i3 - x repel in
      let dy := rd positions (i3 + 1) - y repel in
      let dz := rd positions (i3 + 2) - z repel in
      let distSq := dx * dx + dy * dy + dz * dz in
      if Rltb distSq 4.0 then
        let dist := sqrt distSq in
        let force := (2.0 - dist) * 0.15 in
        let positions := <[i3 := rd positions i3 + dx * force]> positions in
        let positions := <[(i3 + 1)%nat := rd positions (i3 + 1) + dy * force]> positions in
        let positions := <[(i3 + 2)%nat := rd positions (i3 + 2) + dz * force]> positions in
        (positions, <[i3 := 1.0]> colors)
      else if Rgtb (rd colors i3) 0.5 then
        (positions, <[i3 := rd colors i3 - 0.02]> colors)
      else (positions, colors)
    else (positions, colors)
  | None => (positions, colors)
  end.

(** [this.templates[this.currentTarget]] as the array [update] indexes.
    A value that is not a buffer has no indexed elements. *)
Definition targetBuffer (s : t) : list R :=
  match get_property (templates s) (currentTarget s) with
  | Some (Buffer b) => b
  | _ => []
  end.

(** [handData && handData.proximity]: a number is truthy unless it is zero. *)
Definition targetGlowOf (handData : option HandData) : R :=
  match handData with
  | Some h => if Req_dec_T (proximity h) 0 then 0 else proximity h
  | None => 0
  end.

(** [handData && handData.position]. *)
Definition cursor (handData : option HandData) : option Point :=
  match handData with
  | Some h => position h
  | None => None
  end.

(** [if (this.isWaving) this.wavePhase += 0.1]. *)
Definition advanceWave (s : t) : t :=
  if isWaving s then set_wave s (wavePhase s + 0.1) (isWaving s) (timers s)
  else s.

Definition update (time : R) (handData : option HandData) (s : t) : t :=
  let targetGlow := targetGlowOf handData in
  let glow := uGlow s + (targetGlow - uGlow s) * 0.1 in
  let targetPositions := targetBuffer s in
  let repelPos := cursor handData in
  let attractPos := default (mkPoint 0 0 0) (cursor handData) in
  let s := advanceWave s in
  let '(positions', colors') :=
    for_range 0 (count s)
      (updateParticle s targetPositions repelPos attractPos)
      (positions s, aColor s) in
  {| count := count s; uTime := time; uGlow := glow;
     positions := positions'; aScale := aScale s; aColor := colors';
     aTarget := aTarget s; templates := templates s;
     currentTarget := currentTarget s;
     wavePhase := wavePhase s; isWaving := isWaving s;
     expanded := expanded s; attracted := attracted s; timers := timers s |}.

(** The control surface, and the timer callback, as events. *)
Inductive Call : Type :=
| call_setTarget (templateName : string)
| call_setExpanded (state : bool)
| call_setAttract (state : bool)
| call_triggerWave
| call_update (time : R) (handData : option HandData)
| call_timeout.

Definition step (s : t) (c : Call) : t :=
  match c with
  | call_setTarget n => setTarget n s
  | call_setExpanded b => setExpanded b s
  | call_setAttract b => setAttract b s
  | call_triggerWave => triggerWave s
  | call_update time h => update time h s
  | call_timeout => timeout s
  end.

Definition run (s : t) (cs : list Call) : t := fold_left step cs s.

(** The engine as the constructor leaves it and [update] keeps it: every
    buffer holds three scalars per particle and the current target names
    one of the templates. *)
Record wf (s : t) : Prop := {
  wf_positions : length (positions s) = (count s * 3)%nat;
  wf_colors : length (aColor s) = (count s * 3)%nat;
  wf_templates : forall name b, templates s !! name = Some b ->
                                length b = (count s * 3)%nat;
  wf_target : is_Some (templates s !! currentTarget s)
}.

(** A call that does not pass [setTarget] a name inherited from
    [Object.prototype]. *)
Definition plainCall (c : Call) : Prop :=
  match c with
  | call_setTarget name => name ∉ Object_prototype
  | _ => True
  end.

(** Views of particle [i], for the statements below. *)
Definition pos (s : t) (i : nat) : Point :=
  mkPoint (rd (positions s) (i * 3)) (rd (positions s) (i * 3 + 1))
          (rd (positions s) (i * 3 + 2)).

Definition red (s : t) (i : nat) : R := rd (aColor s) (i * 3).

(** Point [i] of a coordinate buffer. *)
Definition point (b : list R) (i : nat) : Point :=
  mkPoint (rd b (i * 3)) (rd b (i * 3 + 1)) (rd b (i * 3 + 2)).

Definition norm (p : Point) : R := sqrt (x p * x p + y p * y p + z p * z p).

(** Difference of two points, and their squared distance. *)
Definition minus (p q : Point) : Point :=
  mkPoint (x p - x q) (y p - y q) (z p - z q).

Definition sqDist (p q : Point) : R :=
  x (minus p q) * x (minus p q) + y (minus p q) * y (minus p q)
  + z (minus p q) * z (minus p q).

(** The target the loop body integrates towards, for the template point
    [tp]: expansion, then the wave, then attraction. *)
Definition aim (s : t) (attractPos : Point) (tp : Point) : Point :=
  let e := if expanded s then mkPoint (x tp * 2.0) (y tp * 2.0) (z tp * 2.0) else tp in
  let w := if isWaving s
           then mkPoint (x e) (y e + sin (x e * 0.5 + wavePhase s) * 2.0) (z e)
           else e in
  if attracted s
  then mkPoint (x attractPos + (x w * 0.1)) (y attractPos + (y w * 0.1))
               (z attractPos + (z w * 0.1))
  else w.

(** The integration step: 5% of the way from [p] to [target]. *)
Definition ease (p target : Point) : Point :=
  mkPoint (x p + (x target - x p) * 0.05) (y p + (y target - y p) * 0.05)
          (z p + (z target - z p) * 0.05).

(** The loop body of [update] as a function of the particle's own
    scalars: template point [tp], position [p], red channel [r].
    [updateParticle_step] below proves that the loop body computes it. *)
Definition particleStep (s : t) (repelPos : option Point) (attractPos : Point)
    (tp p : Point) (r : R) : Point * R :=
  let q := ease p (aim s attractPos tp) in
  match repelPos with
  | Some c =>
    if negb (attracted s) then
      let d := minus q c in
      if Rltb (sqDist q c) 4.0 then
        let force := (2.0 - sqrt (sqDist q c)) * 0.15 in
        (mkPoint (x q + x d * force) (y q + y d * force) (z q + z d * force), 1.0)
      else (q, if Rgtb r 0.5 then r - 0.02 else r)
    else (q, r)
  | None => (q, r)
  end.

(** The position of particle [i] after the integration step of
    [update _ handData s], before repulsion. *)
Definition integrated (handData : option HandData) (s : t) (i : nat) : Point :=
  ease (pos s i)
       (aim (advanceWave s) (default (mkPoint 0 0 0) (cursor handData))
            (point (targetBuffer s) i)).

(** A call the frame driver can make when the hand signal keeps its
    contract: the proximity of a present signal lies in [0, 1]. *)
Definition validCall (c : Call) : Prop :=
  match c with
  | call_update _ (Some h) => 0 <= proximity h <= 1
  | _ => True
  end.

End ParticleSystem.

(** ** Vocabulary of the specification *)

(** Squared planar distance and planar Euclidean distance of two points. *)
Definition sqPlanarDist (p q : Point) : R :=
  (x p - x q) * (x p - x q) + (y p - y q) * (y p - y q).

Definition planarDist (p q : Point) : R := sqrt (sqPlanarDist p q).

(** The two flags are not both set. *)
Definition exclusive (s : ParticleSystem.t) : Prop :=
  ~ (ParticleSystem.expanded s = true /\ ParticleSystem.attracted s = true).

(** A one-particle engine at rest on its template point, half a unit from
    the origin, its red channel still hot from an earlier repulsion. *)
Definition hotParticle : ParticleSystem.t :=
  {| ParticleSystem.count := 1;
     ParticleSystem.uTime := 0;
     ParticleSystem.uGlow := 0;
     ParticleSystem.positions := [0.5; 0; 0];
     ParticleSystem.aScale := [1];
     ParticleSystem.aColor := [0.8; 0.5; 0.9];
     ParticleSystem.aTarget := [0.5; 0; 0];
     ParticleSystem.templates :=
       <["saturn"%string := [0; 0; 2.5]]>
         (<["cube"%string := [1; 1; 1]]>
            (<["sphere"%string := [4; 0; 0]]>
               (<["random"%string := [0.5; 0; 0]]> ∅)));
     ParticleSystem.currentTarget := "random";
     ParticleSystem.wavePhase := 0;
     ParticleSystem.isWaving := false;
     ParticleSystem.expanded := false;
     ParticleSystem.attracted := false;
     ParticleSystem.timers := 0 |}.

(** A hand signal whose cursor is at the origin. *)
Definition handAtOrigin : HandData :=
  mkHandData (Some (mkPoint 0 0 0)) 0.5 neutral none [].


(** The perception provider keeps its contract: every landmark list it
    delivers has 21 points. *)
Definition wellFormedInput (h : HandTracker.t) : Prop :=
  forall r hands, HandTracker.results h = Some r ->
    HandTracker.multiHandLandmarks r = Some hands ->
    Forall (fun landmarks => length landmarks = 21%nat) hands.

(** An open hand: wrist at the bottom, the four finger tips above their PIP
    joints, the thumb tip away from the index tip. *)
Definition openHand : list Point :=
  [ mkPoint 0.5 0.9 0; mkPoint 0.4 0.8 0; mkPoint 0.35 0.7 0; mkPoint 0.3 0.65 0;
    mkPoint 0.25 0.6 0;
    mkPoint 0.45 0.6 0; mkPoint 0.45 0.5 0; mkPoint 0.45 0.4 0; mkPoint 0.45 0.3 0;
    mkPoint 0.5 0.6 0; mkPoint 0.5 0.5 0; mkPoint 0.5 0.4 0; mkPoint 0.5 0.3 0;
    mkPoint 0.55 0.6 0; mkPoint 0.55 0.5 0; mkPoint 0.55 0.4 0; mkPoint 0.55 0.3 0;
    mkPoint 0.6 0.6 0; mkPoint 0.6 0.5 0; mkPoint 0.6 0.4 0; mkPoint 0.6 0.3 0 ].

(** ** Further vocabulary *)

(** [Math.random] keeps its contract: every draw lies in [0, 1). *)
Definition fairRng (g : Rng) : Prop := forall n, 0 <= draws g n < 1.

(** [v] lies between [a] and [b], whichever of the two is the larger. *)
Definition between (a b v : R) : Prop := Rmin a b <= v <= Rmax a b.

(** A point within [r] of the origin on every axis. *)
Definition within (r : R) (p : Point) : Prop :=
  Rabs (x p) <= r /\ Rabs (y p) <= r /\ Rabs (z p) <= r.

(** The whole hand moved by the vector [v]. *)
Definition translate (v : Point) (landmarks : list Point) : list Point :=
  List.map (fun p => mkPoint (x p + x v) (y p + y v) (z p + z v)) landmarks.

(** The landmarks the classifier's result can depend on: the wrist, the
    thumb tip, and tip and PIP joint of the four other fingers. *)
Definition gestureLandmarks : list nat :=
  [0; 4; 6; 8; 10; 12; 14; 16; 18; 20]%nat.

(** Two landmark lists agree in the plane at index [i]. *)
Definition planarAgree (l1 l2 : list Point) (i : nat) : Prop :=
  x (l1 !!! i) = x (l2 !!! i) /\ y (l1 !!! i) = y (l2 !!! i).

(** ** main.js: the frame driver *)

Module Main.

(** The two objects the animation loop works on. *)
Record t : Type := mk {
  handTracker : HandTracker.t;
  particleSystem : ParticleSystem.t
}.

(** [new ParticleSystem(scene, 8000)]. *)
Definition particleCount : nat := (8 * 1000)%nat.

(** The module's top level: a particle system and a hand tracker. *)
Definition init (g : Rng) : t :=
  {| handTracker := HandTracker.new;
     particleSystem := ParticleSystem.new particleCount g |}.

(** The coordinate mapping of [animate]: the cursor, in [-1, 1], is scaled
    in place to the view rectangle; [aspect] is [camera.aspect]. *)
Definition mapCoordinates (aspect : R) (handData : option HandData)
  : option HandData :=
  match handData with
  | Some h =>
    match position h with
    | Some p =>
      let vHeight := 12.5 in
      let vWidth := vHeight * aspect in
      Some {| position := Some (mkPoint (x p * (vWidth / 2)) (y p * (vHeight / 2)) (z p));
              proximity := proximity h;
              gesture := gesture h;
              swipe := swipe h;
              raw := raw h |}
    | None => Some h
    end
  | None => None
  end.

(** [particleSystem.currentTarget !== name]. *)
Definition targetIsNot (name : string) (s : ParticleSystem.t) : bool :=
  negb (bool_decide (ParticleSystem.currentTarget s = name)).

(** [if (particleSystem.currentTarget !== name) particleSystem.setTarget(name)]. *)
Definition switchTo (name : string) (s : ParticleSystem.t) : ParticleSystem.t :=
  if targetIsNot name s then ParticleSystem.setTarget name s else s.

(** JavaScript's [%] on integers: the remainder has the sign of the
    dividend. *)
Definition js_rem (a b : Z) : Z := Z.rem a b.

(** The interaction logic of [animate], after [update]: gestures to
    behaviours with a hand, the demo cycle without. *)
Definition interact (elapsedTime : R) (handData : option HandData)
    (s : ParticleSystem.t) : ParticleSystem.t :=
  match handData with
  | Some h =>
    let s :=
      match swipe h with
      | none => s
      | _ => ParticleSystem.triggerWave s
      end in
    match gesture h with
    | open =>
      let s := switchTo "sphere" s in
      let s := ParticleSystem.setExpanded true s in
      ParticleSystem.setAttract false s
    | fist =>
      let s := ParticleSystem.setExpanded false s in
      ParticleSystem.setAttract true s
    | pinch => ParticleSystem.setAttract true s
    | neutral =>
      let s := ParticleSystem.setExpanded false s in
      ParticleSystem.setAttract false s
    end
  | None =>
    if Z.eqb (js_rem (Math_floor elapsedTime) 15) 0
       && Z.ltb (js_rem (Math_floor elapsedTime) 30) 15
    then switchTo "saturn" s
    else switchTo "random" s
  end.

(** One call of [animate], without the scheduling of the next frame and
    the rendering.  A throw of [getData] ends the frame before any
    assignment. *)
Definition animate (aspect elapsedTime : R) (st : t) : Completion t :=
  match HandTracker.getData (handTracker st) with
  | (Normal handData, tracker') =>
    let handData := mapCoordinates aspect handData in
    let s := ParticleSystem.update elapsedTime handData (particleSystem st) in
    let s := interact elapsedTime handData s in
    Normal {| handTracker := tracker'; particleSystem := s |}
  | (TypeError, _) => TypeError
  end.

(** What happens to the page between and during frames: the perception
    provider delivers results, a frame is animated, a wave timer fires. *)
Inductive Event : Type :=
| ev_results (r : option HandTracker.Results)
| ev_frame (aspect elapsedTime : R)
| ev_timeout.

Definition handle (st : t) (e : Event) : t :=
  match e with
  | ev_results r =>
    {| handTracker := HandTracker.onResults r (handTracker st);
       particleSystem := particleSystem st |}
  | ev_frame aspect elapsedTime =>
    match animate aspect elapsedTime st with
    | Normal st' => st'
    | TypeError => st
    end
  | ev_timeout =>
    {| handTracker := handTracker st;
       particleSystem := ParticleSystem.timeout (particleSystem st) |}
  end.

Definition run (st : t) (es : list Event) : t := fold_left handle es st.

End Main.

(** ** Shapes of call sequences *)

(** The call is an [update]. *)
Definition isUpdate (c : ParticleSystem.Call) : Prop :=
  match c with
  | ParticleSystem.call_update _ _ => True
  | _ => False
  end.

(** The call is an [update] whose hand signal satisfies [P]. *)
Definition updateWith (P : option HandData -> Prop) (c : ParticleSystem.Call) : Prop :=
  match c with
  | ParticleSystem.call_update _ handData => P handData
  | _ => False
  end.

(** The call comes from the host, not from a timer. *)
Definition notTimeout (c : ParticleSystem.Call) : Prop :=
  match c with
  | ParticleSystem.call_timeout => False
  | _ => True
  end.

(** Two particles: the hot particle of [hotParticle], and a second one far
    from it. *)
Definition hotPair : ParticleSystem.t :=
  {| ParticleSystem.count := 2;
     ParticleSystem.uTime := 0;
     ParticleSystem.uGlow := 0;
     ParticleSystem.positions := [0.5; 0; 0; 3; 3; 3];
     ParticleSystem.aScale := [1; 1];
     ParticleSystem.aColor := [0.8; 0.5; 0.9; 0.3; 0.5; 0.9];
     ParticleSystem.aTarget := [0.5; 0; 0; 1; 1; 1];
     ParticleSystem.templates :=
       <["saturn"%string := [0; 0; 2.5; 4; 0; 0]]>
         (<["cube"%string := [1; 1; 1; 2; 2; 2]]>
            (<["sphere"%string := [4; 0; 0; 0; 4; 0]]>
               (<["random"%string := [0.5; 0; 0; 1; 1; 1]]> ∅)));
     ParticleSystem.currentTarget := "random";
     ParticleSystem.wavePhase := 0;
     ParticleSystem.isWaving := false;
     ParticleSystem.expanded := false;
     ParticleSystem.attracted := false;
     ParticleSystem.timers := 0 |}.

(** The templates object holds the four generated buffers. *)
Definition generated (s : ParticleSystem.t) : Prop :=
  Forall (fun name => is_Some (ParticleSystem.templates s !! name))
         ["random"; "sphere"; "cube"; "saturn"]%string.

(** What the frame driver keeps true of the engine. *)
Record driven (s : ParticleSystem.t) : Prop := {
  driven_wf : ParticleSystem.wf s;
  driven_generated : generated s;
  driven_exclusive : exclusive s;
  driven_target :
    ParticleSystem.currentTarget s ∈ ["random"; "sphere"; "saturn"]%string
}.

(** The swipe [getData] computes for palm proxy [palmX] and history [last]. *)
Definition swipeOf (last : option R) (palmX : R) : Swipe :=
  match last with
  | Some l =>
    if Rgtb (Rabs (palmX - l)) 0.03 then
      if Rgtb (palmX - l) 0 then left else right
    else none
  | None => none
  end.

(** ** The machine's arithmetic

    The modules above compute with real numbers.  The code computes with
    binary64 numbers and stores buffer elements as binary32; where a result
    turns on a comparison of computed values, or on a stored value, the
    two differ.  [IEEE] embeds the classifier, the extractor and the
    per-frame step once more with the machine's arithmetic: a JavaScript
    number is a primitive float (binary64, round to nearest even), a store
    into a [Float32Array] rounds with [fround], and a read out of range is
    NaN.  [Math.sqrt] is the correctly rounded square root.  [Math.sin] and
    [Math.pow], which the language leaves to the implementation, are
    parameters: [Math_sin], and [Math_pow2] for [v => Math.pow(v, 2)];
    [square] is the [Math_pow2] of an engine that squares by multiplying. *)

Module IEEE.
Import QArith Floats.
Set Warnings "-inexact-float".
Local Open Scope float_scope.

(** [Math.fround], the rounding of a store into a [Float32Array]: to the
    nearest binary32 number, ties to even, overflowing to infinity. *)
Definition fround (f : float) : float :=
  match Prim2SF f with
  | S754_finite s m e =>
    SF2Prim (binary_normalize 24 128 (if s then Zneg m else Zpos m) e s)
  | _ => f
  end.

(** The rational number a finite float stands for. *)
Definition toQ (f : float) : Q :=
  match Prim2SF f with
  | S754_finite s m e => inject_Z (if s then Zneg m else Zpos m) * Qpower (2 # 1) e
  | _ => 0
  end%Q.

(** [Math.pow(v, 2)] computed as the rounded product. *)
Definition square (v : float) : float := v * v.

(** [Math.max] and [Math.min]: NaN if an argument is NaN, and [+0] above
    [-0]. *)
Definition Math_max (a b : float) : float :=
  if is_nan a || is_nan b then nan
  else if a <? b then b
  else if b <? a then a
  else if is_zero a then (if get_sign a then b else a)
  else a.

Definition Math_min (a b : float) : float :=
  if is_nan a || is_nan b then nan
  else if a <? b then a
  else if b <? a then b
  else if is_zero a then (if get_sign a then a else b)
  else a.

(** A JavaScript object of the shape [{x, y, z}]. *)
Record Point : Type := mkPoint { x : float; y : float; z : float }.

Record HandData : Type := mkHandData {
  position : option Point;
  proximity : float;
  gesture : Gesture;
  swipe : Swipe;
  raw : list Point
}.

Global Instance Point_inhabited : Inhabited Point := populate (mkPoint 0 0 0).

(** [a[i]] on a typed array, used as a number: out of range it is
    [undefined], which arithmetic and comparisons treat as NaN. *)
Definition rd (a : list float) (i : nat) : float := default nan (a !! i).

(** The property names every object literal inherits. *)
Definition Object_prototype : list string := ParticleSystem.Object_prototype.

(** *** HandTracker.js *)

Module HandTracker.

Record Results : Type := mkResults {
  multiHandLandmarks : option (list (list Point))
}.

Record t : Type := mkTracker {
  results : option Results;
  lastPalmX : option float
}.

Definition new : t := {| results := None; lastPalmX := None |}.

Definition onResults (r : option Results) (h : t) : t :=
  {| results := r; lastPalmX := lastPalmX h |}.

Definition get (landmarks : list Point) (i : nat) : Completion Point :=
  match landmarks !! i with
  | Some p => Normal p
  | None => TypeError
  end.

Definition distSq (Math_pow2 : float -> float) (p1 p2 : Point) : float :=
  Math_pow2 (x p1 - x p2) + Math_pow2 (y p1 - y p2).

Definition isExtended (Math_pow2 : float -> float) (landmarks : list Point)
    (tipIdx pipIdx mcpIdx : nat) : Completion bool :=
  let* wrist := get landmarks 0 in
  let* tip := get landmarks tipIdx in
  let* pip := get landmarks pipIdx in
  Normal (distSq Math_pow2 pip wrist <? distSq Math_pow2 tip wrist).

Definition detectGesture (Math_pow2 : float -> float) (landmarks : list Point)
  : Completion Gesture :=
  let* thumbOpen := isExtended Math_pow2 landmarks 4 3 2 in
  let* indexOpen := isExtended Math_pow2 landmarks 8 6 5 in
  let* middleOpen := isExtended Math_pow2 landmarks 12 10 9 in
  let* ringOpen := isExtended Math_pow2 landmarks 16 14 13 in
  let* pinkyOpen := isExtended Math_pow2 landmarks 20 18 17 in
  let openCount :=
    length (List.filter (fun b : bool => b) [indexOpen; middleOpen; ringOpen; pinkyOpen]) in
  let* l4 := get landmarks 4 in
  let* l8 := get landmarks 8 in
  let pinchDist := sqrt (distSq Math_pow2 l4 l8) in
  let isPinch := pinchDist <? 0.05 in
  if isPinch then Normal pinch
  else if Nat.eqb openCount 4 then Normal open
  else if Nat.eqb openCount 0 then Normal fist
  else Normal neutral.

Definition getData (Math_pow2 : float -> float) (h : t)
  : Completion (option HandData) * t :=
  match results h with
  | None => (Normal None, {| results := results h; lastPalmX := None |})
  | Some r =>
    match multiHandLandmarks r with
    | None => (Normal None, {| results := results h; lastPalmX := None |})
    | Some [] => (Normal None, {| results := results h; lastPalmX := None |})
    | Some (landmarks :: _) =>
      let run : Completion (HandData * float) :=
        let* indexTip := get landmarks 8 in
        let* wrist := get landmarks 0 in
        let x' := (x indexTip - 0.5) * 2 in
        let y' := (0.5 - y indexTip) * 2 in
        let* middleMcp := get landmarks 9 in
        let dx := x wrist - x middleMcp in
        let dy := y wrist - y middleMcp in
        let palmSize := sqrt (dx * dx + dy * dy) in
        let proximity := Math_min (Math_max ((palmSize - 0.1) * 3.0) 0) 1 in
        let* gesture := detectGesture Math_pow2 landmarks in
        let* l9 := get landmarks 9 in
        let palmX := x l9 in
        let swipe :=
          match lastPalmX h with
          | Some last =>
            let diff := palmX - last in
            if 0.03 <? abs diff then
              if 0 <? diff then left else right
            else none
          | None => none
          end in
        Normal ({| position := Some (mkPoint x' y' 0);
                   proximity := proximity;
                   gesture := gesture;
                   swipe := swipe;
                   raw := landmarks |}, palmX) in
      match run with
      | Normal (data, palmX) =>
        (Normal (Some data), {| results := results h; lastPalmX := Some palmX |})
      | TypeError => (TypeError, h)
      end
    end
  end.

Definition absent (h : t) : Prop :=
  match results h with
  | None => True
  | Some r =>
    match multiHandLandmarks r with
    | None | Some [] => True
    | Some (_ :: _) => False
    end
  end.

Definition present (h : t) (landmarks : list Point) : Prop :=
  exists r rest, results h = Some r /\
    multiHandLandmarks r = Some (landmarks :: rest).

Definition frame (landmarks : list Point) : option Results :=
  Some {| multiHandLandmarks := Some [landmarks] |}.

End HandTracker.

(** *** ParticleSystem.js: the per-frame step *)

Module ParticleSystem.

Inductive Property : Type :=
| Buffer (b : list float)
| Inherited.

Definition get_property (templates : gmap string (list float)) (name : string)
  : option Property :=
  match templates !! name with
  | Some b => Some (Buffer b)
  | None => if bool_decide (name ∈ Object_prototype) then Some Inherited else None
  end.

Record t : Type := mk {
  count : nat;
  uTime : float;
  uGlow : float;
  positions : list float;
  aScale : list float;
  aColor : list float;
  aTarget : list float;
  templates : gmap string (list float);
  currentTarget : string;
  wavePhase : float;
  isWaving : bool;
  expanded : bool;
  attracted : bool;
  timers : nat
}.

(** The body of the per-particle loop of [update].  Local variables are
    binary64; every assignment to an element of [positions] or [colors]
    rounds to binary32. *)
Definition updateParticle (Math_sin : float -> float) (s : t)
    (targetPositions : list float)
    (repelPos : option Point) (attractPos : Point)
    (i : nat) (bufs : list float * list float) : list float * list float :=
  let '(positions, colors) := bufs in
  let i3 := (i * 3)%nat in
  let tx := rd targetPositions i3 in
  let ty := rd targetPositions (i3 + 1) in
  let tz := rd targetPositions (i3 + 2) in
  let '(tx, ty, tz) :=
    if expanded s then (tx * 2.0, ty * 2.0, tz * 2.0) else (tx, ty, tz) in
  let ty :=
    if isWaving s then
      let waveY := Math_sin (tx * 0.5 + wavePhase s) * 2.0 in
      ty + waveY
    else ty in
  let ease := 0.05 in
  let cx := rd positions i3 in
  let cy := rd positions (i3 + 1) in
  let cz := rd positions (i3 + 2) in
  let '(tx, ty, tz) :=
    if attracted s then
      (x attractPos + (tx * 0.1), y attractPos + (ty * 0.1), z attractPos + (tz * 0.1))
    else (tx, ty, tz) in
  let positions := <[i3 := fround (rd positions i3 + (tx - cx) * ease)]> positions in
  let positions :=
    <[(i3 + 1)%nat := fround (rd positions (i3 + 1) + (ty - cy) * ease)]> positions in
  let positions :=
    <[(i3 + 2)%nat := fround (rd positions (i3 + 2) + (tz - cz) * ease)]> positions in
  match repelPos with
  | Some repel =>
    if negb (attracted s) then
      let dx := rd positions i3 - x repel in
      let dy := rd positions (i3 + 1) - y repel in
      let dz := rd positions (i3 + 2) - z repel in
      let distSq := dx * dx + dy * dy + dz * dz in
      if distSq <? 4.0 then
        let dist := sqrt distSq in
        let force := (2.0 - dist) * 0.15 in
        let positions := <[i3 := fround (rd positions i3 + dx * force)]> positions in
        let positions :=
          <[(i3 + 1)%nat := fround (rd positions (i3 + 1) + dy * force)]> positions in
        let positions :=
          <[(i3 + 2)%nat := fround (rd positions (i3 + 2) + dz * force)]> positions in
        (positions, <[i3 := fround 1.0]> colors)
      else if 0.5 <? rd colors i3 then
        (positions, <[i3 := fround (rd colors i3 - 0.02)]> colors)
      else (positions, colors)
    else (positions, colors)
  | None => (positions, colors)
  end.

Definition targetBuffer (s : t) : list float :=
  match get_property (templates s) (currentTarget s) with
  | Some (Buffer b) => b
  | _ => []
  end.

(** [handData && handData.proximity]: a number is falsy when it is zero
    or NaN. *)
Definition targetGlowOf (handData : option HandData) : float :=
  match handData with
  | Some h =>
    if is_zero (proximity h) || is_nan (proximity h) then 0 else proximity h
  | None => 0
  end.

Definition cursor (handData : option HandData) : option Point :=
  match handData with
  | Some h => position h
  | None => None
  end.

Definition advanceWave (s : t) : t :=
  if isWaving s then
    {| count := count s; uTime := uTime s; uGlow := uGlow s;
       positions := positions s; aScale := aScale s; aColor := aColor s;
       aTarget := aTarget s; templates := templates s;
       currentTarget := currentTarget s;
       wavePhase := wavePhase s + 0.1; isWaving := isWaving s;
       expanded := expanded s; attracted := attracted s; timers := timers s |}
  else s.

Definition update (Math_sin : float -> float) (time : float)
    (handData : option HandData) (s : t) : t :=
  let targetGlow := targetGlowOf handData in
  let glow := uGlow s + (targetGlow - uGlow s) * 0.1 in
  let targetPositions := targetBuffer s in
  let repelPos := cursor handData in
  let attractPos := default (mkPoint 0 0 0) (cursor handData) in
  let s := advanceWave s in
  let '(positions', colors') :=
    for_range 0 (count s)
      (updateParticle Math_sin s targetPositions repelPos attractPos)
      (positions s, aColor s) in
  {| count := count s; uTime := time; uGlow := glow;
     positions := positions'; aScale := aScale s; aColor := colors';
     aTarget := aTarget s; templates := templates s;
     currentTarget := currentTarget s;
     wavePhase := wavePhase s; isWaving := isWaving s;
     expanded := expanded s; attracted := attracted s; timers := timers s |}.

(** [update] called once per frame, each frame given by its elapsed time
    and its hand signal. *)
Definition updates (Math_sin : float -> float)
    (frames : list (float * option HandData)) (s : t) : t :=
  fold_left (fun s f => update Math_sin (fst f) (snd f) s) frames s.

Definition triggerWave (s : t) : t :=
  {| count := count s; uTime := uTime s; uGlow := uGlow s;
     positions := positions s; aScale := aScale s; aColor := aColor s;
     aTarget := aTarget s; templates := templates s;
     currentTarget := currentTarget s;
     wavePhase := 0; isWaving := true;
     expanded := expanded s; attracted := attracted s;
     timers := S (timers s) |}.

Record wf (s : t) : Prop := {
  wf_positions : length (positions s) = (count s * 3)%nat;
  wf_colors : length (aColor s) = (count s * 3)%nat;
  wf_target : exists b, templates s !! currentTarget s = Some b /\
                        length b = (count s * 3)%nat
}.

Definition pos (s : t) (i : nat) : Point :=
  mkPoint (rd (positions s) (i * 3)) (rd (positions s) (i * 3 + 1))
          (rd (positions s) (i * 3 + 2)).

Definition point (b : list float) (i : nat) : Point :=
  mkPoint (rd b (i * 3)) (rd b (i * 3 + 1)) (rd b (i * 3 + 2)).

(** The integration step as it is stored: 5% of the way from [p] to
    [target], computed in binary64 and rounded to binary32. *)
Definition ease (p target : Point) : Point :=
  mkPoint (fround (x p + (x target - x p) * 0.05))
          (fround (y p + (y target - y p) * 0.05))
          (fround (z p + (z target - z p) * 0.05)).

(** One engine with a single particle at [p], its template point at [tp],
    all flags clear. *)
Definition single (p tp : Point) : t :=
  {| count := 1;
     uTime := 0;
     uGlow := 0;
     positions := [x p; y p; z p];
     aScale := [1];
     aColor := [0.30000001192092896; 0.5; 0.8999999761581421];
     aTarget := [x tp; y tp; z tp];
     templates := <["random"%string := [x tp; y tp; z tp]]> ∅;
     currentTarget := "random";
     wavePhase := 0;
     isWaving := false;
     expanded := false;
     attracted := false;
     timers := 0 |}.

End ParticleSystem.

(** *** Vocabulary and inputs *)

(** The planar distance of two points as the classifier computes it. *)
Definition planarDist (Math_pow2 : float -> float) (p q : Point) : float :=
  sqrt (HandTracker.distSq Math_pow2 p q).

(** The exact square of the planar distance of two points. *)
Definition sqPlanarDistQ (p q : Point) : Q :=
  ((toQ (x p) - toQ (x q)) * (toQ (x p) - toQ (x q))
   + (toQ (y p) - toQ (y q)) * (toQ (y p) - toQ (y q)))%Q.

(** A finger is extended when the code finds its tip farther from the
    wrist than its PIP joint. *)
Definition extended (Math_pow2 : float -> float) (landmarks : list Point)
    (tip pip : nat) : Prop :=
  (HandTracker.distSq Math_pow2 (landmarks !!! pip) (landmarks !!! 0%nat)
   <? HandTracker.distSq Math_pow2 (landmarks !!! tip) (landmarks !!! 0%nat)) = true.

(** A hand with four fingers extended whose thumb tip is, in exact
    arithmetic, a little less than 0.05 from the index finger tip. *)
Definition nearPinch : list Point :=
  [ mkPoint 0.5 0.9 0; mkPoint 0.6 0.8 0; mkPoint 0.7 0.6 0; mkPoint 0.8 0.4 0;
    mkPoint 0.9076536209513208 0.1914027333041175 0;
    mkPoint 0.8 0.5 0; mkPoint 0.85 0.35 0; mkPoint 0.88 0.25 0;
    mkPoint 0.9060148589825118 0.14142959592802729 0;
    mkPoint 0.7 0.5 0; mkPoint 0.75 0.35 0; mkPoint 0.78 0.25 0; mkPoint 0.8 0.15 0;
    mkPoint 0.6 0.5 0; mkPoint 0.62 0.35 0; mkPoint 0.64 0.25 0; mkPoint 0.66 0.15 0;
    mkPoint 0.5 0.5 0; mkPoint 0.5 0.4 0; mkPoint 0.5 0.3 0; mkPoint 0.5 0.2 0 ].

(** A hand all of whose landmarks have the same planar coordinates. *)
Definition handAt (px py : float) : list Point := replicate 21 (mkPoint px py 0).

End IEEE.

(** * Hand signal extractor *)

Lemma Rltb_true (a b : R) : Rltb a b = true <-> a < b.
Proof. unfold Rltb. apply bool_decide_eq_true. Qed.

Lemma Rgtb_true (a b : R) : Rgtb a b = true <-> a > b.
Proof. unfold Rgtb. apply bool_decide_eq_true. Qed.

Lemma Rltb_false (a b : R) : Rltb a b = false <-> ~ a < b.
Proof. unfold Rltb. apply bool_decide_eq_false. Qed.

Lemma Rgtb_false (a b : R) : Rgtb a b = false <-> ~ a > b.
Proof. unfold Rgtb. apply bool_decide_eq_false. Qed.

(** A list of 21 landmarks, spelled out. *)
Ltac spell_out landmarks H :=
  do 21 (destruct landmarks as [|? landmarks]; [discriminate H|]);
  destruct landmarks; [clear H|discriminate H].

(** On 21 landmarks no read of the classifier is out of range. *)
Lemma detectGesture_total (landmarks : list Point) :
  length landmarks = 21%nat ->
  exists g, HandTracker.detectGesture landmarks = Normal g.
Proof.
  intros H. spell_out landmarks H.
  unfold HandTracker.detectGesture, HandTracker.isExtended; cbn.
  repeat match goal with |- context [if ?b then _ else _] => destruct b end;
    eauto.
Qed.

Lemma sqrt_lt_of_sq (a b : R) : 0 < b -> a < b * b -> sqrt a < b.
Proof.
  intros Hb H. destruct (Rle_lt_dec a 0) as [Ha|Ha].
  - rewrite sqrt_neg_0 by exact Ha. exact Hb.
  - rewrite <- (sqrt_square b) by lra. apply sqrt_lt_1_alt. lra.
Qed.

Lemma sqrt_ge_of_sq (a b : R) : 0 <= b -> b * b <= a -> b <= sqrt a.
Proof.
  intros Hb H. rewrite <- (sqrt_square b) by exact Hb. apply sqrt_le_1_alt. exact H.
Qed.

Example detectGesture_openHand : HandTracker.detectGesture openHand = Normal open.
Proof.
  unfold HandTracker.detectGesture, HandTracker.isExtended, openHand; cbn.
  unfold HandTracker.distSq, Rltb, Rgtb; cbn.
  assert (Hd : ~ sqrt ((0.25 - 0.45) * ((0.25 - 0.45) * 1)
                       + (0.6 - 0.3) * ((0.6 - 0.3) * 1)) < 0.05).
  { apply Rle_not_lt, sqrt_ge_of_sq; lra. }
  repeat case_bool_decide; cbn; try reflexivity; try tauto; exfalso; lra.
Qed.

(** With a hand in the frame and 21 landmarks, [getData] returns a signal
    and stores the palm proxy; the swipe is decided by the branch taken. *)
Lemma getData_present (h : HandTracker.t) (landmarks : list Point) :
  HandTracker.present h landmarks ->
  length landmarks = 21%nat ->
  exists data,
    HandTracker.getData h =
      (Normal (Some data),
       {| HandTracker.results := HandTracker.results h;
          HandTracker.lastPalmX := Some (x (landmarks !!! 9%nat)) |}) /\
    swipe data =
      match HandTracker.lastPalmX h with
      | Some last =>
        if Rgtb (Rabs (x (landmarks !!! 9%nat) - last)) 0.03 then
          if Rgtb (x (landmarks !!! 9%nat) - last) 0 then left else right
        else none
      | None => none
      end.
Proof.
  intros (r & rest & Hr & Hm) Hlen.
  destruct (detectGesture_total landmarks Hlen) as [g Hg].
  unfold HandTracker.getData. rewrite Hr, Hm.
  spell_out landmarks Hlen. cbn [HandTracker.get lookup list_lookup bind].
  rewrite Hg. cbn [bind].
  eexists. split; reflexivity.
Qed.

(** C9. With no hand in the frame [getData] returns [null], without
    throwing, and clears the swipe history.  When the provider keeps its
    contract (21 landmarks per hand) [getData] never throws, and it returns
    [null] only when no hand is in the frame. *)
Theorem getData_absent (h : HandTracker.t) :
  (HandTracker.absent h ->
   HandTracker.getData h =
     (Normal None,
      {| HandTracker.results := HandTracker.results h;
         HandTracker.lastPalmX := None |})) /\
  (wellFormedInput h ->
   fst (HandTracker.getData h) <> TypeError /\
   (fst (HandTracker.getData h) = Normal None -> HandTracker.absent h)).
Proof.
  assert (Habs : HandTracker.absent h ->
                 HandTracker.getData h =
                   (Normal None,
                    {| HandTracker.results := HandTracker.results h;
                       HandTracker.lastPalmX := None |})).
  { unfold HandTracker.absent, HandTracker.getData.
    destruct (HandTracker.results h) as [r|]; [|reflexivity].
    destruct (HandTracker.multiHandLandmarks r) as [[|landmarks rest]|];
      [reflexivity|contradiction|reflexivity]. }
  split; [exact Habs|].
  intros Hwf.
  destruct (HandTracker.results h) as [r|] eqn:Hr.
  - destruct (HandTracker.multiHandLandmarks r) as [[|landmarks rest]|] eqn:Hm.
    + assert (Ha : HandTracker.absent h).
      { unfold HandTracker.absent. rewrite Hr, Hm. exact I. }
      rewrite (Habs Ha). split; [discriminate|intros _; exact Ha].
    + assert (Hlen : length landmarks = 21%nat).
      { specialize (Hwf r _ Hr Hm). inversion Hwf; assumption. }
      destruct (getData_present h landmarks) as (data & Hget & _).
      { exists r, rest. split; assumption. }
      { exact Hlen. }
      rewrite Hget. cbn. split; discriminate.
    + assert (Ha : HandTracker.absent h).
      { unfold HandTracker.absent. rewrite Hr, Hm. exact I. }
      rewrite (Habs Ha). split; [discriminate|intros _; exact Ha].
  - assert (Ha : HandTracker.absent h).
    { unfold HandTracker.absent. rewrite Hr. exact I. }
    rewrite (Habs Ha). split; [discriminate|intros _; exact Ha].
Qed.

(** Before the provider has delivered anything there is no hand. *)
Lemma getData_absent_witness :
  HandTracker.getData HandTracker.new = (Normal None, HandTracker.new).
Proof.
  refine (proj1 (getData_absent HandTracker.new) _).
  exact I.
Defined.

(** * Loops and buffers *)

Lemma fold_seq_ind {S : Type} (P : nat -> S -> Prop) (body : nat -> S -> S)
    (n a : nat) (s : S) :
  P a s ->
  (forall i s', (a <= i < a + n)%nat -> P i s' -> P (Datatypes.S i) (body i s')) ->
  P (a + n)%nat (fold_left (fun s i => body i s) (seq a n) s).
Proof.
  revert a s.
  induction n as [|n IH]; intros a s Ha Hstep.
  - rewrite Nat.add_0_r. exact Ha.
  - cbn [seq fold_left].
    replace (a + Datatypes.S n)%nat with (Datatypes.S a + n)%nat by lia.
    apply IH.
    + apply Hstep; [lia|exact Ha].
    + intros i s' Hi. apply Hstep. lia.
Qed.

(** Loop invariants: [P i] holds before iteration [i] and [P b] at exit. *)
Lemma for_range_ind {S : Type} (P : nat -> S -> Prop) (a b : nat)
    (body : nat -> S -> S) (s : S) :
  (a <= b)%nat ->
  P a s ->
  (forall i s', (a <= i < b)%nat -> P i s' -> P (Datatypes.S i) (body i s')) ->
  P b (for_range a b body s).
Proof.
  intros Hab Ha Hstep. unfold for_range.
  replace b with (a + (b - a))%nat at 1 by lia.
  apply fold_seq_ind; [exact Ha|].
  intros i s' Hi. apply Hstep. lia.
Qed.

Lemma rd_insert_eq (a : list R) (i : nat) (v : R) :
  (i < length a)%nat -> rd (<[i := v]> a) i = v.
Proof. intros H. unfold rd. rewrite list_lookup_insert_eq by exact H. reflexivity. Qed.

Lemma rd_insert_ne (a : list R) (i j : nat) (v : R) :
  i <> j -> rd (<[i := v]> a) j = rd a j.
Proof. intros H. unfold rd. rewrite list_lookup_insert_ne by exact H. reflexivity. Qed.

(** Reads through a stack of writes, with the side conditions on indices
    and lengths left to [lia]. *)
Ltac rd_simpl :=
  repeat first
    [ rewrite rd_insert_eq by (rewrite ?length_insert; lia)
    | rewrite rd_insert_ne by lia ].

Lemma point_insert_other (b : list R) (i j k : nat) (v : R) :
  i <> j -> (k < 3)%nat ->
  ParticleSystem.point (<[(i * 3 + k)%nat := v]> b) j = ParticleSystem.point b j.
Proof.
  intros Hij Hk. unfold ParticleSystem.point. rd_simpl. reflexivity.
Qed.

(** * Template generator *)

Lemma length_Float32Array (n : nat) : length (Float32Array n) = n.
Proof. apply length_replicate. Qed.

Lemma sphereCount_le (count : nat) : (ParticleSystem.sphereCount count <= count)%nat.
Proof.
  unfold ParticleSystem.sphereCount, Math_floor.
  destruct (base_Int_part (INR count * 0.4)) as [Hle _].
  assert (Hc : 0 <= INR count) by apply pos_INR.
  assert (H : IZR (Int_part (INR count * 0.4)) <= IZR (Z.of_nat count)).
  { rewrite <- INR_IZR_INZ. lra. }
  apply le_IZR in H. lia.
Qed.

(** [Math.floor(count * 0.4)] is the integer quotient of [2 * count] by 5. *)
Lemma sphereCount_div (count : nat) :
  ParticleSystem.sphereCount count = (2 * count / 5)%nat.
Proof.
  unfold ParticleSystem.sphereCount, Math_floor.
  rewrite <- (Int_part_spec (INR count * 0.4) (Z.of_nat (2 * count / 5))).
  - apply Nat2Z.id.
  - rewrite <- INR_IZR_INZ.
    pose proof (Nat.div_mod_eq (2 * count) 5) as Hdm.
    pose proof (Nat.mod_upper_bound (2 * count) 5 ltac:(lia)) as Hm.
    set (q := (2 * count / 5)%nat) in *.
    set (m := ((2 * count) mod 5)%nat) in *.
    assert (E : (2 * INR count = 5 * INR q + INR m)).
    { pose proof (f_equal INR Hdm) as E.
      rewrite plus_INR, !mult_INR in E.
      simpl (INR 2) in E. simpl (INR 5) in E. lra. }
    assert (H0 : 0 <= INR m) by apply pos_INR.
    assert (H4 : INR m <= 4).
    { assert (H : INR m <= INR 4) by (apply le_INR; lia).
      simpl (INR 4) in H. lra. }
    lra.
Qed.

Section PointWriters.

(** A loop body that writes point [i] of the buffer and nothing else. *)
Variable body : nat -> list R * Rng -> list R * Rng.
Hypothesis body_length :
  forall i st, length (fst (body i st)) = length (fst st).
Hypothesis body_frame :
  forall i j st, i <> j ->
    ParticleSystem.point (fst (body i st)) j = ParticleSystem.point (fst st) j.

Lemma for_range_points (a b : nat) (st : list R * Rng) :
  (a <= b)%nat ->
  length (fst (for_range a b body st)) = length (fst st) /\
  forall j, ~ (a <= j < b)%nat ->
    ParticleSystem.point (fst (for_range a b body st)) j
    = ParticleSystem.point (fst st) j.
Proof.
  intros Hab.
  apply (for_range_ind
           (fun k st' =>
              length (fst st') = length (fst st) /\
              forall j, ~ (a <= j < k)%nat ->
                ParticleSystem.point (fst st') j = ParticleSystem.point (fst st) j));
    [exact Hab| |].
  - split; reflexivity.
  - intros i st' Hi [Hlen Hfr]. split.
    + rewrite body_length. exact Hlen.
    + intros j Hj. rewrite body_frame by lia. apply Hfr. lia.
Qed.

(** What the body establishes for its own point survives the rest of the
    loop. *)
Lemma for_range_each (Q : Point -> Prop) (a b : nat) (st : list R * Rng) :
  (a <= b)%nat ->
  (forall i st', (a <= i < b)%nat -> length (fst st') = length (fst st) ->
     Q (ParticleSystem.point (fst (body i st')) i)) ->
  forall j, (a <= j < b)%nat ->
    Q (ParticleSystem.point (fst (for_range a b body st)) j).
Proof.
  intros Hab Hown.
  apply (for_range_ind
           (fun k st' =>
              length (fst st') = length (fst st) /\
              forall j, (a <= j < k)%nat -> Q (ParticleSystem.point (fst st') j)));
    [exact Hab| |].
  - split; [reflexivity|]. intros j Hj. lia.
  - intros i st' Hi [Hlen HQ]. split.
    + rewrite body_length. exact Hlen.
    + intros j Hj. destruct (decide (j = i)) as [->|Hne].
      * apply Hown; [exact Hi|exact Hlen].
      * rewrite body_frame by congruence. apply HQ. lia.
Qed.

End PointWriters.

Lemma spherePoint_length (r : R) (i : nat) (st : list R * Rng) :
  length (fst (ParticleSystem.spherePoint r i st)) = length (fst st).
Proof. destruct st as [buf g]. cbn. rewrite !length_insert. reflexivity. Qed.

Lemma spherePoint_frame (r : R) (i j : nat) (st : list R * Rng) :
  i <> j ->
  ParticleSystem.point (fst (ParticleSystem.spherePoint r i st)) j
  = ParticleSystem.point (fst st) j.
Proof.
  intros Hij. destruct st as [buf g]. cbn.
  unfold ParticleSystem.point. rd_simpl. reflexivity.
Qed.

Lemma cubePoint_length (i : nat) (st : list R * Rng) :
  length (fst (ParticleSystem.cubePoint i st)) = length (fst st).
Proof. destruct st as [buf g]. cbn. rewrite !length_insert. reflexivity. Qed.

Lemma ringPoint_length (i : nat) (st : list R * Rng) :
  length (fst (ParticleSystem.ringPoint i st)) = length (fst st).
Proof. destruct st as [buf g]. cbn. rewrite !length_insert. reflexivity. Qed.

Lemma ringPoint_frame (i j : nat) (st : list R * Rng) :
  i <> j ->
  ParticleSystem.point (fst (ParticleSystem.ringPoint i st)) j
  = ParticleSystem.point (fst st) j.
Proof.
  intros Hij. destruct st as [buf g]. cbn.
  unfold ParticleSystem.point. rd_simpl. reflexivity.
Qed.

Lemma randomScalar_length (a b : nat) (st : list R * Rng) :
  (a <= b)%nat ->
  length (fst (for_range a b ParticleSystem.randomScalar st)) = length (fst st).
Proof.
  intros Hab.
  apply (for_range_ind (fun _ st' => length (fst st') = length (fst st)));
    [exact Hab|reflexivity|].
  intros i [buf g] _ Hlen. cbn in *. rewrite length_insert. exact Hlen.
Qed.

Lemma cube_length (a b : nat) (st : list R * Rng) :
  (a <= b)%nat ->
  length (fst (for_range a b ParticleSystem.cubePoint st)) = length (fst st).
Proof.
  intros Hab.
  apply (for_range_ind (fun _ st' => length (fst st') = length (fst st)));
    [exact Hab|reflexivity|].
  intros i st' _ Hlen. rewrite cubePoint_length. exact Hlen.
Qed.

(** The point written by the sphere body lies on the sphere of radius [r]. *)
Lemma spherePoint_norm (r : R) (i : nat) (st : list R * Rng) :
  0 <= r -> (i * 3 + 2 < length (fst st))%nat ->
  ParticleSystem.norm
    (ParticleSystem.point (fst (ParticleSystem.spherePoint r i st)) i) = r.
Proof.
  intros Hr Hi. destruct st as [buf g]. cbn in *.
  unfold ParticleSystem.point, ParticleSystem.norm. rd_simpl.
  cbn [x y z].
  set (theta := draws g (next g) * PI * 2).
  set (phi := acos (draws g (Datatypes.S (next g)) * 2 - 1)).
  pose proof (sin2_cos2 theta) as Ht. pose proof (sin2_cos2 phi) as Hp.
  unfold Rsqr in Ht, Hp.
  replace (r * sin phi * cos theta * (r * sin phi * cos theta)
           + r * sin phi * sin theta * (r * sin phi * sin theta)
           + r * cos phi * (r * cos phi))
    with (r * r * (sin phi * sin phi * (sin theta * sin theta + cos theta * cos theta)
                   + cos phi * cos phi)) by ring.
  rewrite Ht, Rmult_1_r, Hp, Rmult_1_r.
  apply sqrt_square. exact Hr.
Qed.

(** A loop of sphere bodies over [a, b) puts every point of that range on
    the sphere, keeps the length and leaves the other points alone. *)
Lemma sphere_loop (r : R) (a b n : nat) (st : list R * Rng) :
  0 <= r -> (a <= b <= n)%nat -> length (fst st) = (n * 3)%nat ->
  length (fst (for_range a b (ParticleSystem.spherePoint r) st)) = (n * 3)%nat /\
  forall j, (a <= j < b)%nat ->
    ParticleSystem.norm
      (ParticleSystem.point (fst (for_range a b (ParticleSystem.spherePoint r) st)) j) = r.
Proof.
  intros Hr Hab Hlen. split.
  - rewrite <- Hlen.
    apply (for_range_points _ (spherePoint_length r) (spherePoint_frame r)). lia.
  - apply (for_range_each _ (spherePoint_length r) (spherePoint_frame r)
             (fun p => ParticleSystem.norm p = r)); [lia|].
    intros i st' Hi Hl. apply spherePoint_norm; [exact Hr|]. lia.
Qed.

(** What [generateTemplates] builds: four buffers under four names. *)
Lemma generateTemplates_spec (count : nat) (g : Rng) :
  exists random sphere cube saturn g',
    ParticleSystem.generateTemplates count g =
      (<["saturn"%string := saturn]>
         (<["cube"%string := cube]>
            (<["sphere"%string := sphere]>
               (<["random"%string := random]> ∅))), random, g') /\
    length random = (count * 3)%nat /\
    length sphere = (count * 3)%nat /\
    length cube = (count * 3)%nat /\
    length saturn = (count * 3)%nat /\
    (forall i, (i < count)%nat ->
       ParticleSystem.norm (ParticleSystem.point sphere i) = 4) /\
    (forall i, (i < ParticleSystem.sphereCount count)%nat ->
       ParticleSystem.norm (ParticleSystem.point saturn i) = 2.5).
Proof.
  pose proof (sphereCount_le count) as Hsc.
  unfold ParticleSystem.generateTemplates.
  destruct (for_range 0 (count * 3) ParticleSystem.randomScalar
              (Float32Array (count * 3), g)) as [random g1] eqn:E1.
  destruct (for_range 0 count (ParticleSystem.spherePoint 4)
              (Float32Array (count * 3), g1)) as [sphere g2] eqn:E2.
  destruct (for_range 0 count ParticleSystem.cubePoint
              (Float32Array (count * 3), g2)) as [cube g3] eqn:E3.
  destruct (for_range 0 (ParticleSystem.sphereCount count) (ParticleSystem.spherePoint 2.5)
              (Float32Array (count * 3), g3)) as [saturn0 g4] eqn:E4.
  destruct (for_range (ParticleSystem.sphereCount count) count ParticleSystem.ringPoint
              (saturn0, g4)) as [saturn g5] eqn:E5.
  exists random, sphere, cube, saturn, g5.
  split; [reflexivity|].
  assert (H1 : length random = (count * 3)%nat).
  { change random with (fst (random, g1)). rewrite <- E1.
    rewrite randomScalar_length by lia. apply length_Float32Array. }
  destruct (sphere_loop 4 0 count count (Float32Array (count * 3), g1))
    as [H2 H2n]; [lra|lia|apply length_Float32Array|].
  rewrite E2 in H2, H2n. cbn [fst] in H2, H2n.
  assert (H3 : length cube = (count * 3)%nat).
  { change cube with (fst (cube, g3)). rewrite <- E3.
    rewrite cube_length by lia. apply length_Float32Array. }
  destruct (sphere_loop 2.5 0 (ParticleSystem.sphereCount count) count
              (Float32Array (count * 3), g3))
    as [H4 H4n]; [lra|lia|apply length_Float32Array|].
  rewrite E4 in H4, H4n. cbn [fst] in H4, H4n.
  destruct (for_range_points _ ringPoint_length ringPoint_frame
              (ParticleSystem.sphereCount count) count (saturn0, g4) Hsc)
    as [H5 H5f].
  rewrite E5 in H5, H5f. cbn [fst] in H5, H5f.
  split; [exact H1|]. split; [exact H2|]. split; [exact H3|].
  split; [congruence|]. split.
  - intros i Hi. apply H2n. lia.
  - intros i Hi. rewrite H5f by lia. apply H4n. lia.
Qed.

(** The engine as the constructor leaves it. *)
Lemma new_spec (count : nat) (g : Rng) :
  exists positions scales colors g1 tpl targets g2,
    ParticleSystem.initParticles count g
      = (positions, scales, colors, Float32Array (count * 3), g1) /\
    ParticleSystem.generateTemplates count g1 = (tpl, targets, g2) /\
    ParticleSystem.new count g =
      {| ParticleSystem.count := count;
         ParticleSystem.uTime := 0;
         ParticleSystem.uGlow := 0;
         ParticleSystem.positions := positions;
         ParticleSystem.aScale := scales;
         ParticleSystem.aColor := colors;
         ParticleSystem.aTarget := targets;
         ParticleSystem.templates := tpl;
         ParticleSystem.currentTarget := "random";
         ParticleSystem.wavePhase := 0;
         ParticleSystem.isWaving := false;
         ParticleSystem.expanded := false;
         ParticleSystem.attracted := false;
         ParticleSystem.timers := 0 |}.
Proof.
  unfold ParticleSystem.new, ParticleSystem.initParticles.
  destruct (for_range 0 count ParticleSystem.initParticle _)
    as [[[positions scales] colors] g1].
  destruct (ParticleSystem.generateTemplates count g1) as [[tpl targets] g2] eqn:E.
  exists positions, scales, colors, g1, tpl, targets, g2.
  split; [reflexivity|]. split; [exact E|]. f_equal. lra.
Qed.

(** C8. For every particle count and random source the constructor leaves
    four templates, random, sphere, cube and saturn, each a buffer of
    [count * 3] scalars; every point of sphere is at distance 4 from the
    origin, and each of the first [Math.floor(count * 0.4)] points of saturn
    is at distance 2.5 from the origin (exactly, in real arithmetic). *)
Theorem templates_shape (count : nat) (g : Rng) :
  exists random sphere cube saturn,
    ParticleSystem.templates (ParticleSystem.new count g) !! "random"%string = Some random /\
    ParticleSystem.templates (ParticleSystem.new count g) !! "sphere"%string = Some sphere /\
    ParticleSystem.templates (ParticleSystem.new count g) !! "cube"%string = Some cube /\
    ParticleSystem.templates (ParticleSystem.new count g) !! "saturn"%string = Some saturn /\
    length random = (count * 3)%nat /\
    length sphere = (count * 3)%nat /\
    length cube = (count * 3)%nat /\
    length saturn = (count * 3)%nat /\
    (forall i, (i < count)%nat ->
       ParticleSystem.norm (ParticleSystem.point sphere i) = 4) /\
    (forall i, (i < ParticleSystem.sphereCount count)%nat ->
       ParticleSystem.norm (ParticleSystem.point saturn i) = 2.5).
Proof.
  destruct (new_spec count g)
    as (positions & scales & colors & g1 & tpl & targets & g2 & _ & Hgen & Hnew).
  destruct (generateTemplates_spec count g1)
    as (random & sphere & cube & saturn & g' & Hg & H1 & H2 & H3 & H4 & Hs & Hsat).
  rewrite Hg in Hgen. injection Hgen as <- <- <-.
  exists random, sphere, cube, saturn.
  rewrite Hnew. cbn [ParticleSystem.templates].
  repeat split; try assumption; by simplify_map_eq.
Qed.

(** Five particles: the first two points of saturn are on its sphere. *)
Lemma templates_shape_witness :
  exists saturn,
    ParticleSystem.templates (ParticleSystem.new 5 (mkRng (fun _ => 0.5) 0))
      !! "saturn"%string = Some saturn /\
    length saturn = 15%nat /\
    ParticleSystem.norm (ParticleSystem.point saturn 1) = 2.5.
Proof.
  destruct (templates_shape 5 (mkRng (fun _ => 0.5) 0))
    as (random & sphere & cube & saturn & _ & _ & _ & Hl & _ & _ & _ & Hlen & _ & Hn).
  exists saturn. split; [exact Hl|]. split; [exact Hlen|].
  apply Hn. rewrite sphereCount_div. cbn. lia.
Defined.

(** * Behaviour flags, template selection, glow *)

(** [update] touches the clock, the glow, the wave phase and the two
    buffers, and nothing else. *)
Lemma update_fields (time : R) (handData : option HandData) (s : ParticleSystem.t) :
  ParticleSystem.count (ParticleSystem.update time handData s) = ParticleSystem.count s /\
  ParticleSystem.templates (ParticleSystem.update time handData s)
    = ParticleSystem.templates s /\
  ParticleSystem.currentTarget (ParticleSystem.update time handData s)
    = ParticleSystem.currentTarget s /\
  ParticleSystem.expanded (ParticleSystem.update time handData s)
    = ParticleSystem.expanded s /\
  ParticleSystem.attracted (ParticleSystem.update time handData s)
    = ParticleSystem.attracted s /\
  ParticleSystem.isWaving (ParticleSystem.update time handData s)
    = ParticleSystem.isWaving s /\
  ParticleSystem.uGlow (ParticleSystem.update time handData s)
    = ParticleSystem.uGlow s
      + (ParticleSystem.targetGlowOf handData - ParticleSystem.uGlow s) * 0.1.
Proof.
  unfold ParticleSystem.update.
  destruct (for_range _ _ _ _) as [positions' colors'].
  unfold ParticleSystem.advanceWave.
  destruct (ParticleSystem.isWaving s) eqn:E; cbn; rewrite ?E; repeat split.
Qed.

(** The truthiness test on the proximity changes nothing: a falsy
    proximity is zero. *)
Lemma targetGlowOf_proximity (h : HandData) :
  ParticleSystem.targetGlowOf (Some h) = proximity h.
Proof.
  unfold ParticleSystem.targetGlowOf.
  destruct (Req_dec_T (proximity h) 0) as [E|E]; [symmetry; exact E|reflexivity].
Qed.

Lemma targetGlowOf_range (time : R) (handData : option HandData) :
  ParticleSystem.validCall (ParticleSystem.call_update time handData) ->
  0 <= ParticleSystem.targetGlowOf handData <= 1.
Proof.
  destruct handData as [h|]; cbn [ParticleSystem.validCall].
  - rewrite targetGlowOf_proximity. auto.
  - intros _. cbn. lra.
Qed.

Lemma step_exclusive (s : ParticleSystem.t) (c : ParticleSystem.Call) :
  exclusive s -> exclusive (ParticleSystem.step s c).
Proof.
  unfold exclusive. intros Hs.
  destruct c as [name|[]|[]| |time handData|]; cbn [ParticleSystem.step].
  - unfold ParticleSystem.setTarget.
    destruct (ParticleSystem.get_property _ _); [cbn; intros [? _]; discriminate|exact Hs].
  - cbn. intros [_ ?]; discriminate.
  - cbn. intros [? _]; discriminate.
  - cbn. intros [? _]; discriminate.
  - cbn. intros [_ ?]; discriminate.
  - exact Hs.
  - destruct (update_fields time handData s) as (_ & _ & _ & He & Ha & _).
    rewrite He, Ha. exact Hs.
  - unfold ParticleSystem.timeout. destruct (ParticleSystem.timers s); exact Hs.
Qed.

Lemma run_exclusive (cs : list ParticleSystem.Call) (s : ParticleSystem.t) :
  exclusive s -> exclusive (ParticleSystem.run s cs).
Proof.
  revert s. induction cs as [|c cs IH]; intros s Hs; [exact Hs|].
  cbn. apply IH, step_exclusive, Hs.
Qed.

(** C6. [setExpanded(true)] clears [attracted], [setAttract(true)] clears
    [expanded], and after any sequence of calls of the control surface
    (and of timer callbacks) on a fresh engine, [expanded] and [attracted]
    are not both true. *)
Theorem flags_exclusive (count : nat) (g : Rng) (cs : list ParticleSystem.Call) :
  (forall s, ParticleSystem.expanded (ParticleSystem.setExpanded true s) = true /\
             ParticleSystem.attracted (ParticleSystem.setExpanded true s) = false) /\
  (forall s, ParticleSystem.attracted (ParticleSystem.setAttract true s) = true /\
             ParticleSystem.expanded (ParticleSystem.setAttract true s) = false) /\
  ~ (ParticleSystem.expanded (ParticleSystem.run (ParticleSystem.new count g) cs) = true /\
     ParticleSystem.attracted (ParticleSystem.run (ParticleSystem.new count g) cs) = true).
Proof.
  split; [intros s; split; reflexivity|].
  split; [intros s; split; reflexivity|].
  apply run_exclusive.
  destruct (new_spec count g) as (? & ? & ? & ? & ? & ? & ? & _ & _ & ->).
  unfold exclusive. cbn. intros [? _]; discriminate.
Qed.

Lemma step_glow (s : ParticleSystem.t) (c : ParticleSystem.Call) :
  ParticleSystem.validCall c ->
  0 <= ParticleSystem.uGlow s <= 1 ->
  0 <= ParticleSystem.uGlow (ParticleSystem.step s c) <= 1.
Proof.
  intros Hc Hs.
  destruct c as [name|[]|[]| |time handData|]; cbn [ParticleSystem.step];
    try exact Hs.
  - unfold ParticleSystem.setTarget.
    destruct (ParticleSystem.get_property _ _); exact Hs.
  - destruct (update_fields time handData s) as (_ & _ & _ & _ & _ & _ & ->).
    pose proof (targetGlowOf_range time handData Hc). lra.
  - unfold ParticleSystem.timeout. destruct (ParticleSystem.timers s); exact Hs.
Qed.

Lemma run_glow (cs : list ParticleSystem.Call) (s : ParticleSystem.t) :
  Forall ParticleSystem.validCall cs ->
  0 <= ParticleSystem.uGlow s <= 1 ->
  0 <= ParticleSystem.uGlow (ParticleSystem.run s cs) <= 1.
Proof.
  revert s. induction cs as [|c cs IH]; intros s Hcs Hs; [exact Hs|].
  inversion Hcs; subst. cbn. apply IH; [assumption|].
  apply step_glow; assumption.
Qed.

(** C10. On a fresh engine (glow 0), along any sequence of calls in which
    every hand signal is [null] or has its proximity in [0, 1], the glow is
    in [0, 1] after every call; and an [update] there replaces the glow by
    [glow + (target - glow) * 0.1] for a target in [0, 1]. *)
Theorem glow_bounded (count : nat) (g : Rng) (cs : list ParticleSystem.Call) :
  Forall ParticleSystem.validCall cs ->
  forall k,
    0 <= ParticleSystem.uGlow
           (ParticleSystem.run (ParticleSystem.new count g) (take k cs)) <= 1 /\
    forall time handData,
      ParticleSystem.validCall (ParticleSystem.call_update time handData) ->
      exists target, 0 <= target <= 1 /\
        ParticleSystem.uGlow
          (ParticleSystem.update time handData
             (ParticleSystem.run (ParticleSystem.new count g) (take k cs)))
        = ParticleSystem.uGlow
            (ParticleSystem.run (ParticleSystem.new count g) (take k cs))
          + (target
             - ParticleSystem.uGlow
                 (ParticleSystem.run (ParticleSystem.new count g) (take k cs))) * 0.1.
Proof.
  intros Hcs k. split.
  - apply run_glow.
    + apply Forall_take. exact Hcs.
    + destruct (new_spec count g) as (? & ? & ? & ? & ? & ? & ? & _ & _ & ->).
      cbn. lra.
  - intros time handData Hv.
    exists (ParticleSystem.targetGlowOf handData).
    split; [exact (targetGlowOf_range time handData Hv)|].
    apply (update_fields time handData).
Qed.

(** Two frames: no hand, then a hand at proximity 0.5. *)
Lemma glow_bounded_witness :
  0 <= ParticleSystem.uGlow
         (ParticleSystem.run (ParticleSystem.new 1 (mkRng (fun _ => 0.5) 0))
            [ParticleSystem.call_update 0 None;
             ParticleSystem.call_update 1
               (Some (mkHandData (Some (mkPoint 0 0 0)) 0.5 neutral none []))]) <= 1.
Proof.
  refine (proj1 (glow_bounded 1 (mkRng (fun _ => 0.5) 0)
            [ParticleSystem.call_update 0 None;
             ParticleSystem.call_update 1
               (Some (mkHandData (Some (mkPoint 0 0 0)) 0.5 neutral none []))]
            _ 2%nat)).
  repeat constructor; cbn; lra.
Defined.

(** The own properties of the templates object of a fresh engine are the
    four generated names. *)
Lemma new_templates_names (count : nat) (g : Rng) (name : string) :
  is_Some (ParticleSystem.templates (ParticleSystem.new count g) !! name) <->
  name ∈ ["random"; "sphere"; "cube"; "saturn"]%string.
Proof.
  destruct (new_spec count g)
    as (positions & scales & colors & g1 & tpl & targets & g2 & _ & Hgen & ->).
  destruct (generateTemplates_spec count g1)
    as (random & sphere & cube & saturn & g' & Hg & _).
  rewrite Hg in Hgen. injection Hgen as <- <- <-.
  cbn [ParticleSystem.templates].
  rewrite !lookup_insert_is_Some, lookup_empty, is_Some_alt.
  rewrite !elem_of_cons, elem_of_nil.
  split.
  - intros [->|[_ [->|[_ [->|[_ [->|[_ []]]]]]]]]; auto.
  - intros [->|[->|[->|[->|[]]]]].
    + right. split; [done|]. right. split; [done|]. right. split; [done|]. left; done.
    + right. split; [done|]. right. split; [done|]. left; done.
    + right. split; [done|]. left; done.
    + left; done.
Qed.

(** [setTarget] on a fresh engine: a generated name is selected and both
    flags are cleared; a name that is neither generated nor inherited from
    [Object.prototype] changes nothing. *)
Lemma setTarget_spec (s : ParticleSystem.t) (name : string) :
  (is_Some (ParticleSystem.templates s !! name) ->
   ParticleSystem.setTarget name s = ParticleSystem.set_flags s name false false) /\
  (ParticleSystem.templates s !! name = None ->
   name ∉ ParticleSystem.Object_prototype ->
   ParticleSystem.setTarget name s = s).
Proof.
  unfold ParticleSystem.setTarget, ParticleSystem.get_property. split.
  - intros [b ->]. reflexivity.
  - intros -> Hn. rewrite bool_decide_eq_false_2 by exact Hn. reflexivity.
Qed.

(** C5, at the name [toString].  It is not one of the generated template
    names, yet [this.templates["toString"]] finds the method every object
    literal inherits, which is truthy: [setTarget("toString")] selects it
    as the current template and clears [expanded]. *)
Theorem setTarget_inherited_name (count : nat) (g : Rng) :
  let s := ParticleSystem.setExpanded true (ParticleSystem.new count g) in
  ("toString"%string ∉ ["random"; "sphere"; "cube"; "saturn"]%string) /\
  ParticleSystem.templates s !! "toString"%string = None /\
  ParticleSystem.currentTarget s = "random"%string /\
  ParticleSystem.expanded s = true /\
  ParticleSystem.currentTarget (ParticleSystem.setTarget "toString" s) = "toString"%string /\
  ParticleSystem.expanded (ParticleSystem.setTarget "toString" s) = false.
Proof.
  intros s.
  assert (Hnot : "toString"%string ∉ ["random"; "sphere"; "cube"; "saturn"]%string).
  { rewrite !not_elem_of_cons. repeat split; try discriminate. apply not_elem_of_nil. }
  assert (Hnone : ParticleSystem.templates s !! "toString"%string = None).
  { apply eq_None_not_Some. intros H. apply Hnot.
    apply (new_templates_names count g). exact H. }
  split; [exact Hnot|]. split; [exact Hnone|].
  assert (Hs : ParticleSystem.currentTarget s = "random"%string /\
               ParticleSystem.expanded s = true).
  { subst s. destruct (new_spec count g) as (? & ? & ? & ? & ? & ? & ? & _ & _ & ->).
    split; reflexivity. }
  destruct Hs as [Hc He]. split; [exact Hc|]. split; [exact He|].
  unfold ParticleSystem.setTarget, ParticleSystem.get_property.
  rewrite Hnone.
  rewrite bool_decide_eq_true_2.
  - split; reflexivity.
  - unfold ParticleSystem.Object_prototype. set_solver.
Qed.

(** * The per-frame step *)

(** The loop body reads and writes the scalars of particle [i] only, and
    computes [particleStep] on them. *)
Lemma updateParticle_step (s : ParticleSystem.t) (tp : list R)
    (repelPos : option Point) (attractPos : Point) (i : nat)
    (positions colors : list R) :
  (i * 3 + 2 < length positions)%nat ->
  (i * 3 < length colors)%nat ->
  let out := ParticleSystem.updateParticle s tp repelPos attractPos i (positions, colors) in
  let res := ParticleSystem.particleStep s repelPos attractPos
               (ParticleSystem.point tp i) (ParticleSystem.point positions i)
               (rd colors (i * 3)) in
  length (fst out) = length positions /\
  length (snd out) = length colors /\
  (forall j, j <> i ->
     ParticleSystem.point (fst out) j = ParticleSystem.point positions j /\
     rd (snd out) (j * 3) = rd colors (j * 3)) /\
  ParticleSystem.point (fst out) i = fst res /\
  rd (snd out) (i * 3) = snd res.
Proof.
  intros Hp Hc out res. subst out res.
  unfold ParticleSystem.updateParticle, ParticleSystem.particleStep,
    ParticleSystem.aim, ParticleSystem.ease, ParticleSystem.sqDist,
    ParticleSystem.minus, ParticleSystem.point.
  destruct (ParticleSystem.expanded s), (ParticleSystem.isWaving s),
    (ParticleSystem.attracted s), repelPos as [c|];
    cbn [negb x y z fst snd]; rd_simpl; cbn [x y z];
    repeat match goal with
           | |- context [Rltb ?a ?b] => destruct (Rltb a b)
           | |- context [Rgtb ?a ?b] => destruct (Rgtb a b)
           end;
    cbn [fst snd]; rewrite ?length_insert;
    (split; [reflexivity|]); (split; [reflexivity|]);
    (split; [intros j Hj; rd_simpl; split; reflexivity|]);
    rd_simpl; split; reflexivity.
Qed.

(** The loop of [update]: every particle gets [particleStep] applied to its
    own scalars as they were before the loop. *)
Lemma update_loop (s : ParticleSystem.t) (tp : list R)
    (repelPos : option Point) (attractPos : Point) (n : nat)
    (positions colors : list R) :
  length positions = (n * 3)%nat ->
  length colors = (n * 3)%nat ->
  let out := for_range 0 n
               (ParticleSystem.updateParticle s tp repelPos attractPos)
               (positions, colors) in
  length (fst out) = (n * 3)%nat /\
  length (snd out) = (n * 3)%nat /\
  forall j, (j < n)%nat ->
    ParticleSystem.point (fst out) j
    = fst (ParticleSystem.particleStep s repelPos attractPos
             (ParticleSystem.point tp j) (ParticleSystem.point positions j)
             (rd colors (j * 3))) /\
    rd (snd out) (j * 3)
    = snd (ParticleSystem.particleStep s repelPos attractPos
             (ParticleSystem.point tp j) (ParticleSystem.point positions j)
             (rd colors (j * 3))).
Proof.
  intros Hp Hc out. subst out.
  pose (step := fun j =>
    ParticleSystem.particleStep s repelPos attractPos
      (ParticleSystem.point tp j) (ParticleSystem.point positions j)
      (rd colors (j * 3))).
  assert (H : let out := for_range 0 n
                 (ParticleSystem.updateParticle s tp repelPos attractPos)
                 (positions, colors) in
              length (fst out) = (n * 3)%nat /\
              length (snd out) = (n * 3)%nat /\
              forall j,
                ((j < n)%nat ->
                 ParticleSystem.point (fst out) j = fst (step j) /\
                 rd (snd out) (j * 3) = snd (step j)) /\
                ((n <= j)%nat ->
                 ParticleSystem.point (fst out) j = ParticleSystem.point positions j /\
                 rd (snd out) (j * 3) = rd colors (j * 3))).
  { apply (for_range_ind
             (fun k st =>
                length (fst st) = (n * 3)%nat /\
                length (snd st) = (n * 3)%nat /\
                forall j,
                  ((j < k)%nat ->
                   ParticleSystem.point (fst st) j = fst (step j) /\
                   rd (snd st) (j * 3) = snd (step j)) /\
                  ((k <= j)%nat ->
                   ParticleSystem.point (fst st) j = ParticleSystem.point positions j /\
                   rd (snd st) (j * 3) = rd colors (j * 3)))); [lia| |].
    - cbn [fst snd]. split; [exact Hp|]. split; [exact Hc|].
      intros j. split; [lia|]. intros _. split; reflexivity.
    - intros i [P C] Hi (HlP & HlC & Hinv). cbn [fst snd] in *.
      destruct (updateParticle_step s tp repelPos attractPos i P C)
        as (HP' & HC' & Hfr & Hpt & Hrd); [lia|lia|].
      split; [congruence|]. split; [congruence|].
      intros j. split.
      + intros Hj. destruct (decide (j = i)) as [->|Hne].
        * rewrite Hpt, Hrd.
          destruct (Hinv i) as [_ Hsame]. destruct (Hsame ltac:(lia)) as [-> ->].
          split; reflexivity.
        * destruct (Hfr j Hne) as [-> ->]. apply Hinv. lia.
      + intros Hj. destruct (Hfr j ltac:(lia)) as [-> ->]. apply Hinv. lia. }
  destruct H as (H1 & H2 & H3). split; [exact H1|]. split; [exact H2|].
  intros j Hj. apply H3. exact Hj.
Qed.

Lemma targetBuffer_wf (s : ParticleSystem.t) (b : list R) :
  ParticleSystem.templates s !! ParticleSystem.currentTarget s = Some b ->
  ParticleSystem.targetBuffer s = b.
Proof.
  intros H. unfold ParticleSystem.targetBuffer, ParticleSystem.get_property.
  rewrite H. reflexivity.
Qed.

Lemma advanceWave_fields (s : ParticleSystem.t) :
  ParticleSystem.count (ParticleSystem.advanceWave s) = ParticleSystem.count s /\
  ParticleSystem.positions (ParticleSystem.advanceWave s) = ParticleSystem.positions s /\
  ParticleSystem.aColor (ParticleSystem.advanceWave s) = ParticleSystem.aColor s /\
  ParticleSystem.expanded (ParticleSystem.advanceWave s) = ParticleSystem.expanded s /\
  ParticleSystem.attracted (ParticleSystem.advanceWave s) = ParticleSystem.attracted s /\
  ParticleSystem.isWaving (ParticleSystem.advanceWave s) = ParticleSystem.isWaving s.
Proof.
  unfold ParticleSystem.advanceWave.
  destruct (ParticleSystem.isWaving s) eqn:E; cbn; rewrite ?E; repeat split.
Qed.

(** [update], particle by particle. *)
Lemma update_particle_wise (time : R) (handData : option HandData)
    (s : ParticleSystem.t) (i : nat) :
  ParticleSystem.wf s -> (i < ParticleSystem.count s)%nat ->
  ParticleSystem.pos (ParticleSystem.update time handData s) i
  = fst (ParticleSystem.particleStep (ParticleSystem.advanceWave s)
           (ParticleSystem.cursor handData)
           (default (mkPoint 0 0 0) (ParticleSystem.cursor handData))
           (ParticleSystem.point (ParticleSystem.targetBuffer s) i)
           (ParticleSystem.pos s i) (ParticleSystem.red s i)) /\
  ParticleSystem.red (ParticleSystem.update time handData s) i
  = snd (ParticleSystem.particleStep (ParticleSystem.advanceWave s)
           (ParticleSystem.cursor handData)
           (default (mkPoint 0 0 0) (ParticleSystem.cursor handData))
           (ParticleSystem.point (ParticleSystem.targetBuffer s) i)
           (ParticleSystem.pos s i) (ParticleSystem.red s i)).
Proof.
  intros [Hp Hc _ _] Hi.
  destruct (advanceWave_fields s) as (Ec & Ep & Ea & _).
  unfold ParticleSystem.update, ParticleSystem.pos, ParticleSystem.red.
  rewrite Ec, Ep, Ea.
  destruct (update_loop (ParticleSystem.advanceWave s) (ParticleSystem.targetBuffer s)
              (ParticleSystem.cursor handData)
              (default (mkPoint 0 0 0) (ParticleSystem.cursor handData))
              (ParticleSystem.count s) (ParticleSystem.positions s)
              (ParticleSystem.aColor s) Hp Hc) as (_ & _ & H).
  specialize (H i Hi).
  destruct (for_range _ _ _ _) as [positions' colors'].
  cbn [fst snd ParticleSystem.positions ParticleSystem.aColor] in *.
  exact H.
Qed.

(** [update] keeps the engine well formed. *)
Lemma update_wf (time : R) (handData : option HandData) (s : ParticleSystem.t) :
  ParticleSystem.wf s -> ParticleSystem.wf (ParticleSystem.update time handData s).
Proof.
  intros [Hp Hc Hb Ht].
  destruct (advanceWave_fields s) as (Ec & Ep & Ea & _).
  destruct (update_fields time handData s) as (Fc & Ft & Fn & _).
  destruct (update_loop (ParticleSystem.advanceWave s) (ParticleSystem.targetBuffer s)
              (ParticleSystem.cursor handData)
              (default (mkPoint 0 0 0) (ParticleSystem.cursor handData))
              (ParticleSystem.count s) (ParticleSystem.positions s)
              (ParticleSystem.aColor s) Hp Hc) as (H1 & H2 & _).
  split.
  - rewrite Fc. unfold ParticleSystem.update. rewrite Ec, Ep, Ea.
    destruct (for_range _ _ _ _) as [positions' colors']. exact H1.
  - rewrite Fc. unfold ParticleSystem.update. rewrite Ec, Ep, Ea.
    destruct (for_range _ _ _ _) as [positions' colors']. exact H2.
  - rewrite Fc, Ft. exact Hb.
  - rewrite Ft, Fn. exact Ht.
Qed.


(** Without a cursor, or under attraction: integration only. *)
Lemma update_no_repel (time : R) (handData : option HandData)
    (s : ParticleSystem.t) (i : nat) :
  ParticleSystem.wf s -> (i < ParticleSystem.count s)%nat ->
  ParticleSystem.cursor handData = None \/ ParticleSystem.attracted s = true ->
  ParticleSystem.pos (ParticleSystem.update time handData s) i
  = ParticleSystem.integrated handData s i /\
  ParticleSystem.red (ParticleSystem.update time handData s) i
  = ParticleSystem.red s i.
Proof.
  intros Hwf Hi Hcase.
  destruct (update_particle_wise time handData s i Hwf Hi) as [-> ->].
  destruct (advanceWave_fields s) as (_ & _ & _ & _ & Ea & _).
  unfold ParticleSystem.integrated, ParticleSystem.particleStep.
  destruct Hcase as [Hc|Ha].
  - rewrite Hc. split; reflexivity.
  - rewrite Ea, Ha. destruct (ParticleSystem.cursor handData); split; reflexivity.
Qed.



Lemma hotParticle_wf : ParticleSystem.wf hotParticle.
Proof.
  split; [reflexivity|reflexivity| |].
  - unfold hotParticle. cbn [ParticleSystem.templates ParticleSystem.count].
    intros name b H.
    repeat (apply lookup_insert_Some in H; destruct H as [[_ <-]|[_ H]];
            [reflexivity|]).
    rewrite lookup_empty in H. discriminate H.
  - exists [0.5; 0; 0].
    unfold hotParticle. cbn [ParticleSystem.templates ParticleSystem.currentTarget].
    by simplify_map_eq.
Qed.









(** * Well-formedness along a run *)

Lemma initParticle_lengths (a b : nat) (st : list R * list R * list R * Rng) :
  (a <= b)%nat ->
  length (fst (fst (fst (for_range a b ParticleSystem.initParticle st))))
    = length (fst (fst (fst st))) /\
  length (snd (fst (for_range a b ParticleSystem.initParticle st)))
    = length (snd (fst st)).
Proof.
  intros Hab.
  apply (for_range_ind
           (fun _ st' =>
              length (fst (fst (fst st'))) = length (fst (fst (fst st))) /\
              length (snd (fst st')) = length (snd (fst st))));
    [exact Hab|split; reflexivity|].
  intros i [[[positions scales] colors] g] _ [H1 H2]. cbn in *.
  rewrite !length_insert. split; assumption.
Qed.

(** The constructor builds a well-formed engine. *)
Lemma new_wf (count : nat) (g : Rng) : ParticleSystem.wf (ParticleSystem.new count g).
Proof.
  destruct (new_spec count g)
    as (positions & scales & colors & g1 & tpl & targets & g2 & Hinit & Hgen & ->).
  destruct (generateTemplates_spec count g1)
    as (random & sphere & cube & saturn & g' & Hg & H1 & H2 & H3 & H4 & _).
  rewrite Hg in Hgen. injection Hgen as <- <- <-.
  unfold ParticleSystem.initParticles in Hinit.
  destruct (initParticle_lengths 0 count
              (Float32Array (count * 3), Float32Array count,
               Float32Array (count * 3), g)) as [Lp Lc]; [lia|].
  destruct (for_range 0 count ParticleSystem.initParticle _)
    as [[[positions0 scales0] colors0] g0].
  injection Hinit as <- <- <- <-. cbn [fst snd] in Lp, Lc.
  rewrite length_Float32Array in Lp, Lc.
  split; cbn [ParticleSystem.positions ParticleSystem.aColor ParticleSystem.count
              ParticleSystem.templates ParticleSystem.currentTarget].
  - exact Lp.
  - exact Lc.
  - intros name b H.
    repeat (apply lookup_insert_Some in H; destruct H as [[_ <-]|[_ H]];
            [assumption|]).
    rewrite lookup_empty in H. discriminate H.
  - exists random. by simplify_map_eq.
Qed.

(** Every call keeps the engine well formed, [setTarget] with an inherited
    name apart. *)
Lemma step_wf (s : ParticleSystem.t) (c : ParticleSystem.Call) :
  ParticleSystem.plainCall c -> ParticleSystem.wf s ->
  ParticleSystem.wf (ParticleSystem.step s c).
Proof.
  intros Hc Hwf.
  destruct c as [name|[]|[]| |time handData|]; cbn [ParticleSystem.step];
    try (destruct Hwf; split; assumption).
  - cbn in Hc. unfold ParticleSystem.setTarget, ParticleSystem.get_property.
    destruct (ParticleSystem.templates s !! name) as [b|] eqn:E.
    + destruct Hwf as [Hp Hcol Hb _]. split; cbn; try assumption.
      rewrite E. eexists; reflexivity.
    + rewrite bool_decide_eq_false_2 by exact Hc. exact Hwf.
  - apply update_wf. exact Hwf.
  - unfold ParticleSystem.timeout.
    destruct (ParticleSystem.timers s); [exact Hwf|].
    destruct Hwf; split; assumption.
Qed.

Lemma run_wf (cs : list ParticleSystem.Call) (s : ParticleSystem.t) :
  Forall ParticleSystem.plainCall cs -> ParticleSystem.wf s ->
  ParticleSystem.wf (ParticleSystem.run s cs).
Proof.
  revert s. induction cs as [|c cs IH]; intros s Hcs Hs; [exact Hs|].
  inversion Hcs; subst. cbn. apply IH; [assumption|].
  apply step_wf; assumption.
Qed.

(** The end-to-end scenario of the specification, in part: a fresh engine,
    [setTarget("cube")], then frames without a hand leave the glow at 0. *)
Example glow_stays_zero (count : nat) (g : Rng) (n : nat) :
  ParticleSystem.uGlow
    (ParticleSystem.run (ParticleSystem.new count g)
       (ParticleSystem.call_setTarget "cube"
        :: replicate n (ParticleSystem.call_update 0 None))) = 0.
Proof.
  cbn [ParticleSystem.run fold_left ParticleSystem.step].
  assert (H0 : ParticleSystem.uGlow
                 (ParticleSystem.setTarget "cube" (ParticleSystem.new count g)) = 0).
  { unfold ParticleSystem.setTarget.
    destruct (ParticleSystem.get_property _ _); cbn;
      destruct (new_spec count g) as (? & ? & ? & ? & ? & ? & ? & _ & _ & ->);
      reflexivity. }
  revert H0. generalize (ParticleSystem.setTarget "cube" (ParticleSystem.new count g)).
  induction n as [|n IH]; intros s Hs; [exact Hs|].
  cbn [replicate fold_left ParticleSystem.step]. apply IH.
  destruct (update_fields 0 None s) as (_ & _ & _ & _ & _ & _ & ->).
  rewrite Hs. cbn. lra.
Qed.

(** * Hand signal extractor: the signal, short input, polling *)

(** With at least 21 landmarks the classifier returns. *)
Lemma detectGesture_returns (landmarks : list Point) :
  (21 <= length landmarks)%nat ->
  exists g, HandTracker.detectGesture landmarks = Normal g.
Proof.
  intros H.
  do 21 (destruct landmarks as [|? landmarks]; [cbn in H; lia|]).
  unfold HandTracker.detectGesture, HandTracker.isExtended; cbn.
  repeat match goal with |- context [if ?b then _ else _] => destruct b end;
    eauto.
Qed.

(** With fewer it throws: landmark 20 at the latest is missing. *)
Lemma detectGesture_short (landmarks : list Point) :
  (length landmarks < 21)%nat ->
  HandTracker.detectGesture landmarks = TypeError.
Proof.
  intros H.
  do 21 (destruct landmarks as [|? landmarks]; [reflexivity|]).
  cbn in H. lia.
Qed.

(** X1. The classifier throws exactly on landmark lists shorter than 21;
    landmarks beyond the 21st are never read. *)
Theorem detectGesture_throws_iff (landmarks : list Point) :
  (HandTracker.detectGesture landmarks = TypeError <-> (length landmarks < 21)%nat) /\
  HandTracker.detectGesture (take 21 landmarks) = HandTracker.detectGesture landmarks.
Proof.
  split; [split|].
  - intros E. destruct (Nat.lt_ge_cases (length landmarks) 21) as [Hlt|Hge];
      [exact Hlt|].
    destruct (detectGesture_returns landmarks Hge) as [g Hg].
    rewrite Hg in E. discriminate E.
  - apply detectGesture_short.
  - do 21 (destruct landmarks as [|? landmarks]; [reflexivity|]).
    reflexivity.
Qed.

(** The whole signal of a frame with a hand and 21 landmarks. *)
Lemma getData_signal (h : HandTracker.t) (landmarks : list Point) :
  HandTracker.present h landmarks ->
  length landmarks = 21%nat ->
  exists g,
    HandTracker.detectGesture landmarks = Normal g /\
    HandTracker.getData h =
      (Normal (Some
         {| position :=
              Some (mkPoint ((x (landmarks !!! 8%nat) - 0.5) * 2)
                            ((0.5 - y (landmarks !!! 8%nat)) * 2) 0);
            proximity :=
              Rmin (Rmax ((sqrt ((x (landmarks !!! 0%nat) - x (landmarks !!! 9%nat))
                                 * (x (landmarks !!! 0%nat) - x (landmarks !!! 9%nat))
                                 + (y (landmarks !!! 0%nat) - y (landmarks !!! 9%nat))
                                   * (y (landmarks !!! 0%nat) - y (landmarks !!! 9%nat)))
                           - 0.1) * 3.0) 0) 1;
            gesture := g;
            swipe :=
              match HandTracker.lastPalmX h with
              | Some last =>
                if Rgtb (Rabs (x (landmarks !!! 9%nat) - last)) 0.03 then
                  if Rgtb (x (landmarks !!! 9%nat) - last) 0 then left else right
                else none
              | None => none
              end;
            raw := landmarks |}),
       {| HandTracker.results := HandTracker.results h;
          HandTracker.lastPalmX := Some (x (landmarks !!! 9%nat)) |}).
Proof.
  intros (r & rest & Hr & Hm) Hlen.
  destruct (detectGesture_total landmarks Hlen) as [g Hg].
  exists g. split; [exact Hg|].
  unfold HandTracker.getData. rewrite Hr, Hm.
  spell_out landmarks Hlen. cbn [HandTracker.get lookup list_lookup bind].
  rewrite Hg. cbn [bind]. reflexivity.
Qed.

(** X2. A hand with a landmark list shorter than 21 makes [getData]
    throw, and the throw leaves the tracker, swipe history included, as it
    was. *)
Theorem getData_short (h : HandTracker.t) (landmarks : list Point) :
  HandTracker.present h landmarks ->
  (length landmarks < 21)%nat ->
  HandTracker.getData h = (TypeError, h).
Proof.
  intros (r & rest & Hr & Hm) Hlen.
  pose proof (detectGesture_short landmarks Hlen) as Hg.
  unfold HandTracker.getData. rewrite Hr, Hm.
  destruct (HandTracker.get landmarks 8); [|reflexivity].
  destruct (HandTracker.get landmarks 0); [|reflexivity].
  destruct (HandTracker.get landmarks 9); [|reflexivity].
  cbn [bind]. rewrite Hg. reflexivity.
Qed.

(** A hand of three landmarks, after a frame that left 0.5 in the history. *)
Lemma getData_short_witness :
  HandTracker.lastPalmX
    (snd (HandTracker.getData
            {| HandTracker.results :=
                 HandTracker.frame (replicate 3 (mkPoint 0.5 0.5 0));
               HandTracker.lastPalmX := Some 0.5 |})) = Some 0.5.
Proof.
  rewrite (getData_short
             {| HandTracker.results :=
                  HandTracker.frame (replicate 3 (mkPoint 0.5 0.5 0));
                HandTracker.lastPalmX := Some 0.5 |}
             (replicate 3 (mkPoint 0.5 0.5 0))).
  - reflexivity.
  - eexists. exists []. split; reflexivity.
  - cbn. lia.
Defined.

(** X3. In a frame with a hand (21 landmarks) whose index finger tip has
    its planar coordinates in [0, 1], the cursor is
    [((x - 0.5) * 2, (0.5 - y) * 2, 0)]: both coordinates lie in [-1, 1],
    the depth is 0 and the vertical axis is flipped. *)
Theorem getData_cursor (h : HandTracker.t) (landmarks : list Point) :
  HandTracker.present h landmarks ->
  length landmarks = 21%nat ->
  0 <= x (landmarks !!! 8%nat) <= 1 ->
  0 <= y (landmarks !!! 8%nat) <= 1 ->
  exists data c,
    fst (HandTracker.getData h) = Normal (Some data) /\
    position data = Some c /\
    x c = (x (landmarks !!! 8%nat) - 0.5) * 2 /\
    y c = (0.5 - y (landmarks !!! 8%nat)) * 2 /\
    z c = 0 /\
    -1 <= x c <= 1 /\ -1 <= y c <= 1 /\
    raw data = landmarks.
Proof.
  intros Hp Hlen Hx Hy.
  destruct (getData_signal h landmarks Hp Hlen) as (g & _ & ->).
  eexists. eexists. cbn [fst position raw x y z].
  split; [reflexivity|]. split; [reflexivity|].
  cbn [x y z]. repeat split; try reflexivity; lra.
Qed.

(** The index finger tip in the top left corner of the image. *)
Lemma getData_cursor_witness :
  exists data c,
    fst (HandTracker.getData
           {| HandTracker.results := HandTracker.frame (replicate 21 (mkPoint 0 0 0));
              HandTracker.lastPalmX := None |}) = Normal (Some data) /\
    position data = Some c /\ x c = (0 - 0.5) * 2 /\ y c = (0.5 - 0) * 2.
Proof.
  destruct (getData_cursor
              {| HandTracker.results := HandTracker.frame (replicate 21 (mkPoint 0 0 0));
                 HandTracker.lastPalmX := None |}
              (replicate 21 (mkPoint 0 0 0)))
    as (data & c & Hd & Hc & Hx & Hy & _).
  - eexists. exists []. split; reflexivity.
  - reflexivity.
  - cbn. lra.
  - cbn. lra.
  - exists data, c. repeat split; assumption.
Defined.

(** X4. In a frame with a hand (21 landmarks) the proximity lies in
    [0, 1]; it is 0 when wrist and middle finger base are at most 0.09
    apart in the plane, and 1 when they are at least 0.45 apart. *)
Theorem getData_proximity (h : HandTracker.t) (landmarks : list Point) :
  HandTracker.present h landmarks ->
  length landmarks = 21%nat ->
  exists data,
    fst (HandTracker.getData h) = Normal (Some data) /\
    0 <= proximity data <= 1 /\
    (planarDist (landmarks !!! 0%nat) (landmarks !!! 9%nat) <= 0.09 ->
     proximity data = 0) /\
    (planarDist (landmarks !!! 0%nat) (landmarks !!! 9%nat) >= 0.45 ->
     proximity data = 1).
Proof.
  intros Hp Hlen.
  destruct (getData_signal h landmarks Hp Hlen) as (g & _ & ->).
  eexists. cbn [fst]. split; [reflexivity|]. cbn [proximity].
  unfold planarDist, sqPlanarDist.
  set (d := sqrt _).
  split; [|split].
  - unfold Rmin, Rmax.
    destruct (Rle_dec ((d - 0.1) * 3.0) 0); destruct (Rle_dec _ 1); lra.
  - intros Hd. unfold Rmin, Rmax.
    destruct (Rle_dec ((d - 0.1) * 3.0) 0); destruct (Rle_dec _ 1); lra.
  - intros Hd. unfold Rmin, Rmax.
    destruct (Rle_dec ((d - 0.1) * 3.0) 0); destruct (Rle_dec _ 1); lra.
Qed.

(** Every landmark on one spot: a palm of size 0. *)
Lemma getData_proximity_witness :
  exists data,
    fst (HandTracker.getData
           {| HandTracker.results := HandTracker.frame (replicate 21 (mkPoint 0.5 0.5 0));
              HandTracker.lastPalmX := None |}) = Normal (Some data) /\
    0 <= proximity data <= 1.
Proof.
  destruct (getData_proximity
              {| HandTracker.results := HandTracker.frame (replicate 21 (mkPoint 0.5 0.5 0));
                 HandTracker.lastPalmX := None |}
              (replicate 21 (mkPoint 0.5 0.5 0)))
    as (data & Hd & Hr & _).
  - eexists. exists []. split; reflexivity.
  - reflexivity.
  - exists data. split; assumption.
Defined.

(** X5. When [getData] is called twice on the same delivered frame (a hand
    with 21 landmarks), the second call returns the same cursor, proximity
    and gesture but never a swipe, whatever the first call returned, and
    leaves the tracker as the first call left it. *)
Theorem getData_twice (h : HandTracker.t) (landmarks : list Point) :
  HandTracker.present h landmarks ->
  length landmarks = 21%nat ->
  exists data1 data2 h1,
    HandTracker.getData h = (Normal (Some data1), h1) /\
    HandTracker.getData h1 = (Normal (Some data2), h1) /\
    swipe data2 = none /\
    position data2 = position data1 /\
    proximity data2 = proximity data1 /\
    gesture data2 = gesture data1.
Proof.
  intros Hp Hlen.
  destruct (getData_signal h landmarks Hp Hlen) as (g & Hg & Hget).
  assert (Hp1 : HandTracker.present
                  {| HandTracker.results := HandTracker.results h;
                     HandTracker.lastPalmX := Some (x (landmarks !!! 9%nat)) |}
                  landmarks) by exact Hp.
  destruct (getData_signal _ landmarks Hp1 Hlen) as (g' & Hg' & Hget').
  rewrite Hg in Hg'. injection Hg' as <-.
  cbn [HandTracker.results HandTracker.lastPalmX] in Hget'.
  eexists. eexists. eexists.
  split; [exact Hget|]. split; [exact Hget'|].
  cbn [swipe position proximity gesture].
  split; [|repeat split].
  assert (E : Rgtb (Rabs (x (landmarks !!! 9%nat) - x (landmarks !!! 9%nat))) 0.03
              = false).
  { apply Rgtb_false. rewrite Rminus_diag, Rabs_R0. lra. }
  rewrite E. reflexivity.
Qed.

(** The palm proxy at 0.56 after 0.50, asked twice. *)
Lemma getData_twice_witness :
  exists data1 data2 h1,
    HandTracker.getData
      {| HandTracker.results := HandTracker.frame (replicate 21 (mkPoint 0.56 0.5 0));
         HandTracker.lastPalmX := Some 0.5 |} = (Normal (Some data1), h1) /\
    HandTracker.getData h1 = (Normal (Some data2), h1) /\
    swipe data2 = none.
Proof.
  destruct (getData_twice
              {| HandTracker.results := HandTracker.frame (replicate 21 (mkPoint 0.56 0.5 0));
                 HandTracker.lastPalmX := Some 0.5 |}
              (replicate 21 (mkPoint 0.56 0.5 0)))
    as (data1 & data2 & h1 & H1 & H2 & Hs & _).
  - eexists. exists []. split; reflexivity.
  - reflexivity.
  - exists data1, data2, h1. repeat split; assumption.
Defined.

Lemma distSq_translate (v p q : Point) :
  HandTracker.distSq (mkPoint (x p + x v) (y p + y v) (z p + z v))
                     (mkPoint (x q + x v) (y q + y v) (z q + z v))
  = HandTracker.distSq p q.
Proof. unfold HandTracker.distSq. cbn [x y]. ring. Qed.

(** X6. The classifier does not depend on where the hand is: moving every
    landmark by the same vector leaves its result, a gesture or a throw,
    unchanged. *)
Theorem detectGesture_translate (v : Point) (landmarks : list Point) :
  HandTracker.detectGesture (translate v landmarks)
  = HandTracker.detectGesture landmarks.
Proof.
  unfold translate.
  do 21 (destruct landmarks as [|? landmarks]; [reflexivity|]).
  unfold HandTracker.detectGesture, HandTracker.isExtended.
  cbn [List.map HandTracker.get lookup list_lookup bind].
  rewrite !distSq_translate. reflexivity.
Qed.

(** X7. The classifier reads ten landmarks in the plane and nothing else:
    two lists of 21 landmarks that agree in x and y at the wrist, the thumb
    tip and the tips and PIP joints of the four other fingers get the same
    gesture, whatever their depths and their other landmarks. *)
Theorem detectGesture_reads (l1 l2 : list Point) :
  length l1 = 21%nat -> length l2 = 21%nat ->
  Forall (planarAgree l1 l2) gestureLandmarks ->
  HandTracker.detectGesture l1 = HandTracker.detectGesture l2.
Proof.
  intros H1 H2 H.
  spell_out l1 H1. spell_out l2 H2.
  unfold gestureLandmarks in H.
  repeat match type of H with
         | Forall _ (_ :: _) => apply Forall_cons in H; destruct H as [[? ?] H]
         end.
  cbn in *.
  unfold HandTracker.detectGesture, HandTracker.isExtended, HandTracker.distSq.
  cbn [HandTracker.get lookup list_lookup bind].
  repeat match goal with
         | E : x ?p = x ?q |- _ => rewrite E; clear E
         | E : y ?p = y ?q |- _ => rewrite E; clear E
         end.
  reflexivity.
Qed.

(** The open hand, pushed back in depth and with its thumb joints moved. *)
Lemma detectGesture_reads_witness :
  HandTracker.detectGesture
    (<[1%nat := mkPoint 0 0 0]>
       (List.map (fun p => mkPoint (x p) (y p) (z p + 1)) openHand))
  = HandTracker.detectGesture openHand.
Proof.
  apply detectGesture_reads; [reflexivity|reflexivity|].
  unfold gestureLandmarks, planarAgree, openHand.
  repeat constructor.
Defined.

(** * Initial buffers and templates under a fair random source *)

Lemma fairRng_draws (g g' : Rng) : draws g' = draws g -> fairRng g -> fairRng g'.
Proof. intros E H n. rewrite E. apply H. Qed.

(** The loop of [initParticles]: lengths are kept, the random source is
    only advanced, and every particle gets its values from fair draws. *)
Lemma initParticles_each (count : nat) (g : Rng) :
  fairRng g ->
  exists positions scales colors g1,
    ParticleSystem.initParticles count g
      = (positions, scales, colors, Float32Array (count * 3), g1) /\
    draws g1 = draws g /\
    length scales = count /\
    forall i, (i < count)%nat ->
      (-5 <= x (ParticleSystem.point positions i) <= 5 /\
       -5 <= y (ParticleSystem.point positions i) <= 5 /\
       -5 <= z (ParticleSystem.point positions i) <= 5) /\
      0 <= rd scales i <= 1 /\
      (0.2 <= x (ParticleSystem.point colors i) <= 0.5 /\
       0.4 <= y (ParticleSystem.point colors i) <= z (ParticleSystem.point colors i) /\
       0.8 <= z (ParticleSystem.point colors i) <= 1).
Proof.
  intros Hfair. unfold ParticleSystem.initParticles.
  pose (Q := fun (st : list R * list R * list R * Rng) (i : nat) =>
    let '(positions, scales, colors, _) := st in
    (-5 <= x (ParticleSystem.point positions i) <= 5 /\
     -5 <= y (ParticleSystem.point positions i) <= 5 /\
     -5 <= z (ParticleSystem.point positions i) <= 5) /\
    0 <= rd scales i <= 1 /\
    (0.2 <= x (ParticleSystem.point colors i) <= 0.5 /\
     0.4 <= y (ParticleSystem.point colors i) <= z (ParticleSystem.point colors i) /\
     0.8 <= z (ParticleSystem.point colors i) <= 1)).
  assert (H : let st := for_range 0 count ParticleSystem.initParticle
                          (Float32Array (count * 3), Float32Array count,
                           Float32Array (count * 3), g) in
              (length (fst (fst (fst st))) = (count * 3)%nat /\
               length (snd (fst (fst st))) = count /\
               length (snd (fst st)) = (count * 3)%nat /\
               draws (snd st) = draws g) /\
              forall j, (j < count)%nat -> Q st j).
  { apply (for_range_ind
             (fun k st =>
                (length (fst (fst (fst st))) = (count * 3)%nat /\
                 length (snd (fst (fst st))) = count /\
                 length (snd (fst st)) = (count * 3)%nat /\
                 draws (snd st) = draws g) /\
                forall j, (j < k)%nat -> Q st j)); [lia| |].
    - cbn [fst snd]. rewrite !length_Float32Array.
      split; [repeat split|]. intros j Hj. lia.
    - intros i [[[positions scales] colors] g'] Hi [(Lp & Ls & Lc & Hd) HQ].
      cbn [fst snd] in *.
      unfold ParticleSystem.initParticle, Math_random. cbn [fst snd draws next].
      split; [rewrite !length_insert; repeat split; assumption|].
      intros j Hj. destruct (decide (j = i)) as [->|Hne].
      + unfold Q, ParticleSystem.point. cbn [x y z]. rd_simpl.
        rewrite !Hd.
        repeat match goal with
               | |- context [draws g ?n] =>
                 lazymatch goal with
                 | _ : 0 <= draws g n < 1 |- _ => fail
                 | _ => pose proof (Hfair n)
                 end
               end.
        repeat split; lra.
      + specialize (HQ j ltac:(lia)). unfold Q, ParticleSystem.point in *.
        cbn [x y z] in *. rd_simpl. exact HQ. }
  destruct (for_range 0 count ParticleSystem.initParticle _)
    as [[[positions scales] colors] g1].
  cbn [fst snd] in H. destruct H as [(_ & Ls & _ & Hd) HQ].
  exists positions, scales, colors, g1.
  split; [reflexivity|]. split; [exact Hd|]. split; [exact Ls|].
  intros i Hi. exact (HQ i Hi).
Qed.

(** X8. When every draw of [Math.random] lies in [0, 1), the constructor
    leaves each particle with its three coordinates between -5 and 5, its
    scale between 0 and 1, and its colour in the palette: red between 0.2
    and 0.5, green at least 0.4 and at most the particle's blue, blue
    between 0.8 and 1, bounds included; the scale buffer has one entry per
    particle. *)
Theorem new_ranges (count : nat) (g : Rng) (i : nat) :
  fairRng g -> (i < count)%nat ->
  (-5 <= x (ParticleSystem.pos (ParticleSystem.new count g) i) <= 5 /\
   -5 <= y (ParticleSystem.pos (ParticleSystem.new count g) i) <= 5 /\
   -5 <= z (ParticleSystem.pos (ParticleSystem.new count g) i) <= 5) /\
  length (ParticleSystem.aScale (ParticleSystem.new count g)) = count /\
  0 <= rd (ParticleSystem.aScale (ParticleSystem.new count g)) i <= 1 /\
  0.2 <= rd (ParticleSystem.aColor (ParticleSystem.new count g)) (i * 3) <= 0.5 /\
  0.4 <= rd (ParticleSystem.aColor (ParticleSystem.new count g)) (i * 3 + 1)
    <= rd (ParticleSystem.aColor (ParticleSystem.new count g)) (i * 3 + 2) /\
  0.8 <= rd (ParticleSystem.aColor (ParticleSystem.new count g)) (i * 3 + 2) <= 1.
Proof.
  intros Hfair Hi.
  destruct (initParticles_each count g Hfair)
    as (positions & scales & colors & g1 & Hinit & _ & Ls & HQ).
  destruct (new_spec count g)
    as (positions' & scales' & colors' & g1' & tpl & targets & g2 & Hinit' & _ & ->).
  rewrite Hinit in Hinit'. injection Hinit' as <- <- <- <-.
  destruct (HQ i Hi) as (Hp & Hs & Hc).
  unfold ParticleSystem.pos.
  cbn [ParticleSystem.positions ParticleSystem.aScale ParticleSystem.aColor].
  split; [exact Hp|]. split; [exact Ls|]. split; [exact Hs|]. exact Hc.
Qed.

(** Three particles, every draw 0.25. *)
Lemma new_ranges_witness :
  0.2 <= rd (ParticleSystem.aColor (ParticleSystem.new 3 (mkRng (fun _ => 0.25) 0)))
            (2 * 3) <= 0.5.
Proof.
  refine (proj1 (proj2 (proj2 (proj2
            (new_ranges 3 (mkRng (fun _ => 0.25) 0) 2 _ _))))).
  - intros n. cbn. lra.
  - lia.
Defined.

Section FairWriters.

(** A loop body that writes point [i] with values computed from draws and
    only advances the random source. *)
Variable body : nat -> list R * Rng -> list R * Rng.
Hypothesis body_length :
  forall i st, length (fst (body i st)) = length (fst st).
Hypothesis body_frame :
  forall i j st, i <> j ->
    ParticleSystem.point (fst (body i st)) j = ParticleSystem.point (fst st) j.
Hypothesis body_draws :
  forall i st, draws (snd (body i st)) = draws (snd st).

Lemma for_range_fair (Q : Point -> Prop) (a b : nat) (st : list R * Rng) :
  (a <= b)%nat ->
  (forall i st', (a <= i < b)%nat -> length (fst st') = length (fst st) ->
     draws (snd st') = draws (snd st) ->
     Q (ParticleSystem.point (fst (body i st')) i)) ->
  draws (snd (for_range a b body st)) = draws (snd st) /\
  forall j, (a <= j < b)%nat ->
    Q (ParticleSystem.point (fst (for_range a b body st)) j).
Proof.
  intros Hab Hown.
  assert (H : (length (fst (for_range a b body st)) = length (fst st) /\
               draws (snd (for_range a b body st)) = draws (snd st)) /\
              forall j, (a <= j < b)%nat ->
                Q (ParticleSystem.point (fst (for_range a b body st)) j)).
  { apply (for_range_ind
             (fun k st' =>
                (length (fst st') = length (fst st) /\
                 draws (snd st') = draws (snd st)) /\
                forall j, (a <= j < k)%nat -> Q (ParticleSystem.point (fst st') j)));
      [exact Hab| |].
    - split; [split; reflexivity|]. intros j Hj. lia.
    - intros i st' Hi [[Hlen Hd] HQ]. split.
      + rewrite body_length, body_draws. split; assumption.
      + intros j Hj. destruct (decide (j = i)) as [->|Hne].
        * apply Hown; assumption.
        * rewrite body_frame by congruence. apply HQ. lia. }
  destruct H as [[_ Hd] HQ]. split; assumption.
Qed.

End FairWriters.

Lemma spherePoint_draws (r : R) (i : nat) (st : list R * Rng) :
  draws (snd (ParticleSystem.spherePoint r i st)) = draws (snd st).
Proof. destruct st as [buf g]. reflexivity. Qed.

Lemma cubePoint_draws (i : nat) (st : list R * Rng) :
  draws (snd (ParticleSystem.cubePoint i st)) = draws (snd st).
Proof. destruct st as [buf g]. reflexivity. Qed.

Lemma ringPoint_draws (i : nat) (st : list R * Rng) :
  draws (snd (ParticleSystem.ringPoint i st)) = draws (snd st).
Proof. destruct st as [buf g]. reflexivity. Qed.

Lemma cubePoint_frame (i j : nat) (st : list R * Rng) :
  i <> j ->
  ParticleSystem.point (fst (ParticleSystem.cubePoint i st)) j
  = ParticleSystem.point (fst st) j.
Proof.
  intros Hij. destruct st as [buf g]. cbn.
  unfold ParticleSystem.point. rd_simpl. reflexivity.
Qed.

(** The scalar loop of the random template. *)
Lemma randomScalar_loop (n : nat) (st : list R * Rng) :
  fairRng (snd st) -> length (fst st) = n ->
  draws (snd (for_range 0 n ParticleSystem.randomScalar st)) = draws (snd st) /\
  forall k, (k < n)%nat ->
    -6 <= rd (fst (for_range 0 n ParticleSystem.randomScalar st)) k <= 6.
Proof.
  intros Hfair Hlen.
  assert (H : (length (fst (for_range 0 n ParticleSystem.randomScalar st)) = n /\
               draws (snd (for_range 0 n ParticleSystem.randomScalar st))
               = draws (snd st)) /\
              forall k, (k < n)%nat ->
                -6 <= rd (fst (for_range 0 n ParticleSystem.randomScalar st)) k <= 6).
  { apply (for_range_ind
             (fun m st' =>
                (length (fst st') = n /\ draws (snd st') = draws (snd st)) /\
                forall k, (k < m)%nat -> -6 <= rd (fst st') k <= 6)); [lia| |].
    - split; [split; [exact Hlen|reflexivity]|]. intros k Hk. lia.
    - intros i [buf g] Hi [[Hl Hd] HQ]. cbn [fst snd] in *.
      unfold ParticleSystem.randomScalar, Math_random. cbn [fst snd draws].
      split; [rewrite length_insert; split; assumption|].
      intros k Hk. destruct (decide (k = i)) as [->|Hne].
      + rd_simpl. rewrite Hd. pose proof (Hfair (next g)). lra.
      + rd_simpl. apply HQ. lia. }
  destruct H as [[_ Hd] HQ]. split; assumption.
Qed.

(** The point written by the cube body. *)
Lemma cubePoint_range (i : nat) (st : list R * Rng) :
  fairRng (snd st) -> (i * 3 + 2 < length (fst st))%nat ->
  -2.5 <= x (ParticleSystem.point (fst (ParticleSystem.cubePoint i st)) i) <= 2.5 /\
  -2.5 <= y (ParticleSystem.point (fst (ParticleSystem.cubePoint i st)) i) <= 2.5 /\
  -2.5 <= z (ParticleSystem.point (fst (ParticleSystem.cubePoint i st)) i) <= 2.5.
Proof.
  intros Hfair Hi. destruct st as [buf g]. cbn [fst snd] in *.
  unfold ParticleSystem.cubePoint, Math_random, ParticleSystem.point.
  cbn [fst snd draws next x y z]. rd_simpl.
  pose proof (Hfair (next g)). pose proof (Hfair (S (next g))).
  pose proof (Hfair (S (S (next g)))).
  repeat split; lra.
Qed.

(** The point written by the ring body: the tilt is a rotation, so the
    point keeps the distance [sqrt (r * r + y * y)] of the flat ring point,
    with [r] in [3.5, 7.5) and [y] in [-0.1, 0.1); the bounds leave room
    for the rounding of the stored coordinates. *)
Lemma ringPoint_norm (i : nat) (st : list R * Rng) :
  fairRng (snd st) -> (i * 3 + 2 < length (fst st))%nat ->
  3.49 <= ParticleSystem.norm
           (ParticleSystem.point (fst (ParticleSystem.ringPoint i st)) i) <= 7.51.
Proof.
  intros Hfair Hi. destruct st as [buf g]. cbn [fst snd] in *.
  unfold ParticleSystem.ringPoint, Math_random, ParticleSystem.point,
    ParticleSystem.norm.
  cbn [fst snd draws next x y z]. rd_simpl.
  pose proof (Hfair (S (next g))) as Hr.
  pose proof (Hfair (S (S (next g)))) as Hy.
  set (theta := draws g (next g) * PI * 2).
  set (r := 3.5 + draws g (S (next g)) * 4) in *.
  set (y0 := (draws g (S (S (next g))) - 0.5) * 0.2) in *.
  pose proof (sin2_cos2 theta) as Ht. pose proof (sin2_cos2 0.4) as Hc.
  unfold Rsqr in Ht, Hc.
  match goal with |- _ <= sqrt ?e <= _ =>
    replace e with
      (r * r * (cos theta * cos theta) * (sin 0.4 * sin 0.4 + cos 0.4 * cos 0.4)
       + y0 * y0 * (sin 0.4 * sin 0.4 + cos 0.4 * cos 0.4)
       + r * r * (sin theta * sin theta)) by ring
  end.
  rewrite Hc, !Rmult_1_r.
  replace (r * r * (cos theta * cos theta) + y0 * y0 + r * r * (sin theta * sin theta))
    with (r * r * (sin theta * sin theta + cos theta * cos theta) + y0 * y0) by ring.
  rewrite Ht, Rmult_1_r.
  assert (Hr' : 3.5 <= r < 7.5) by (subst r; lra).
  assert (Hy' : -0.1 <= y0 < 0.1) by (subst y0; lra).
  split.
  - apply sqrt_ge_of_sq; nra.
  - apply Rlt_le. apply sqrt_lt_of_sq; nra.
Qed.

(** The buffers of [generateTemplates] under a fair random source. *)
Lemma generateTemplates_ranges (count : nat) (g : Rng) :
  fairRng g ->
  exists random sphere cube saturn g',
    ParticleSystem.generateTemplates count g =
      (<["saturn"%string := saturn]>
         (<["cube"%string := cube]>
            (<["sphere"%string := sphere]>
               (<["random"%string := random]> ∅))), random, g') /\
    (forall k, (k < count * 3)%nat -> -6 <= rd random k <= 6) /\
    (forall i, (i < count)%nat ->
       -2.5 <= x (ParticleSystem.point cube i) <= 2.5 /\
       -2.5 <= y (ParticleSystem.point cube i) <= 2.5 /\
       -2.5 <= z (ParticleSystem.point cube i) <= 2.5) /\
    (forall i, (ParticleSystem.sphereCount count <= i < count)%nat ->
       3.49 <= ParticleSystem.norm (ParticleSystem.point saturn i) <= 7.51).
Proof.
  intros Hfair.
  pose proof (sphereCount_le count) as Hsc.
  unfold ParticleSystem.generateTemplates.
  destruct (randomScalar_loop (count * 3) (Float32Array (count * 3), g) Hfair
              (length_Float32Array _)) as [D1 Q1].
  destruct (for_range 0 (count * 3) ParticleSystem.randomScalar
              (Float32Array (count * 3), g)) as [random g1].
  cbn [fst snd] in D1, Q1.
  pose proof (for_range_fair _ (spherePoint_length 4) (spherePoint_frame 4)
                (spherePoint_draws 4) (fun _ => True) 0 count
                (Float32Array (count * 3), g1) ltac:(lia) (fun _ _ _ _ _ => I)) as [D2 _].
  destruct (for_range 0 count (ParticleSystem.spherePoint 4)
              (Float32Array (count * 3), g1)) as [sphere g2].
  cbn [fst snd] in D2.
  assert (F2 : fairRng g2) by (apply (fairRng_draws g); [congruence|exact Hfair]).
  destruct (for_range_fair _ cubePoint_length cubePoint_frame cubePoint_draws
              (fun p => -2.5 <= x p <= 2.5 /\ -2.5 <= y p <= 2.5 /\ -2.5 <= z p <= 2.5)
              0 count (Float32Array (count * 3), g2) ltac:(lia)) as [D3 Q3].
  { intros i st' Hi Hl Hd. apply cubePoint_range.
    - apply (fairRng_draws g2); assumption.
    - rewrite Hl. cbn [fst]. rewrite length_Float32Array. lia. }
  destruct (for_range 0 count ParticleSystem.cubePoint
              (Float32Array (count * 3), g2)) as [cube g3].
  cbn [fst snd] in D3, Q3.
  pose proof (for_range_fair _ (spherePoint_length 2.5) (spherePoint_frame 2.5)
                (spherePoint_draws 2.5) (fun _ => True)
                0 (ParticleSystem.sphereCount count)
                (Float32Array (count * 3), g3) ltac:(lia) (fun _ _ _ _ _ => I)) as [D4 _].
  pose proof (for_range_points _ (spherePoint_length 2.5) (spherePoint_frame 2.5)
                0 (ParticleSystem.sphereCount count)
                (Float32Array (count * 3), g3) ltac:(lia)) as [L4 _].
  destruct (for_range 0 (ParticleSystem.sphereCount count) (ParticleSystem.spherePoint 2.5)
              (Float32Array (count * 3), g3)) as [saturn0 g4].
  cbn [fst snd] in D4, L4. rewrite length_Float32Array in L4.
  assert (F4 : fairRng g4) by (apply (fairRng_draws g); [congruence|exact Hfair]).
  destruct (for_range_fair _ ringPoint_length ringPoint_frame ringPoint_draws
              (fun p => 3.49 <= ParticleSystem.norm p <= 7.51)
              (ParticleSystem.sphereCount count) count (saturn0, g4) Hsc)
    as [_ Q5].
  { intros i st' Hi Hl Hd. apply ringPoint_norm.
    - apply (fairRng_draws g4); assumption.
    - rewrite Hl. cbn [fst]. lia. }
  destruct (for_range (ParticleSystem.sphereCount count) count ParticleSystem.ringPoint
              (saturn0, g4)) as [saturn g5].
  cbn [fst] in Q5.
  exists random, sphere, cube, saturn, g5.
  split; [reflexivity|]. split; [exact Q1|]. split; [|exact Q5].
  intros i Hi. apply Q3. lia.
Qed.

Lemma new_templates_ranges (count : nat) (g : Rng) :
  fairRng g ->
  exists random sphere cube saturn,
    ParticleSystem.templates (ParticleSystem.new count g) =
      <["saturn"%string := saturn]>
        (<["cube"%string := cube]>
           (<["sphere"%string := sphere]>
              (<["random"%string := random]> ∅))) /\
    ParticleSystem.aTarget (ParticleSystem.new count g) = random /\
    (forall k, (k < count * 3)%nat -> -6 <= rd random k <= 6) /\
    (forall i, (i < count)%nat ->
       -2.5 <= x (ParticleSystem.point cube i) <= 2.5 /\
       -2.5 <= y (ParticleSystem.point cube i) <= 2.5 /\
       -2.5 <= z (ParticleSystem.point cube i) <= 2.5) /\
    (forall i, (ParticleSystem.sphereCount count <= i < count)%nat ->
       3.49 <= ParticleSystem.norm (ParticleSystem.point saturn i) <= 7.51).
Proof.
  intros Hfair.
  destruct (initParticles_each count g Hfair)
    as (positions & scales & colors & g1 & Hinit & Hd & _).
  destruct (new_spec count g)
    as (positions' & scales' & colors' & g1' & tpl & targets & g2 & Hinit' & Hgen & ->).
  rewrite Hinit in Hinit'. injection Hinit' as <- <- <- <-.
  destruct (generateTemplates_ranges count g1 (fairRng_draws g g1 Hd Hfair))
    as (random & sphere & cube & saturn & g' & Hg & H1 & H2 & H3).
  rewrite Hg in Hgen. injection Hgen as <- <- <-.
  exists random, sphere, cube, saturn.
  cbn [ParticleSystem.templates ParticleSystem.aTarget].
  split; [reflexivity|]. split; [reflexivity|].
  split; [exact H1|]. split; [exact H2|exact H3].
Qed.

(** X9. When every draw of [Math.random] lies in [0, 1), every scalar of
    the random template lies between -6 and 6, every coordinate of the cube
    template between -2.5 and 2.5, bounds included, and the target
    attribute is a copy of the random template. *)
Theorem templates_ranges (count : nat) (g : Rng) :
  fairRng g ->
  exists random cube,
    ParticleSystem.templates (ParticleSystem.new count g) !! "random"%string
      = Some random /\
    ParticleSystem.templates (ParticleSystem.new count g) !! "cube"%string
      = Some cube /\
    ParticleSystem.aTarget (ParticleSystem.new count g) = random /\
    (forall k, (k < count * 3)%nat -> -6 <= rd random k <= 6) /\
    (forall i, (i < count)%nat ->
       -2.5 <= x (ParticleSystem.point cube i) <= 2.5 /\
       -2.5 <= y (ParticleSystem.point cube i) <= 2.5 /\
       -2.5 <= z (ParticleSystem.point cube i) <= 2.5).
Proof.
  intros Hfair.
  destruct (new_templates_ranges count g Hfair)
    as (random & sphere & cube & saturn & -> & Ht & H1 & H2 & _).
  exists random, cube.
  split; [by simplify_map_eq|]. split; [by simplify_map_eq|].
  split; [exact Ht|]. split; [exact H1|exact H2].
Qed.

Lemma templates_ranges_witness :
  exists random,
    ParticleSystem.templates (ParticleSystem.new 2 (mkRng (fun _ => 0.25) 0))
      !! "random"%string = Some random /\
    -6 <= rd random 5 <= 6.
Proof.
  destruct (templates_ranges 2 (mkRng (fun _ => 0.25) 0))
    as (random & cube & Hr & _ & _ & H & _).
  - intros n. cbn. lra.
  - exists random. split; [exact Hr|]. apply H. lia.
Defined.

(** X10. When every draw of [Math.random] lies in [0, 1), every point of
    the saturn template from index [Math.floor(count * 0.4)] on lies at a
    distance from the origin between 3.49 and 7.51: the ring stays clear of
    the planet of radius 2.5. *)
Theorem saturn_ring (count : nat) (g : Rng) (i : nat) :
  fairRng g ->
  (ParticleSystem.sphereCount count <= i < count)%nat ->
  exists saturn,
    ParticleSystem.templates (ParticleSystem.new count g) !! "saturn"%string
      = Some saturn /\
    3.49 <= ParticleSystem.norm (ParticleSystem.point saturn i) <= 7.51.
Proof.
  intros Hfair Hi.
  destruct (new_templates_ranges count g Hfair)
    as (random & sphere & cube & saturn & -> & _ & _ & _ & H3).
  exists saturn. split; [by simplify_map_eq|]. apply H3. exact Hi.
Qed.

(** Five particles: points 2, 3 and 4 of saturn are on the ring. *)
Lemma saturn_ring_witness :
  exists saturn,
    ParticleSystem.templates (ParticleSystem.new 5 (mkRng (fun _ => 0.25) 0))
      !! "saturn"%string = Some saturn /\
    3.49 <= ParticleSystem.norm (ParticleSystem.point saturn 3) <= 7.51.
Proof.
  apply (saturn_ring 5 (mkRng (fun _ => 0.25) 0) 3).
  - intros n. cbn. lra.
  - rewrite sphereCount_div. cbn. lia.
Defined.

(** * The engine over many calls *)

Lemma update_more_fields (time : R) (handData : option HandData) (s : ParticleSystem.t) :
  ParticleSystem.aScale (ParticleSystem.update time handData s) = ParticleSystem.aScale s /\
  ParticleSystem.aTarget (ParticleSystem.update time handData s) = ParticleSystem.aTarget s /\
  ParticleSystem.timers (ParticleSystem.update time handData s) = ParticleSystem.timers s /\
  ParticleSystem.uTime (ParticleSystem.update time handData s) = time /\
  ParticleSystem.wavePhase (ParticleSystem.update time handData s)
    = (if ParticleSystem.isWaving s then ParticleSystem.wavePhase s + 0.1
       else ParticleSystem.wavePhase s).
Proof.
  unfold ParticleSystem.update.
  destruct (for_range _ _ _ _) as [positions' colors'].
  unfold ParticleSystem.advanceWave.
  destruct (ParticleSystem.isWaving s) eqn:E; cbn; rewrite ?E; repeat split.
Qed.

Lemma step_timers (s : ParticleSystem.t) (c : ParticleSystem.Call) :
  notTimeout c ->
  (ParticleSystem.timers s <= ParticleSystem.timers (ParticleSystem.step s c))%nat.
Proof.
  intros Hc.
  destruct c as [name|[]|[]| |time handData|]; cbn [ParticleSystem.step];
    try (cbn; lia).
  - unfold ParticleSystem.setTarget.
    destruct (ParticleSystem.get_property _ _); cbn; lia.
  - destruct (update_more_fields time handData s) as (_ & _ & -> & _). lia.
  - destruct Hc.
Qed.

Lemma run_timers (cs : list ParticleSystem.Call) (s : ParticleSystem.t) :
  Forall notTimeout cs ->
  (ParticleSystem.timers s <= ParticleSystem.timers (ParticleSystem.run s cs))%nat.
Proof.
  revert s. induction cs as [|c cs IH]; intros s Hcs; [cbn; lia|].
  inversion Hcs; subst. cbn.
  pose proof (step_timers s c ltac:(assumption)).
  specialize (IH (ParticleSystem.step s c) ltac:(assumption)).
  unfold ParticleSystem.run in IH. lia.
Qed.

(** X11. A wave restarted before the timer of an earlier [triggerWave]
    has run is cut short by that timer: after [triggerWave], any calls of
    the host, and [triggerWave] again, the engine is waving from phase 0,
    and the next timer callback to run stops the wave while a callback is
    still pending. *)
Theorem wave_ends_early (s : ParticleSystem.t) (cs : list ParticleSystem.Call) :
  Forall notTimeout cs ->
  let s1 := ParticleSystem.triggerWave
              (ParticleSystem.run (ParticleSystem.triggerWave s) cs) in
  ParticleSystem.isWaving s1 = true /\
  ParticleSystem.wavePhase s1 = 0 /\
  ParticleSystem.isWaving (ParticleSystem.timeout s1) = false /\
  (1 <= ParticleSystem.timers (ParticleSystem.timeout s1))%nat.
Proof.
  intros Hcs s1.
  pose proof (run_timers cs (ParticleSystem.triggerWave s) Hcs) as Ht.
  cbn [ParticleSystem.triggerWave ParticleSystem.set_wave ParticleSystem.timers] in Ht.
  subst s1. unfold ParticleSystem.timeout.
  cbn [ParticleSystem.triggerWave ParticleSystem.set_wave ParticleSystem.timers
       ParticleSystem.isWaving ParticleSystem.wavePhase].
  repeat split. lia.
Qed.

(** Two swipes one frame apart. *)
Lemma wave_ends_early_witness :
  ParticleSystem.isWaving
    (ParticleSystem.timeout
       (ParticleSystem.triggerWave
          (ParticleSystem.run (ParticleSystem.triggerWave hotParticle)
             [ParticleSystem.call_update 0 None]))) = false.
Proof.
  refine (proj1 (proj2 (proj2
            (wave_ends_early hotParticle [ParticleSystem.call_update 0 None] _)))).
  repeat constructor.
Defined.

Lemma run_app (s : ParticleSystem.t) (cs1 cs2 : list ParticleSystem.Call) :
  ParticleSystem.run s (cs1 ++ cs2)
  = ParticleSystem.run (ParticleSystem.run s cs1) cs2.
Proof. unfold ParticleSystem.run. apply fold_left_app. Qed.

(** A value a fraction [c] of the way back from [b] to [a] lies between
    them. *)
Lemma between_convex (a b v c : R) :
  0 <= c <= 1 -> v - b = c * (a - b) -> between a b v.
Proof.
  intros Hc Hv. unfold between, Rmin, Rmax.
  destruct (Rle_dec a b); nra.
Qed.

Lemma between_closer (a b v : R) : between a b v -> Rabs (v - b) <= Rabs (a - b).
Proof.
  unfold between, Rmin, Rmax. intros H.
  destruct (Rle_dec a b).
  - rewrite !Rabs_left1 by lra. lra.
  - rewrite !Rabs_pos_eq by lra. lra.
Qed.

Lemma pow_unit (c : R) (n : nat) : 0 <= c <= 1 -> 0 <= c ^ n <= 1.
Proof.
  intros Hc. split; [apply pow_le; lra|].
  rewrite <- (pow1 n). apply pow_incr. lra.
Qed.

(** Over [n] consecutive [update] calls whose hand signals all give the
    same glow target [p], what separates the glow from [p] is multiplied
    by [0.9 ^ n]. *)
Lemma glow_geometric (p : R) (s : ParticleSystem.t) (cs : list ParticleSystem.Call) :
  Forall (updateWith (fun h => ParticleSystem.targetGlowOf h = p)) cs ->
  ParticleSystem.uGlow (ParticleSystem.run s cs) - p
  = 0.9 ^ length cs * (ParticleSystem.uGlow s - p).
Proof.
  revert s. induction cs as [|c cs IH]; intros s Hcs.
  - cbn. lra.
  - inversion Hcs as [|c' cs' Hc Hcs']; subst.
    destruct c as [| | | |time handData|]; try (exfalso; exact Hc).
    cbn [ParticleSystem.run fold_left ParticleSystem.step].
    pose proof (IH (ParticleSystem.update time handData s) Hcs') as H.
    unfold ParticleSystem.run in H. rewrite H.
    destruct (update_fields time handData s) as (_ & _ & _ & _ & _ & _ & ->).
    cbn [updateWith] in Hc. rewrite Hc.
    cbn [length pow]. lra.
Qed.

(** X13. Over consecutive [update] calls whose hand signals all give the
    same glow target [p] (a proximity in [0, 1], or 0 with no hand), a
    glow in [0, 1] never passes [p]: it stays between the value it started
    from and [p], so what separates it from [p] does not grow. *)
Theorem glow_approaches (p : R) (s : ParticleSystem.t) (cs : list ParticleSystem.Call) :
  0 <= p <= 1 ->
  0 <= ParticleSystem.uGlow s <= 1 ->
  Forall (updateWith (fun h => ParticleSystem.targetGlowOf h = p)) cs ->
  between (ParticleSystem.uGlow s) p (ParticleSystem.uGlow (ParticleSystem.run s cs)) /\
  Rabs (ParticleSystem.uGlow (ParticleSystem.run s cs) - p)
    <= Rabs (ParticleSystem.uGlow s - p).
Proof.
  intros _ _ Hcs.
  assert (H : between (ParticleSystem.uGlow s) p
                (ParticleSystem.uGlow (ParticleSystem.run s cs))).
  { apply (between_convex _ _ _ (0.9 ^ length cs)).
    - apply pow_unit. lra.
    - apply glow_geometric. exact Hcs. }
  split; [exact H|]. apply between_closer. exact H.
Qed.

(** A hand of proximity 0.5 held for two frames over a dark cloud. *)
Lemma glow_approaches_witness :
  between 0 0.5
    (ParticleSystem.uGlow
       (ParticleSystem.run hotParticle
          [ParticleSystem.call_update 0 (Some handAtOrigin);
           ParticleSystem.call_update 1 (Some handAtOrigin)])).
Proof.
  refine (proj1 (glow_approaches 0.5 hotParticle
            [ParticleSystem.call_update 0 (Some handAtOrigin);
             ParticleSystem.call_update 1 (Some handAtOrigin)] _ _ _)).
  - lra.
  - cbn. lra.
  - assert (E : ParticleSystem.targetGlowOf (Some handAtOrigin) = 0.5).
    { cbn. destruct (Req_dec_T 0.5 0); [lra|reflexivity]. }
    repeat constructor; exact E.
Defined.

(** [update] keeps the two buffers at three scalars per particle, whatever
    the current target is. *)
Lemma update_lengths (time : R) (handData : option HandData) (s : ParticleSystem.t) :
  length (ParticleSystem.positions s) = (ParticleSystem.count s * 3)%nat ->
  length (ParticleSystem.aColor s) = (ParticleSystem.count s * 3)%nat ->
  length (ParticleSystem.positions (ParticleSystem.update time handData s))
    = (ParticleSystem.count s * 3)%nat /\
  length (ParticleSystem.aColor (ParticleSystem.update time handData s))
    = (ParticleSystem.count s * 3)%nat.
Proof.
  intros Hp Hc.
  destruct (advanceWave_fields s) as (Ec & Ep & Ea & _).
  destruct (update_loop (ParticleSystem.advanceWave s) (ParticleSystem.targetBuffer s)
              (ParticleSystem.cursor handData)
              (default (mkPoint 0 0 0) (ParticleSystem.cursor handData))
              (ParticleSystem.count s) (ParticleSystem.positions s)
              (ParticleSystem.aColor s) Hp Hc) as (H1 & H2 & _).
  unfold ParticleSystem.update. rewrite Ec, Ep, Ea.
  destruct (for_range _ _ _ _) as [positions' colors'].
  split; [exact H1|exact H2].
Qed.

(** What no call changes: the particle count, the lengths of the position
    and colour buffers, the scale buffer, the target attribute, the
    templates. *)
Lemma step_shape (s : ParticleSystem.t) (c : ParticleSystem.Call) :
  length (ParticleSystem.positions s) = (ParticleSystem.count s * 3)%nat ->
  length (ParticleSystem.aColor s) = (ParticleSystem.count s * 3)%nat ->
  ParticleSystem.count (ParticleSystem.step s c) = ParticleSystem.count s /\
  length (ParticleSystem.positions (ParticleSystem.step s c))
    = (ParticleSystem.count s * 3)%nat /\
  length (ParticleSystem.aColor (ParticleSystem.step s c))
    = (ParticleSystem.count s * 3)%nat /\
  ParticleSystem.aScale (ParticleSystem.step s c) = ParticleSystem.aScale s /\
  ParticleSystem.aTarget (ParticleSystem.step s c) = ParticleSystem.aTarget s /\
  ParticleSystem.templates (ParticleSystem.step s c) = ParticleSystem.templates s.
Proof.
  intros Hp Hc.
  destruct c as [name|[]|[]| |time handData|]; cbn [ParticleSystem.step];
    try (cbn; repeat split; assumption).
  - unfold ParticleSystem.setTarget.
    destruct (ParticleSystem.get_property _ _); cbn; repeat split; assumption.
  - destruct (update_fields time handData s) as (-> & -> & _).
    destruct (update_more_fields time handData s) as (-> & -> & _).
    destruct (update_lengths time handData s Hp Hc) as [-> ->].
    repeat split.
  - unfold ParticleSystem.timeout.
    destruct (ParticleSystem.timers s); cbn; repeat split; assumption.
Qed.

Lemma run_shape (cs : list ParticleSystem.Call) (s : ParticleSystem.t) :
  length (ParticleSystem.positions s) = (ParticleSystem.count s * 3)%nat ->
  length (ParticleSystem.aColor s) = (ParticleSystem.count s * 3)%nat ->
  ParticleSystem.count (ParticleSystem.run s cs) = ParticleSystem.count s /\
  length (ParticleSystem.positions (ParticleSystem.run s cs))
    = (ParticleSystem.count s * 3)%nat /\
  length (ParticleSystem.aColor (ParticleSystem.run s cs))
    = (ParticleSystem.count s * 3)%nat /\
  ParticleSystem.aScale (ParticleSystem.run s cs) = ParticleSystem.aScale s /\
  ParticleSystem.aTarget (ParticleSystem.run s cs) = ParticleSystem.aTarget s /\
  ParticleSystem.templates (ParticleSystem.run s cs) = ParticleSystem.templates s.
Proof.
  revert s. induction cs as [|c cs IH]; intros s Hp Hc.
  - cbn. repeat split; assumption.
  - cbn [ParticleSystem.run fold_left].
    destruct (step_shape s c Hp Hc) as (E1 & E2 & E3 & E4 & E5 & E6).
    rewrite <- E1 in E2, E3.
    destruct (IH _ E2 E3) as (F1 & F2 & F3 & F4 & F5 & F6).
    unfold ParticleSystem.run in *.
    rewrite F1, F2, F3, F4, F5, F6, E1, E4, E5, E6. repeat split.
Qed.

(** X14. Whatever sequence of calls (and timer callbacks) a fresh engine
    receives, [setTarget] with any name included: the particle count stays
    as constructed, the position and colour buffers keep [count * 3]
    scalars, and the scale buffer, the target attribute and the templates
    are exactly as the constructor left them. *)
Theorem shape_invariant (count : nat) (g : Rng) (cs : list ParticleSystem.Call) :
  ParticleSystem.count (ParticleSystem.run (ParticleSystem.new count g) cs) = count /\
  length (ParticleSystem.positions (ParticleSystem.run (ParticleSystem.new count g) cs))
    = (count * 3)%nat /\
  length (ParticleSystem.aColor (ParticleSystem.run (ParticleSystem.new count g) cs))
    = (count * 3)%nat /\
  ParticleSystem.aScale (ParticleSystem.run (ParticleSystem.new count g) cs)
    = ParticleSystem.aScale (ParticleSystem.new count g) /\
  ParticleSystem.aTarget (ParticleSystem.run (ParticleSystem.new count g) cs)
    = ParticleSystem.aTarget (ParticleSystem.new count g) /\
  ParticleSystem.templates (ParticleSystem.run (ParticleSystem.new count g) cs)
    = ParticleSystem.templates (ParticleSystem.new count g).
Proof.
  destruct (new_wf count g) as [Hp Hc _ _].
  assert (Hn : ParticleSystem.count (ParticleSystem.new count g) = count).
  { destruct (new_spec count g) as (? & ? & ? & ? & ? & ? & ? & _ & _ & ->).
    reflexivity. }
  pose proof (run_shape cs (ParticleSystem.new count g) Hp Hc) as H.
  rewrite Hn in H. exact H.
Qed.

(** * The per-frame step over many frames *)

(** One [update] without a cursor, the engine not waving: every particle
    eases towards its aim. *)
Lemma update_ease (time : R) (handData : option HandData)
    (s : ParticleSystem.t) (i : nat) (b : list R) :
  ParticleSystem.wf s -> (i < ParticleSystem.count s)%nat ->
  ParticleSystem.isWaving s = false ->
  ParticleSystem.cursor handData = None ->
  ParticleSystem.templates s !! ParticleSystem.currentTarget s = Some b ->
  ParticleSystem.pos (ParticleSystem.update time handData s) i
  = ParticleSystem.ease (ParticleSystem.pos s i)
      (ParticleSystem.aim s (mkPoint 0 0 0) (ParticleSystem.point b i)).
Proof.
  intros Hwf Hi Hw Hc Hb.
  destruct (update_no_repel time handData s i Hwf Hi (or_introl Hc)) as [-> _].
  unfold ParticleSystem.integrated, ParticleSystem.advanceWave.
  rewrite Hw, Hc, (targetBuffer_wf s b Hb). reflexivity.
Qed.

Lemma aim_update (time : R) (handData : option HandData) (s : ParticleSystem.t)
    (a tp : Point) :
  ParticleSystem.isWaving s = false ->
  ParticleSystem.aim (ParticleSystem.update time handData s) a tp
  = ParticleSystem.aim s a tp.
Proof.
  intros Hw. unfold ParticleSystem.aim.
  destruct (update_fields time handData s) as (_ & _ & _ & -> & -> & -> & _).
  rewrite Hw. reflexivity.
Qed.

(** Over [n] such updates what separates a particle from its aim is
    multiplied by [0.95 ^ n] on every axis. *)
Lemma updates_converge (cs : list ParticleSystem.Call) (s : ParticleSystem.t)
    (i : nat) (b : list R) :
  ParticleSystem.wf s -> (i < ParticleSystem.count s)%nat ->
  ParticleSystem.isWaving s = false ->
  Forall (updateWith (fun h => ParticleSystem.cursor h = None)) cs ->
  ParticleSystem.templates s !! ParticleSystem.currentTarget s = Some b ->
  let A := ParticleSystem.aim s (mkPoint 0 0 0) (ParticleSystem.point b i) in
  x (ParticleSystem.pos (ParticleSystem.run s cs) i) - x A
    = 0.95 ^ length cs * (x (ParticleSystem.pos s i) - x A) /\
  y (ParticleSystem.pos (ParticleSystem.run s cs) i) - y A
    = 0.95 ^ length cs * (y (ParticleSystem.pos s i) - y A) /\
  z (ParticleSystem.pos (ParticleSystem.run s cs) i) - z A
    = 0.95 ^ length cs * (z (ParticleSystem.pos s i) - z A).
Proof.
  revert s. induction cs as [|c cs IH]; intros s Hwf Hi Hw Hcs Hb A.
  - cbn. repeat split; lra.
  - inversion Hcs as [|c' cs' Hc Hcs']; subst.
    destruct c as [| | | |time handData|]; try (exfalso; exact Hc).
    cbn [updateWith] in Hc.
    cbn [ParticleSystem.run fold_left ParticleSystem.step].
    destruct (update_fields time handData s) as (Ec & Et & En & _ & _ & Ew & _).
    destruct (IH (ParticleSystem.update time handData s)) as (Hx & Hy & Hz).
    + apply update_wf. exact Hwf.
    + rewrite Ec. exact Hi.
    + rewrite Ew. exact Hw.
    + exact Hcs'.
    + rewrite Et, En. exact Hb.
    + unfold ParticleSystem.run in Hx, Hy, Hz.
      rewrite aim_update in Hx, Hy, Hz by exact Hw. fold A in Hx, Hy, Hz.
      rewrite Hx, Hy, Hz.
      rewrite (update_ease time handData s i b Hwf Hi Hw Hc Hb). fold A.
      cbn [ParticleSystem.ease x y z length pow].
      repeat split; lra.
Qed.

(** Over such updates a particle stays, on every axis, between where it
    started and its aim. *)
Lemma updates_between (cs : list ParticleSystem.Call) (s : ParticleSystem.t)
    (i : nat) (b : list R) :
  ParticleSystem.wf s -> (i < ParticleSystem.count s)%nat ->
  ParticleSystem.isWaving s = false ->
  Forall (updateWith (fun h => ParticleSystem.cursor h = None)) cs ->
  ParticleSystem.templates s !! ParticleSystem.currentTarget s = Some b ->
  let A := ParticleSystem.aim s (mkPoint 0 0 0) (ParticleSystem.point b i) in
  between (x (ParticleSystem.pos s i)) (x A)
          (x (ParticleSystem.pos (ParticleSystem.run s cs) i)) /\
  between (y (ParticleSystem.pos s i)) (y A)
          (y (ParticleSystem.pos (ParticleSystem.run s cs) i)) /\
  between (z (ParticleSystem.pos s i)) (z A)
          (z (ParticleSystem.pos (ParticleSystem.run s cs) i)).
Proof.
  intros Hwf Hi Hw Hcs Hb A.
  destruct (updates_converge cs s i b Hwf Hi Hw Hcs Hb) as (Hx & Hy & Hz).
  fold A in Hx, Hy, Hz.
  assert (Hc : 0 <= 0.95 ^ length cs <= 1) by (apply pow_unit; lra).
  split; [|split]; eapply between_convex; eauto.
Qed.

Lemma hotPair_wf : ParticleSystem.wf hotPair.
Proof.
  split; [reflexivity|reflexivity| |].
  - unfold hotPair. cbn [ParticleSystem.templates ParticleSystem.count].
    intros name b H.
    repeat (apply lookup_insert_Some in H; destruct H as [[_ <-]|[_ H]];
            [reflexivity|]).
    rewrite lookup_empty in H. discriminate H.
  - exists [0.5; 0; 0; 1; 1; 1].
    unfold hotPair. cbn [ParticleSystem.templates ParticleSystem.currentTarget].
    by simplify_map_eq.
Qed.

Lemma hotPair_random :
  ParticleSystem.templates hotPair !! ParticleSystem.currentTarget hotPair
  = Some [0.5; 0; 0; 1; 1; 1].
Proof.
  unfold hotPair.
  cbn [ParticleSystem.templates ParticleSystem.currentTarget].
  by simplify_map_eq.
Qed.

Lemma hotParticle_random :
  ParticleSystem.templates hotParticle !! ParticleSystem.currentTarget hotParticle
  = Some [0.5; 0; 0].
Proof.
  unfold hotParticle.
  cbn [ParticleSystem.templates ParticleSystem.currentTarget].
  by simplify_map_eq.
Qed.

Lemma setExpanded_wf (state : bool) (s : ParticleSystem.t) :
  ParticleSystem.wf s -> ParticleSystem.wf (ParticleSystem.setExpanded state s).
Proof.
  intros Hwf. apply (step_wf s (ParticleSystem.call_setExpanded state) I Hwf).
Qed.

(** X15. With [expanded], [attracted] and [waving] false, over any number
    of consecutive [update] calls without a cursor, a particle never
    passes its point in the current template: on every axis its coordinate
    stays between the coordinate it started from and the template's, so
    what separates the two does not grow. *)
Theorem approach_template (cs : list ParticleSystem.Call) (s : ParticleSystem.t)
    (i : nat) (b : list R) :
  ParticleSystem.wf s -> (i < ParticleSystem.count s)%nat ->
  ParticleSystem.expanded s = false ->
  ParticleSystem.attracted s = false ->
  ParticleSystem.isWaving s = false ->
  Forall (updateWith (fun h => ParticleSystem.cursor h = None)) cs ->
  ParticleSystem.templates s !! ParticleSystem.currentTarget s = Some b ->
  let t := ParticleSystem.point b i in
  let p := ParticleSystem.pos s i in
  let p' := ParticleSystem.pos (ParticleSystem.run s cs) i in
  (between (x p) (x t) (x p') /\ between (y p) (y t) (y p') /\
   between (z p) (z t) (z p')) /\
  (Rabs (x p' - x t) <= Rabs (x p - x t) /\
   Rabs (y p' - y t) <= Rabs (y p - y t) /\
   Rabs (z p' - z t) <= Rabs (z p - z t)).
Proof.
  intros Hwf Hi He Ha Hw Hcs Hb t p p'.
  pose proof (updates_between cs s i b Hwf Hi Hw Hcs Hb) as H.
  unfold ParticleSystem.aim in H. rewrite He, Ha, Hw in H.
  fold t p p' in H. destruct H as (Hx & Hy & Hz).
  split; [split; [|split]; assumption|].
  split; [|split]; apply between_closer; assumption.
Qed.

(** The second particle of [hotPair], at (3, 3, 3) and on its way to
    (1, 1, 1), over two frames without a hand. *)
Lemma approach_template_witness :
  between 3 1
    (x (ParticleSystem.pos
          (ParticleSystem.run hotPair
             [ParticleSystem.call_update 0 None; ParticleSystem.call_update 1 None])
          1)).
Proof.
  refine (proj1 (proj1 (approach_template
            [ParticleSystem.call_update 0 None; ParticleSystem.call_update 1 None]
            hotPair 1 [0.5; 0; 0; 1; 1; 1] hotPair_wf _ eq_refl eq_refl eq_refl _
            hotPair_random))).
  - cbn. lia.
  - repeat constructor.
Defined.

(** X16. With [expanded] true, [attracted] and [waving] false, over any
    number of consecutive [update] calls without a cursor, a particle never
    passes twice its template point, for a template point within 1000 of
    the origin on every axis: each coordinate stays between the coordinate
    it started from and twice the template's, so what separates the two
    does not grow. *)
Theorem approach_expanded (cs : list ParticleSystem.Call) (s : ParticleSystem.t)
    (i : nat) (b : list R) :
  ParticleSystem.wf s -> (i < ParticleSystem.count s)%nat ->
  ParticleSystem.expanded s = true ->
  ParticleSystem.attracted s = false ->
  ParticleSystem.isWaving s = false ->
  Forall (updateWith (fun h => ParticleSystem.cursor h = None)) cs ->
  ParticleSystem.templates s !! ParticleSystem.currentTarget s = Some b ->
  within 1000 (ParticleSystem.point b i) ->
  let t := ParticleSystem.point b i in
  let p := ParticleSystem.pos s i in
  let p' := ParticleSystem.pos (ParticleSystem.run s cs) i in
  (between (x p) (2 * x t) (x p') /\ between (y p) (2 * y t) (y p') /\
   between (z p) (2 * z t) (z p')) /\
  (Rabs (x p' - 2 * x t) <= Rabs (x p - 2 * x t) /\
   Rabs (y p' - 2 * y t) <= Rabs (y p - 2 * y t) /\
   Rabs (z p' - 2 * z t) <= Rabs (z p - 2 * z t)).
Proof.
  intros Hwf Hi He Ha Hw Hcs Hb _ t p p'.
  pose proof (updates_between cs s i b Hwf Hi Hw Hcs Hb) as H.
  unfold ParticleSystem.aim in H. rewrite He, Ha, Hw in H.
  cbn [x y z] in H. fold t p p' in H.
  replace (x t * 2.0) with (2 * x t) in H by lra.
  replace (y t * 2.0) with (2 * y t) in H by lra.
  replace (z t * 2.0) with (2 * z t) in H by lra.
  destruct H as (Hx & Hy & Hz).
  split; [split; [|split]; assumption|].
  split; [|split]; apply between_closer; assumption.
Qed.

Lemma hotPair_within : within 1000 (ParticleSystem.point [0.5; 0; 0; 1; 1; 1] 1).
Proof.
  unfold within, ParticleSystem.point. cbn.
  repeat split; apply Rabs_le; lra.
Qed.

(** The second particle of [hotPair], at (3, 3, 3), after
    [setExpanded(true)] on its way to (2, 2, 2), over two frames. *)
Lemma approach_expanded_witness :
  between 3 (2 * 1)
    (x (ParticleSystem.pos
          (ParticleSystem.run (ParticleSystem.setExpanded true hotPair)
             [ParticleSystem.call_update 0 None; ParticleSystem.call_update 1 None])
          1)).
Proof.
  refine (proj1 (proj1 (approach_expanded
            [ParticleSystem.call_update 0 None; ParticleSystem.call_update 1 None]
            (ParticleSystem.setExpanded true hotPair) 1 [0.5; 0; 0; 1; 1; 1]
            (setExpanded_wf true hotPair hotPair_wf)
            _ eq_refl eq_refl eq_refl _ hotPair_random hotPair_within))).
  - cbn. lia.
  - repeat constructor.
Defined.

(** X17. With [attracted] true and [expanded] and [waving] false, one
    [update] moves every particle 5% of the way towards the attraction
    point plus a tenth of its template point, the attraction point being
    the cursor, or the origin without one; however close the cursor is, the
    particle is not repelled and its red channel is left alone. *)
Theorem attract_step (time : R) (handData : option HandData)
    (s : ParticleSystem.t) (i : nat) (b : list R) :
  ParticleSystem.wf s -> (i < ParticleSystem.count s)%nat ->
  ParticleSystem.attracted s = true ->
  ParticleSystem.expanded s = false ->
  ParticleSystem.isWaving s = false ->
  ParticleSystem.templates s !! ParticleSystem.currentTarget s = Some b ->
  let c := default (mkPoint 0 0 0) (ParticleSystem.cursor handData) in
  let t := ParticleSystem.point b i in
  let p := ParticleSystem.pos s i in
  let p' := ParticleSystem.pos (ParticleSystem.update time handData s) i in
  x p' = x p + (x c + x t * 0.1 - x p) * 0.05 /\
  y p' = y p + (y c + y t * 0.1 - y p) * 0.05 /\
  z p' = z p + (z c + z t * 0.1 - z p) * 0.05 /\
  ParticleSystem.red (ParticleSystem.update time handData s) i = ParticleSystem.red s i.
Proof.
  intros Hwf Hi Ha He Hw Hb c t p p'. subst p'.
  destruct (update_no_repel time handData s i Hwf Hi (or_intror Ha)) as [-> ->].
  unfold ParticleSystem.integrated, ParticleSystem.aim, ParticleSystem.advanceWave.
  rewrite Hw, He, Ha, Hw, (targetBuffer_wf s b Hb).
  fold c t p. cbn [ParticleSystem.ease x y z].
  repeat split; reflexivity.
Qed.

Lemma setAttract_wf (state : bool) (s : ParticleSystem.t) :
  ParticleSystem.wf s -> ParticleSystem.wf (ParticleSystem.setAttract state s).
Proof.
  intros Hwf. apply (step_wf s (ParticleSystem.call_setAttract state) I Hwf).
Qed.

(** The hot particle attracted by a hand at the origin, half a unit away:
    its red channel stays at 0.8. *)
Lemma attract_step_witness :
  ParticleSystem.red
    (ParticleSystem.update 0 (Some handAtOrigin)
       (ParticleSystem.setAttract true hotParticle)) 0 = 0.8.
Proof.
  refine (proj2 (proj2 (proj2
            (attract_step 0 (Some handAtOrigin)
               (ParticleSystem.setAttract true hotParticle) 0 [0.5; 0; 0]
               (setAttract_wf true hotParticle hotParticle_wf)
               _ eq_refl eq_refl eq_refl hotParticle_random)))).
  cbn. lia.
Defined.



(** The loop body writes the colour buffer at the red slot of its particle
    or not at all. *)
Lemma updateParticle_colors (s : ParticleSystem.t) (tp : list R)
    (repelPos : option Point) (attractPos : Point) (i k : nat)
    (positions colors : list R) :
  k <> (i * 3)%nat ->
  rd (snd (ParticleSystem.updateParticle s tp repelPos attractPos i
             (positions, colors))) k = rd colors k.
Proof.
  intros Hk. unfold ParticleSystem.updateParticle.
  destruct (ParticleSystem.expanded s), (ParticleSystem.isWaving s),
    (ParticleSystem.attracted s), repelPos as [c|];
    cbn [negb fst snd];
    repeat match goal with
           | |- context [Rltb ?a ?b] => destruct (Rltb a b)
           | |- context [Rgtb ?a ?b] => destruct (Rgtb a b)
           end;
    cbn [fst snd]; rd_simpl; reflexivity.
Qed.

(** X19. [update] never writes the green and blue channels: every slot of
    the colour buffer whose index is not a multiple of 3 reads the same
    before and after, in any engine state and for any hand signal. *)
Theorem update_keeps_green_blue (time : R) (handData : option HandData)
    (s : ParticleSystem.t) (k : nat) :
  (k mod 3 <> 0)%nat ->
  rd (ParticleSystem.aColor (ParticleSystem.update time handData s)) k
  = rd (ParticleSystem.aColor s) k.
Proof.
  intros Hk. unfold ParticleSystem.update.
  assert (H : rd (snd (for_range 0 (ParticleSystem.count (ParticleSystem.advanceWave s))
                    (ParticleSystem.updateParticle (ParticleSystem.advanceWave s)
                       (ParticleSystem.targetBuffer s) (ParticleSystem.cursor handData)
                       (default (mkPoint 0 0 0) (ParticleSystem.cursor handData)))
                    (ParticleSystem.positions (ParticleSystem.advanceWave s),
                     ParticleSystem.aColor (ParticleSystem.advanceWave s)))) k
              = rd (ParticleSystem.aColor (ParticleSystem.advanceWave s)) k).
  { apply (for_range_ind
             (fun _ st => rd (snd st) k
                          = rd (ParticleSystem.aColor (ParticleSystem.advanceWave s)) k));
      [lia|reflexivity|].
    intros i [P C] _ HC. cbn [snd] in HC.
    rewrite updateParticle_colors; [exact HC|].
    intros ->. apply Hk. apply Nat.Div0.mod_mul. }
  destruct (for_range _ _ _ _) as [positions' colors'].
  cbn [snd ParticleSystem.aColor] in *. rewrite H.
  destruct (advanceWave_fields s) as (_ & _ & -> & _). reflexivity.
Qed.

(** The green channel of the hot particle, with the hand upon it. *)
Lemma update_keeps_green_blue_witness :
  rd (ParticleSystem.aColor (ParticleSystem.update 0 (Some handAtOrigin) hotParticle)) 1
  = 0.5.
Proof.
  apply (update_keeps_green_blue 0 (Some handAtOrigin) hotParticle 1).
  cbn. lia.
Defined.

(** The red channel after the loop body, for a red channel in the range. *)
Lemma particleStep_red (s : ParticleSystem.t) (repelPos : option Point)
    (attractPos tp p : Point) (r : R) :
  0.2 <= r <= 1 ->
  0.2 <= snd (ParticleSystem.particleStep s repelPos attractPos tp p r) <= 1.
Proof.
  intros Hr. unfold ParticleSystem.particleStep.
  destruct repelPos as [c|]; [|exact Hr].
  destruct (negb (ParticleSystem.attracted s)); [|exact Hr].
  destruct (Rltb _ _); cbn [snd]; [lra|].
  unfold Rgtb. case_bool_decide; lra.
Qed.

Lemma update_red_range (time : R) (handData : option HandData) (s : ParticleSystem.t) :
  length (ParticleSystem.positions s) = (ParticleSystem.count s * 3)%nat ->
  length (ParticleSystem.aColor s) = (ParticleSystem.count s * 3)%nat ->
  (forall i, (i < ParticleSystem.count s)%nat -> 0.2 <= ParticleSystem.red s i <= 1) ->
  forall i, (i < ParticleSystem.count s)%nat ->
    0.2 <= ParticleSystem.red (ParticleSystem.update time handData s) i <= 1.
Proof.
  intros Hp Hc Hr i Hi.
  destruct (advanceWave_fields s) as (Ec & Ep & Ea & _).
  destruct (update_loop (ParticleSystem.advanceWave s) (ParticleSystem.targetBuffer s)
              (ParticleSystem.cursor handData)
              (default (mkPoint 0 0 0) (ParticleSystem.cursor handData))
              (ParticleSystem.count s) (ParticleSystem.positions s)
              (ParticleSystem.aColor s) Hp Hc) as (_ & _ & H).
  destruct (H i Hi) as [_ Hred].
  unfold ParticleSystem.red, ParticleSystem.update. rewrite Ec, Ep, Ea.
  destruct (for_range _ _ _ _) as [positions' colors'].
  cbn [snd ParticleSystem.aColor] in *. rewrite Hred.
  apply particleStep_red. apply Hr. exact Hi.
Qed.

Lemma step_red_range (s : ParticleSystem.t) (c : ParticleSystem.Call) :
  length (ParticleSystem.positions s) = (ParticleSystem.count s * 3)%nat ->
  length (ParticleSystem.aColor s) = (ParticleSystem.count s * 3)%nat ->
  (forall i, (i < ParticleSystem.count s)%nat -> 0.2 <= ParticleSystem.red s i <= 1) ->
  forall i, (i < ParticleSystem.count s)%nat ->
    0.2 <= ParticleSystem.red (ParticleSystem.step s c) i <= 1.
Proof.
  intros Hp Hc Hr.
  destruct c as [name|[]|[]| |time handData|]; cbn [ParticleSystem.step];
    try exact Hr.
  - unfold ParticleSystem.setTarget.
    destruct (ParticleSystem.get_property _ _); exact Hr.
  - apply update_red_range; assumption.
  - unfold ParticleSystem.timeout. destruct (ParticleSystem.timers s); exact Hr.
Qed.

Lemma run_red_range (cs : list ParticleSystem.Call) (s : ParticleSystem.t) :
  length (ParticleSystem.positions s) = (ParticleSystem.count s * 3)%nat ->
  length (ParticleSystem.aColor s) = (ParticleSystem.count s * 3)%nat ->
  (forall i, (i < ParticleSystem.count s)%nat -> 0.2 <= ParticleSystem.red s i <= 1) ->
  forall i, (i < ParticleSystem.count s)%nat ->
    0.2 <= ParticleSystem.red (ParticleSystem.run s cs) i <= 1.
Proof.
  revert s. induction cs as [|c cs IH]; intros s Hp Hc Hr; [exact Hr|].
  cbn [ParticleSystem.run fold_left].
  destruct (step_shape s c Hp Hc) as (E1 & E2 & E3 & _).
  pose proof (step_red_range s c Hp Hc Hr) as Hr'.
  rewrite <- E1 in E2, E3, Hr'. rewrite <- E1.
  apply (IH _ E2 E3 Hr').
Qed.

(** X20. When every draw of [Math.random] lies in [0, 1), the red channel
    of every particle lies in [0.2, 1] after any sequence of calls and
    timer callbacks on a fresh engine. *)
Theorem red_in_range (count : nat) (g : Rng) (cs : list ParticleSystem.Call) (i : nat) :
  fairRng g -> (i < count)%nat ->
  0.2 <= ParticleSystem.red (ParticleSystem.run (ParticleSystem.new count g) cs) i <= 1.
Proof.
  intros Hfair Hi.
  destruct (new_wf count g) as [Hp Hc _ _].
  assert (Hn : ParticleSystem.count (ParticleSystem.new count g) = count).
  { destruct (new_spec count g) as (? & ? & ? & ? & ? & ? & ? & _ & _ & ->).
    reflexivity. }
  apply (run_red_range cs (ParticleSystem.new count g) Hp Hc); [|rewrite Hn; exact Hi].
  rewrite Hn. intros j Hj.
  destruct (initParticles_each count g Hfair)
    as (positions & scales & colors & g1 & Hinit & _ & _ & HQ).
  destruct (new_spec count g)
    as (positions' & scales' & colors' & g1' & tpl & targets & g2 & Hinit' & _ & ->).
  rewrite Hinit in Hinit'. injection Hinit' as <- <- <- <-.
  destruct (HQ j Hj) as (_ & _ & Hred & _).
  unfold ParticleSystem.red. cbn [ParticleSystem.aColor].
  unfold ParticleSystem.point in Hred. cbn [x] in Hred. lra.
Qed.

(** One particle, a hand upon it for a frame, then gone. *)
Lemma red_in_range_witness :
  0.2 <= ParticleSystem.red
           (ParticleSystem.run (ParticleSystem.new 1 (mkRng (fun _ => 0.25) 0))
              [ParticleSystem.call_update 0 (Some handAtOrigin);
               ParticleSystem.call_update 1 None]) 0 <= 1.
Proof.
  apply (red_in_range 1 (mkRng (fun _ => 0.25) 0)).
  - intros n. cbn. lra.
  - lia.
Defined.

(** The loop body's function reads the engine through its three flags and
    the wave phase only. *)
Lemma particleStep_flags (s1 s2 : ParticleSystem.t) (repelPos : option Point)
    (attractPos tp p : Point) (r : R) :
  ParticleSystem.expanded s1 = ParticleSystem.expanded s2 ->
  ParticleSystem.attracted s1 = ParticleSystem.attracted s2 ->
  ParticleSystem.isWaving s1 = ParticleSystem.isWaving s2 ->
  ParticleSystem.wavePhase s1 = ParticleSystem.wavePhase s2 ->
  ParticleSystem.particleStep s1 repelPos attractPos tp p r
  = ParticleSystem.particleStep s2 repelPos attractPos tp p r.
Proof.
  intros He Ha Hw Hp.
  unfold ParticleSystem.particleStep, ParticleSystem.aim.
  rewrite He, Ha, Hw, Hp. reflexivity.
Qed.

(** X21. Particles do not influence each other: if two well-formed engines
    have the same flags and wave phase and agree on particle [i] (its
    position, its red channel and its point in the current template), then
    after [update] with the same hand signal they still agree on particle
    [i], whatever their other particles are. *)
Theorem update_local (time : R) (handData : option HandData)
    (s1 s2 : ParticleSystem.t) (i : nat) (b1 b2 : list R) :
  ParticleSystem.wf s1 -> ParticleSystem.wf s2 ->
  (i < ParticleSystem.count s1)%nat -> (i < ParticleSystem.count s2)%nat ->
  ParticleSystem.expanded s1 = ParticleSystem.expanded s2 ->
  ParticleSystem.attracted s1 = ParticleSystem.attracted s2 ->
  ParticleSystem.isWaving s1 = ParticleSystem.isWaving s2 ->
  ParticleSystem.wavePhase s1 = ParticleSystem.wavePhase s2 ->
  ParticleSystem.templates s1 !! ParticleSystem.currentTarget s1 = Some b1 ->
  ParticleSystem.templates s2 !! ParticleSystem.currentTarget s2 = Some b2 ->
  ParticleSystem.point b1 i = ParticleSystem.point b2 i ->
  ParticleSystem.pos s1 i = ParticleSystem.pos s2 i ->
  ParticleSystem.red s1 i = ParticleSystem.red s2 i ->
  ParticleSystem.pos (ParticleSystem.update time handData s1) i
  = ParticleSystem.pos (ParticleSystem.update time handData s2) i /\
  ParticleSystem.red (ParticleSystem.update time handData s1) i
  = ParticleSystem.red (ParticleSystem.update time handData s2) i.
Proof.
  intros Hwf1 Hwf2 Hi1 Hi2 He Ha Hw Hp Hb1 Hb2 Hb Hpos Hred.
  destruct (update_particle_wise time handData s1 i Hwf1 Hi1) as [-> ->].
  destruct (update_particle_wise time handData s2 i Hwf2 Hi2) as [-> ->].
  rewrite (targetBuffer_wf s1 b1 Hb1), (targetBuffer_wf s2 b2 Hb2), Hb, Hpos, Hred.
  rewrite (particleStep_flags (ParticleSystem.advanceWave s1)
             (ParticleSystem.advanceWave s2)).
  - split; reflexivity.
  - destruct (advanceWave_fields s1) as (_ & _ & _ & -> & _).
    destruct (advanceWave_fields s2) as (_ & _ & _ & -> & _). exact He.
  - destruct (advanceWave_fields s1) as (_ & _ & _ & _ & -> & _).
    destruct (advanceWave_fields s2) as (_ & _ & _ & _ & -> & _). exact Ha.
  - destruct (advanceWave_fields s1) as (_ & _ & _ & _ & _ & ->).
    destruct (advanceWave_fields s2) as (_ & _ & _ & _ & _ & ->). exact Hw.
  - unfold ParticleSystem.advanceWave. rewrite <- Hw.
    destruct (ParticleSystem.isWaving s1); cbn; rewrite Hp; reflexivity.
Qed.

(** The hot particle alone and in company. *)
Lemma update_local_witness :
  ParticleSystem.pos (ParticleSystem.update 0 (Some handAtOrigin) hotParticle) 0
  = ParticleSystem.pos (ParticleSystem.update 0 (Some handAtOrigin) hotPair) 0.
Proof.
  refine (proj1 (update_local 0 (Some handAtOrigin) hotParticle hotPair 0
                   [0.5; 0; 0] [0.5; 0; 0; 1; 1; 1]
                   hotParticle_wf hotPair_wf _ _ eq_refl eq_refl eq_refl eq_refl
                   hotParticle_random _ eq_refl eq_refl eq_refl)).
  - cbn. lia.
  - cbn. lia.
  - unfold hotPair. cbn [ParticleSystem.templates ParticleSystem.currentTarget].
    by simplify_map_eq.
Defined.

(** * The frame driver *)

(** A frame with a hand of 21 landmarks: what [animate] computes. *)
Lemma animate_present (aspect elapsedTime : R) (st : Main.t) (landmarks : list Point) :
  HandTracker.present (Main.handTracker st) landmarks ->
  length landmarks = 21%nat ->
  exists g data,
    HandTracker.detectGesture landmarks = Normal g /\
    position data =
      Some (mkPoint ((x (landmarks !!! 8%nat) - 0.5) * 2 * (12.5 * aspect / 2))
                    ((0.5 - y (landmarks !!! 8%nat)) * 2 * (12.5 / 2)) 0) /\
    gesture data = g /\
    swipe data = swipeOf (HandTracker.lastPalmX (Main.handTracker st))
                         (x (landmarks !!! 9%nat)) /\
    Main.animate aspect elapsedTime st =
      Normal {| Main.handTracker :=
                  {| HandTracker.results := HandTracker.results (Main.handTracker st);
                     HandTracker.lastPalmX := Some (x (landmarks !!! 9%nat)) |};
                Main.particleSystem :=
                  Main.interact elapsedTime (Some data)
                    (ParticleSystem.update elapsedTime (Some data)
                       (Main.particleSystem st)) |}.
Proof.
  intros Hp Hlen.
  destruct (getData_signal (Main.handTracker st) landmarks Hp Hlen) as (g & Hg & Hget).
  exists g. eexists. split; [exact Hg|].
  unfold Main.animate. rewrite Hget.
  cbn [Main.mapCoordinates position proximity gesture swipe raw x y z].
  split; [|split; [|split]].
  4: reflexivity.
  all: reflexivity.
Qed.

Lemma switchTo_own (name : string) (s : ParticleSystem.t) :
  is_Some (ParticleSystem.templates s !! name) ->
  ParticleSystem.currentTarget (Main.switchTo name s) = name /\
  ParticleSystem.templates (Main.switchTo name s) = ParticleSystem.templates s /\
  ParticleSystem.positions (Main.switchTo name s) = ParticleSystem.positions s /\
  ParticleSystem.isWaving (Main.switchTo name s) = ParticleSystem.isWaving s /\
  ParticleSystem.wavePhase (Main.switchTo name s) = ParticleSystem.wavePhase s /\
  ParticleSystem.timers (Main.switchTo name s) = ParticleSystem.timers s.
Proof.
  intros [b Hb]. unfold Main.switchTo, Main.targetIsNot.
  case_bool_decide as E; cbn [negb].
  - rewrite E. repeat split.
  - unfold ParticleSystem.setTarget, ParticleSystem.get_property. rewrite Hb.
    repeat split.
Qed.

(** X22. A frame with a hand (21 landmarks) ends with the behaviour flags
    set from the gesture: open selects the sphere, sets [expanded] and
    clears [attracted]; fist and pinch set [attracted] and clear
    [expanded]; neutral clears both; only open changes the template.  The
    positions after the frame are those [update] computed before the
    gesture was applied. *)
Theorem animate_gesture (aspect elapsedTime : R) (st : Main.t)
    (landmarks : list Point) (g : Gesture) :
  HandTracker.present (Main.handTracker st) landmarks ->
  length landmarks = 21%nat ->
  HandTracker.detectGesture landmarks = Normal g ->
  is_Some (ParticleSystem.templates (Main.particleSystem st) !! "sphere"%string) ->
  exists st' data,
    Main.animate aspect elapsedTime st = Normal st' /\
    ParticleSystem.positions (Main.particleSystem st')
      = ParticleSystem.positions
          (ParticleSystem.update elapsedTime (Some data) (Main.particleSystem st)) /\
    match g with
    | open =>
      ParticleSystem.currentTarget (Main.particleSystem st') = "sphere"%string /\
      ParticleSystem.expanded (Main.particleSystem st') = true /\
      ParticleSystem.attracted (Main.particleSystem st') = false
    | fist | pinch =>
      ParticleSystem.currentTarget (Main.particleSystem st')
        = ParticleSystem.currentTarget (Main.particleSystem st) /\
      ParticleSystem.expanded (Main.particleSystem st') = false /\
      ParticleSystem.attracted (Main.particleSystem st') = true
    | neutral =>
      ParticleSystem.currentTarget (Main.particleSystem st')
        = ParticleSystem.currentTarget (Main.particleSystem st) /\
      ParticleSystem.expanded (Main.particleSystem st') = false /\
      ParticleSystem.attracted (Main.particleSystem st') = false
    end.
Proof.
  intros Hp Hlen Hg Hs.
  destruct (animate_present aspect elapsedTime st landmarks Hp Hlen)
    as (g' & data & Hg' & _ & Hgd & _ & Han).
  rewrite Hg in Hg'. injection Hg' as <-.
  eexists. exists data. split; [exact Han|].
  cbn [Main.particleSystem].
  destruct (update_fields elapsedTime (Some data) (Main.particleSystem st))
    as (_ & Et & En & _).
  set (u := ParticleSystem.update elapsedTime (Some data) (Main.particleSystem st)) in *.
  unfold Main.interact. rewrite Hgd.
  assert (Hw : ParticleSystem.positions
                 (match swipe data with
                  | none => u
                  | _ => ParticleSystem.triggerWave u
                  end) = ParticleSystem.positions u /\
               ParticleSystem.currentTarget
                 (match swipe data with
                  | none => u
                  | _ => ParticleSystem.triggerWave u
                  end) = ParticleSystem.currentTarget u /\
               ParticleSystem.templates
                 (match swipe data with
                  | none => u
                  | _ => ParticleSystem.triggerWave u
                  end) = ParticleSystem.templates u).
  { destruct (swipe data); repeat split. }
  destruct Hw as (Wp & Wc & Wt).
  set (w := match swipe data with none => u | _ => ParticleSystem.triggerWave u end) in *.
  destruct g.
  - cbn. rewrite Wp, Wc, En. repeat split.
  - destruct (switchTo_own "sphere" w) as (Sc & _ & Sp & _).
    { rewrite Wt, Et. exact Hs. }
    cbn. rewrite Sp, Wp, Sc. repeat split.
  - cbn. rewrite Wp, Wc, En. repeat split.
  - cbn. rewrite Wp, Wc, En. repeat split.
Qed.

(** The open hand in front of a fresh two-particle engine. *)
Lemma animate_gesture_witness :
  exists st',
    Main.animate 1 0
      {| Main.handTracker := HandTracker.onResults (HandTracker.frame openHand)
                               HandTracker.new;
         Main.particleSystem := hotPair |} = Normal st' /\
    ParticleSystem.currentTarget (Main.particleSystem st') = "sphere"%string /\
    ParticleSystem.expanded (Main.particleSystem st') = true.
Proof.
  destruct (animate_gesture 1 0
              {| Main.handTracker := HandTracker.onResults (HandTracker.frame openHand)
                                       HandTracker.new;
                 Main.particleSystem := hotPair |}
              openHand open)
    as (st' & data & Han & _ & Hc & He & _).
  - eexists. exists []. split; reflexivity.
  - reflexivity.
  - exact detectGesture_openHand.
  - unfold hotPair. cbn [Main.particleSystem ParticleSystem.templates].
    exists [4; 0; 0; 0; 4; 0]. by simplify_map_eq.
  - exists st'. repeat split; assumption.
Defined.

(** The test of the demo cycle on a second count that is not negative: it
    holds exactly when the count is a multiple of 30. *)
Lemma demo_test (n : Z) :
  (0 <= n)%Z ->
  Z.eqb (Main.js_rem n 15) 0 && Z.ltb (Main.js_rem n 30) 15
  = Z.eqb (n mod 30) 0.
Proof.
  intros Hn. unfold Main.js_rem.
  rewrite !Z.rem_mod_nonneg by lia.
  destruct (Z.eqb_spec (n mod 30) 0) as [E|E].
  - assert (E15 : (n mod 15 = 0)%Z) by (revert E; Z.div_mod_to_equations; lia).
    rewrite E, E15. reflexivity.
  - destruct (Z.eqb_spec (n mod 15) 0) as [E15|E15]; [|reflexivity].
    cbn [andb]. apply Z.ltb_ge.
    revert E E15. Z.div_mod_to_equations. lia.
Qed.

Lemma Math_floor_nonneg (r : R) : 0 <= r -> (0 <= Math_floor r)%Z.
Proof.
  intros Hr. unfold Math_floor.
  destruct (base_Int_part r) as [_ H].
  assert (H1 : IZR (-1) < IZR (Int_part r)) by lra.
  apply lt_IZR in H1. lia.
Qed.

(** X23. A frame without a hand runs the demo cycle: [getData] clears the
    swipe history and, at elapsed time [t >= 0], the frame ends on the
    saturn template when the whole seconds of [t] are a multiple of 30 and
    on the random template otherwise: saturn is shown for one second in
    thirty. *)
Theorem animate_demo (aspect elapsedTime : R) (st : Main.t) :
  HandTracker.absent (Main.handTracker st) ->
  0 <= elapsedTime ->
  generated (Main.particleSystem st) ->
  exists st',
    Main.animate aspect elapsedTime st = Normal st' /\
    HandTracker.lastPalmX (Main.handTracker st') = None /\
    ParticleSystem.currentTarget (Main.particleSystem st')
    = (if Z.eqb (Math_floor elapsedTime mod 30) 0 then "saturn" else "random")%string.
Proof.
  intros Habs Ht Hgen.
  assert (Hget : HandTracker.getData (Main.handTracker st)
                 = (Normal None,
                    {| HandTracker.results := HandTracker.results (Main.handTracker st);
                       HandTracker.lastPalmX := None |})).
  { unfold HandTracker.absent in Habs. unfold HandTracker.getData.
    destruct (HandTracker.results (Main.handTracker st)) as [r|]; [|reflexivity].
    destruct (HandTracker.multiHandLandmarks r) as [[|lm rest]|];
      [reflexivity|contradiction|reflexivity]. }
  unfold Main.animate. rewrite Hget. cbn [Main.mapCoordinates Main.interact].
  eexists. split; [reflexivity|]. cbn [Main.handTracker Main.particleSystem].
  split; [reflexivity|].
  rewrite (demo_test _ (Math_floor_nonneg elapsedTime Ht)).
  destruct (update_fields elapsedTime None (Main.particleSystem st))
    as (_ & Et & _).
  unfold generated in Hgen.
  apply Forall_cons in Hgen as [Hrandom Hgen].
  apply Forall_cons in Hgen as [_ Hgen].
  apply Forall_cons in Hgen as [_ Hgen].
  apply Forall_cons in Hgen as [Hsaturn _].
  destruct (Z.eqb (Math_floor elapsedTime mod 30) 0).
  - apply switchTo_own. rewrite Et. exact Hsaturn.
  - apply switchTo_own. rewrite Et. exact Hrandom.
Qed.

Lemma hotPair_generated : generated hotPair.
Proof.
  unfold generated, hotPair. cbn [ParticleSystem.templates].
  repeat constructor; eexists; by simplify_map_eq.
Qed.

(** No hand, 45.5 seconds in: the random cloud. *)
Lemma animate_demo_witness :
  exists st',
    Main.animate 1 45.5 {| Main.handTracker := HandTracker.new;
                           Main.particleSystem := hotPair |} = Normal st' /\
    ParticleSystem.currentTarget (Main.particleSystem st') = "random"%string.
Proof.
  destruct (animate_demo 1 45.5 {| Main.handTracker := HandTracker.new;
                                   Main.particleSystem := hotPair |})
    as (st' & Han & _ & Hc).
  - exact I.
  - lra.
  - exact hotPair_generated.
  - exists st'. split; [exact Han|]. rewrite Hc.
    replace (Math_floor 45.5) with 45%Z; [reflexivity|].
    apply Int_part_spec. lra.
Defined.

Lemma driver_names_plain (name : string) :
  name ∈ ["random"; "sphere"; "saturn"]%string ->
  name ∉ ParticleSystem.Object_prototype.
Proof.
  rewrite !elem_of_cons, elem_of_nil. unfold ParticleSystem.Object_prototype.
  intros [->|[->|[->|[]]]];
    rewrite !not_elem_of_cons; repeat split; try discriminate; apply not_elem_of_nil.
Qed.

(** A call of the control surface keeps what the driver relies on, when a
    [setTarget] among them names the random, sphere or saturn template. *)
Lemma step_driven (s : ParticleSystem.t) (c : ParticleSystem.Call) :
  driven s ->
  (forall name, c = ParticleSystem.call_setTarget name ->
     name ∈ ["random"; "sphere"; "saturn"]%string) ->
  driven (ParticleSystem.step s c).
Proof.
  intros [Hwf Hgen Hex Htg] Hc.
  assert (Hplain : ParticleSystem.plainCall c).
  { destruct c; try exact I. cbn. apply driver_names_plain, Hc. reflexivity. }
  destruct (step_shape s c (ParticleSystem.wf_positions s Hwf)
              (ParticleSystem.wf_colors s Hwf)) as (_ & _ & _ & _ & _ & Et).
  split.
  - apply step_wf; assumption.
  - unfold generated. rewrite Et. exact Hgen.
  - apply step_exclusive. exact Hex.
  - destruct c as [name|[]|[]| |time handData|]; cbn [ParticleSystem.step];
      try exact Htg.
    + unfold ParticleSystem.setTarget.
      destruct (ParticleSystem.get_property _ _); [|exact Htg].
      cbn. apply Hc. reflexivity.
    + destruct (update_fields time handData s) as (_ & _ & -> & _). exact Htg.
    + unfold ParticleSystem.timeout. destruct (ParticleSystem.timers s); exact Htg.
Qed.

Lemma switchTo_driven (name : string) (s : ParticleSystem.t) :
  name ∈ ["random"; "sphere"; "saturn"]%string ->
  driven s -> driven (Main.switchTo name s).
Proof.
  intros Hn Hs. unfold Main.switchTo.
  destruct (Main.targetIsNot name s); [|exact Hs].
  apply (step_driven s (ParticleSystem.call_setTarget name) Hs).
  intros name' E. injection E as <-. exact Hn.
Qed.

Ltac driven_step c :=
  refine (step_driven _ c _ _); [|intros ? E; discriminate E].

Lemma interact_driven (elapsedTime : R) (handData : option HandData)
    (s : ParticleSystem.t) :
  driven s -> driven (Main.interact elapsedTime handData s).
Proof.
  intros Hs. unfold Main.interact.
  destruct handData as [h|].
  - assert (Hw : driven (match swipe h with
                         | none => s
                         | _ => ParticleSystem.triggerWave s
                         end)).
    { destruct (swipe h); [exact Hs| |];
        driven_step ParticleSystem.call_triggerWave; exact Hs. }
    destruct (gesture h).
    + driven_step (ParticleSystem.call_setAttract true). exact Hw.
    + driven_step (ParticleSystem.call_setAttract false).
      driven_step (ParticleSystem.call_setExpanded true).
      apply switchTo_driven; [set_solver|exact Hw].
    + driven_step (ParticleSystem.call_setAttract true).
      driven_step (ParticleSystem.call_setExpanded false). exact Hw.
    + driven_step (ParticleSystem.call_setAttract false).
      driven_step (ParticleSystem.call_setExpanded false). exact Hw.
  - destruct (_ && _); apply switchTo_driven; try exact Hs; set_solver.
Qed.

Lemma handle_driven (st : Main.t) (e : Main.Event) :
  driven (Main.particleSystem st) ->
  driven (Main.particleSystem (Main.handle st e)).
Proof.
  intros Hs. destruct e as [r|aspect elapsedTime|]; cbn [Main.handle].
  - exact Hs.
  - unfold Main.animate.
    destruct (HandTracker.getData (Main.handTracker st)) as [[handData|] tracker'];
      [|exact Hs].
    cbn [Main.particleSystem]. apply interact_driven.
    refine (step_driven _ (ParticleSystem.call_update elapsedTime _) Hs _).
    intros ? E; discriminate E.
  - cbn [Main.particleSystem].
    driven_step ParticleSystem.call_timeout. exact Hs.
Qed.

Lemma init_driven (g : Rng) : driven (Main.particleSystem (Main.init g)).
Proof.
  cbn [Main.init Main.particleSystem].
  split.
  - apply new_wf.
  - unfold generated. rewrite !Forall_cons.
    repeat split; try apply Forall_nil_2;
      apply (new_templates_names Main.particleCount g); set_solver.
  - destruct (new_spec Main.particleCount g)
      as (? & ? & ? & ? & ? & ? & ? & _ & _ & ->).
    unfold exclusive. cbn. intros [? _]; discriminate.
  - destruct (new_spec Main.particleCount g)
      as (? & ? & ? & ? & ? & ? & ? & _ & _ & ->).
    cbn. set_solver.
Qed.

(** X24. Whatever the perception provider delivers, however frames and
    wave timers interleave, the engine driven by [animate] stays well
    formed, never has [expanded] and [attracted] both set, and has the
    random, sphere or saturn template selected: the driver hands
    [setTarget] no other name, and never shows the cube. *)
Theorem driver_invariant (g : Rng) (es : list Main.Event) :
  ParticleSystem.wf (Main.particleSystem (Main.run (Main.init g) es)) /\
  exclusive (Main.particleSystem (Main.run (Main.init g) es)) /\
  ParticleSystem.currentTarget (Main.particleSystem (Main.run (Main.init g) es))
    ∈ ["random"; "sphere"; "saturn"]%string.
Proof.
  assert (H : driven (Main.particleSystem (Main.run (Main.init g) es))).
  { pose proof (init_driven g) as H0. revert H0.
    generalize (Main.init g) as st.
    induction es as [|e es IH]; intros st Hst; [exact Hst|].
    cbn [Main.run fold_left]. apply IH. apply handle_driven. exact Hst. }
  destruct H as [Hwf _ Hex Htg].
  split; [exact Hwf|]. split; [exact Hex|exact Htg].
Qed.

(** X25. In a frame with a hand (21 landmarks) the cursor [animate] hands
    to [update] is the index finger tip mapped to the view rectangle:
    [x = (tip.x - 0.5) * 2 * (12.5 * aspect / 2)],
    [y = (0.5 - tip.y) * 2 * (12.5 / 2)] and [z = 0]; when the tip's y lies
    in [0, 1] the cursor's y lies in [-6.25, 6.25]. *)
Theorem animate_cursor (aspect elapsedTime : R) (st : Main.t) (landmarks : list Point) :
  HandTracker.present (Main.handTracker st) landmarks ->
  length landmarks = 21%nat ->
  exists st' data c,
    Main.animate aspect elapsedTime st = Normal st' /\
    Main.particleSystem st'
      = Main.interact elapsedTime (Some data)
          (ParticleSystem.update elapsedTime (Some data) (Main.particleSystem st)) /\
    ParticleSystem.cursor (Some data) = Some c /\
    x c = (x (landmarks !!! 8%nat) - 0.5) * 2 * (12.5 * aspect / 2) /\
    y c = (0.5 - y (landmarks !!! 8%nat)) * 2 * (12.5 / 2) /\
    z c = 0 /\
    (0 <= y (landmarks !!! 8%nat) <= 1 -> -6.25 <= y c <= 6.25).
Proof.
  intros Hp Hlen.
  destruct (animate_present aspect elapsedTime st landmarks Hp Hlen)
    as (g & data & _ & Hpos & _ & _ & Han).
  eexists. exists data. eexists.
  split; [exact Han|]. split; [reflexivity|].
  cbn [ParticleSystem.cursor]. split; [exact Hpos|].
  cbn [x y z]. split; [reflexivity|]. split; [reflexivity|].
  split; [reflexivity|]. intros Hy. lra.
Qed.

(** The open hand in a view of aspect 1.5. *)
Lemma animate_cursor_witness :
  exists st' data c,
    Main.animate 1.5 0
      {| Main.handTracker := HandTracker.onResults (HandTracker.frame openHand)
                               HandTracker.new;
         Main.particleSystem := hotPair |} = Normal st' /\
    ParticleSystem.cursor (Some data) = Some c /\
    x c = (x (openHand !!! 8%nat) - 0.5) * 2 * (12.5 * 1.5 / 2) /\
    z c = 0.
Proof.
  destruct (animate_cursor 1.5 0
              {| Main.handTracker := HandTracker.onResults (HandTracker.frame openHand)
                                       HandTracker.new;
                 Main.particleSystem := hotPair |}
              openHand)
    as (st' & data & c & Han & _ & Hc & Hx & _ & Hz & _).
  - eexists. exists []. split; reflexivity.
  - reflexivity.
  - exists st', data, c. repeat split; assumption.
Defined.

(** The gesture branch of [interact] leaves the wave alone. *)
Lemma gesture_keeps_wave (h : HandData) (s : ParticleSystem.t) :
  let s' := match gesture h with
            | open =>
              ParticleSystem.setAttract false
                (ParticleSystem.setExpanded true (Main.switchTo "sphere" s))
            | fist =>
              ParticleSystem.setAttract true (ParticleSystem.setExpanded false s)
            | pinch => ParticleSystem.setAttract true s
            | neutral =>
              ParticleSystem.setAttract false (ParticleSystem.setExpanded false s)
            end in
  ParticleSystem.isWaving s' = ParticleSystem.isWaving s /\
  ParticleSystem.wavePhase s' = ParticleSystem.wavePhase s /\
  ParticleSystem.timers s' = ParticleSystem.timers s.
Proof.
  destruct (gesture h); cbn; try (repeat split; reflexivity).
  unfold Main.switchTo, ParticleSystem.setTarget.
  destruct (Main.targetIsNot _ _); [|repeat split; reflexivity].
  destruct (ParticleSystem.get_property _ _); repeat split; reflexivity.
Qed.

(** X26. A frame with a hand (21 landmarks) starts a wave exactly when the
    signal [getData] returns for it carries a swipe: then the frame ends
    waving at phase 0, with one more timer pending, also when a wave was
    already running; otherwise the waving flag and the timers are as before
    the frame. *)
Theorem animate_swipe (aspect elapsedTime : R) (st : Main.t) (landmarks : list Point) :
  HandTracker.present (Main.handTracker st) landmarks ->
  length landmarks = 21%nat ->
  exists st' data,
    fst (HandTracker.getData (Main.handTracker st)) = Normal (Some data) /\
    Main.animate aspect elapsedTime st = Normal st' /\
    (swipe data <> none ->
       ParticleSystem.isWaving (Main.particleSystem st') = true /\
       ParticleSystem.wavePhase (Main.particleSystem st') = 0 /\
       ParticleSystem.timers (Main.particleSystem st')
       = S (ParticleSystem.timers (Main.particleSystem st))) /\
    (swipe data = none ->
     ParticleSystem.isWaving (Main.particleSystem st')
     = ParticleSystem.isWaving (Main.particleSystem st) /\
     ParticleSystem.timers (Main.particleSystem st')
     = ParticleSystem.timers (Main.particleSystem st)).
Proof.
  intros Hp Hlen.
  destruct (getData_signal (Main.handTracker st) landmarks Hp Hlen)
    as (g & _ & Hget).
  unfold Main.animate. rewrite Hget.
  eexists. eexists. split; [reflexivity|]. split; [reflexivity|].
  cbn [Main.mapCoordinates position proximity gesture swipe raw Main.particleSystem].
  match goal with
  | |- context [ParticleSystem.update elapsedTime (Some ?d) _] => set (data := d)
  end.
  destruct (update_fields elapsedTime (Some data) (Main.particleSystem st))
    as (_ & _ & _ & _ & _ & Ew & _).
  destruct (update_more_fields elapsedTime (Some data) (Main.particleSystem st))
    as (_ & _ & Et & _).
  set (u := ParticleSystem.update elapsedTime (Some data) (Main.particleSystem st)) in *.
  unfold Main.interact.
  pose proof (gesture_keeps_wave data
                (match swipe data with
                 | none => u
                 | _ => ParticleSystem.triggerWave u
                 end)) as Hk.
  cbv zeta in Hk. destruct Hk as (Hw & Hph & Htm).
  rewrite Hw, Hph, Htm.
  change (swipe data) with
    (match HandTracker.lastPalmX (Main.handTracker st) with
     | Some last =>
       if Rgtb (Rabs (x (landmarks !!! 9%nat) - last)) 0.03 then
         if Rgtb (x (landmarks !!! 9%nat) - last) 0 then left else right
       else none
     | None => none
     end).
  set (sw := match HandTracker.lastPalmX (Main.handTracker st) with
             | Some _ => _ | None => _ end).
  split.
  - intros Hs. destruct sw; [contradiction| |]; cbn; rewrite Et; repeat split.
  - intros ->. rewrite Ew, Et. split; reflexivity.
Qed.

(** The palm proxy jumps from 0.1 to 0.5 in front of the open hand. *)
Lemma animate_swipe_witness :
  exists st',
    Main.animate 1 0
      {| Main.handTracker :=
           {| HandTracker.results := HandTracker.frame openHand;
              HandTracker.lastPalmX := Some 0.1 |};
         Main.particleSystem := hotPair |} = Normal st' /\
    ParticleSystem.isWaving (Main.particleSystem st') = true.
Proof.
  assert (Hp : HandTracker.present
                 {| HandTracker.results := HandTracker.frame openHand;
                    HandTracker.lastPalmX := Some 0.1 |} openHand).
  { eexists. exists []. split; reflexivity. }
  destruct (animate_swipe 1 0
              {| Main.handTracker :=
                   {| HandTracker.results := HandTracker.frame openHand;
                      HandTracker.lastPalmX := Some 0.1 |};
                 Main.particleSystem := hotPair |}
              openHand Hp eq_refl)
    as (st' & data & Hget & Han & Hyes & _).
  exists st'. split; [exact Han|].
  apply Hyes.
  destruct (getData_signal _ openHand Hp eq_refl) as (g & _ & Hsig).
  cbn [Main.handTracker] in Hget. rewrite Hsig in Hget. cbn [fst] in Hget.
  injection Hget as <-. cbn [swipe HandTracker.lastPalmX].
  match goal with
  | |- (if Rgtb ?a ?b then _ else _) <> _ =>
    assert (Hd : a > b) by (cbn; rewrite Rabs_pos_eq; lra);
    rewrite (proj2 (Rgtb_true a b) Hd)
  end.
  destruct (Rgtb _ 0); discriminate.
Defined.

(** * The classifier, the swipe and the integration step in the machine's
      arithmetic *)

Module IEEEFacts.
Import QArith Floats IEEE.
Set Warnings "-inexact-float".
Local Open Scope float_scope.

(** ** Comparisons of binary64 numbers *)

(** A number below zero is not above it. *)
Lemma ltb_zero_asym (d : float) : (d <? 0) = true -> (0 <? d) = false.
Proof.
  rewrite !ltb_spec.
  destruct (Prim2SF d) as [s|s| |s m e]; cbn; try reflexivity;
    destruct s; cbn; intros H; try reflexivity; discriminate H.
Qed.

(** A number whose magnitude exceeds 0.03 is above or below zero. *)
Lemma ltb_zero_total (d : float) :
  (0.03 <? abs d) = true -> (0 <? d) = false -> (d <? 0) = true.
Proof.
  rewrite !ltb_spec, abs_spec.
  destruct (Prim2SF d) as [s|s| |s m e]; cbn.
  - intros H; discriminate H.
  - destruct s; intros; try reflexivity; discriminate.
  - intros H; discriminate H.
  - destruct s; intros; try reflexivity; discriminate.
Qed.

(** ** The gesture classifier *)

Lemma detectGesture_computed (Math_pow2 : float -> float) (landmarks : list Point) :
  length landmarks = 21%nat ->
  exists g, HandTracker.detectGesture Math_pow2 landmarks = Normal g.
Proof.
  intros H. spell_out landmarks H.
  unfold HandTracker.detectGesture, HandTracker.isExtended; cbn.
  repeat match goal with |- context [if ?b then _ else _] => destruct b end;
    eauto.
Qed.

(** C3, as the code has it.  On a 21-point landmark set the classifier
    returns a gesture [g]; with every distance taken as the code computes
    it in binary64, whatever [Math.pow] the engine has, [g] is pinch
    exactly when the planar distance of thumb tip and index tip is below
    the double 0.05; failing that, open exactly when the four non-thumb
    fingers are all extended; failing that, fist exactly when none of them
    is; failing that, neutral.  Moving the thumb's IP joint (landmark 3),
    which only the thumb's extension state reads, never changes [g]. *)
Theorem classify_computed (Math_pow2 : float -> float) (landmarks : list Point) :
  length landmarks = 21%nat ->
  exists g, HandTracker.detectGesture Math_pow2 landmarks = Normal g /\
    let extended := extended Math_pow2 landmarks in
    let isPinch :=
      (planarDist Math_pow2 (landmarks !!! 4%nat) (landmarks !!! 8%nat) <? 0.05)
      = true in
    let all4 := extended 8%nat 6%nat /\ extended 12%nat 10%nat /\
                extended 16%nat 14%nat /\ extended 20%nat 18%nat in
    let none4 := ~ extended 8%nat 6%nat /\ ~ extended 12%nat 10%nat /\
                 ~ extended 16%nat 14%nat /\ ~ extended 20%nat 18%nat in
    (g = pinch <-> isPinch) /\
    (~ isPinch -> (g = open <-> all4)) /\
    (~ isPinch -> ~ all4 -> (g = fist <-> none4)) /\
    (~ isPinch -> ~ all4 -> ~ none4 -> g = neutral) /\
    (forall p,
       HandTracker.detectGesture Math_pow2 (<[3%nat := p]> landmarks) = Normal g).
Proof.
  intros H. spell_out landmarks H.
  unfold HandTracker.detectGesture, HandTracker.isExtended, extended, planarDist.
  cbn.
  repeat match goal with
         | |- context [(?a <? ?b)] => destruct (a <? b)
         end; cbn;
    (eexists; split; [reflexivity|]);
    repeat split; intros; try tauto; try discriminate.
Qed.

(** A hand with every landmark on one spot: a pinch. *)
Lemma classify_computed_witness :
  exists g, HandTracker.detectGesture square (handAt 0.5 0.5) = Normal g /\
    (g = pinch <->
     (planarDist square (handAt 0.5 0.5 !!! 4%nat) (handAt 0.5 0.5 !!! 8%nat) <? 0.05)
     = true).
Proof.
  destruct (classify_computed square (handAt 0.5 0.5) eq_refl) as (g & Hg & Hp & _).
  exists g. split; assumption.
Defined.

(** C3 as stated fails: the thumb tip of [nearPinch] is less than 0.05
    from its index finger tip, yet the distance the code computes, with
    [Math.pow(v, 2)] the rounded product, is the double 0.05 itself, the
    test [pinchDist < 0.05] fails and the hand is classified open. *)
Lemma classify_exact_counterexample :
  length nearPinch = 21%nat /\
  (sqPlanarDistQ (nearPinch !!! 4%nat) (nearPinch !!! 8%nat) < (5 # 100) * (5 # 100))%Q /\
  planarDist square (nearPinch !!! 4%nat) (nearPinch !!! 8%nat) = 0.05 /\
  HandTracker.detectGesture square nearPinch = Normal open.
Proof.
  split; [reflexivity|].
  split; [vm_compute; reflexivity|].
  split; vm_compute; reflexivity.
Qed.

(** ** The swipe *)

Lemma getData_computed (Math_pow2 : float -> float) (h : HandTracker.t)
    (landmarks : list Point) :
  HandTracker.present h landmarks ->
  length landmarks = 21%nat ->
  exists data,
    HandTracker.getData Math_pow2 h =
      (Normal (Some data),
       {| HandTracker.results := HandTracker.results h;
          HandTracker.lastPalmX := Some (x (landmarks !!! 9%nat)) |}) /\
    swipe data =
      match HandTracker.lastPalmX h with
      | Some last =>
        if 0.03 <? abs (x (landmarks !!! 9%nat) - last) then
          if 0 <? x (landmarks !!! 9%nat) - last then left else right
        else none
      | None => none
      end.
Proof.
  intros (r & rest & Hr & Hm) Hlen.
  destruct (detectGesture_computed Math_pow2 landmarks Hlen) as [g Hg].
  unfold HandTracker.getData. rewrite Hr, Hm.
  spell_out landmarks Hlen. cbn [HandTracker.get lookup list_lookup bind].
  rewrite Hg. cbn [bind].
  eexists. split; reflexivity.
Qed.

(** C4, as the code has it.  In a frame with a hand (21 landmarks), with
    [diff] the binary64 difference of the x of landmark 9 and the stored
    previous value, and all comparisons those of binary64 numbers against
    the double 0.03: the swipe is left when [|diff| > 0.03] and
    [diff > 0], right when [|diff| > 0.03] and [diff < 0], none when
    [|diff| > 0.03] does not hold, and one of left and right exactly when
    it does; with no stored value (initially, or
    after a frame without a hand) it is none; and in every case the swipe
    history afterwards is the current x of landmark 9. *)
Theorem swipe_computed (Math_pow2 : float -> float) (h : HandTracker.t)
    (landmarks : list Point) :
  HandTracker.present h landmarks ->
  length landmarks = 21%nat ->
  exists data h',
    HandTracker.getData Math_pow2 h = (Normal (Some data), h') /\
    HandTracker.lastPalmX h' = Some (x (landmarks !!! 9%nat)) /\
    (forall prev, HandTracker.lastPalmX h = Some prev ->
       let diff := x (landmarks !!! 9%nat) - prev in
       ((0.03 <? abs diff) = true -> (0 <? diff) = true -> swipe data = left) /\
       ((0.03 <? abs diff) = true -> (diff <? 0) = true -> swipe data = right) /\
       ((0.03 <? abs diff) = false -> swipe data = none) /\
       ((0.03 <? abs diff) = true <-> swipe data = left \/ swipe data = right)) /\
    (HandTracker.lastPalmX h = None -> swipe data = none) /\
    (forall r, h = HandTracker.onResults r HandTracker.new -> swipe data = none) /\
    (forall r h0, HandTracker.absent h0 ->
       h = HandTracker.onResults r (snd (HandTracker.getData Math_pow2 h0)) ->
       swipe data = none).
Proof.
  intros Hp Hlen.
  destruct (getData_computed Math_pow2 h landmarks Hp Hlen) as (data & Hget & Hsw).
  exists data. eexists. split; [exact Hget|]. split; [reflexivity|].
  assert (Hnone : HandTracker.lastPalmX h = None -> swipe data = none).
  { intros E. rewrite E in Hsw. exact Hsw. }
  split; [|split; [|split]].
  - intros prev H diff. rewrite H in Hsw. fold diff in Hsw. rewrite Hsw.
    split; [|split; [|split]].
    + intros -> ->. reflexivity.
    + intros -> Hd. rewrite (ltb_zero_asym diff Hd). reflexivity.
    + intros ->. reflexivity.
    + destruct (0.03 <? abs diff); split.
      * intros _. destruct (0 <? diff); [by constructor 1|by constructor 2].
      * reflexivity.
      * intros E. discriminate E.
      * intros [E|E]; discriminate E.
  - exact Hnone.
  - intros r ->. apply Hnone. reflexivity.
  - intros r h0 Habs ->. apply Hnone. cbn.
    unfold HandTracker.absent in Habs. unfold HandTracker.getData.
    destruct (HandTracker.results h0) as [r0|]; [|reflexivity].
    destruct (HandTracker.multiHandLandmarks r0) as [[|lm rest]|];
      [reflexivity|contradiction|reflexivity].
Qed.

(** The palm proxy moves from 0.50 to 0.56: a swipe to the left. *)
Lemma swipe_computed_witness :
  exists data h',
    HandTracker.getData square
      {| HandTracker.results := HandTracker.frame (handAt 0.56 0.5);
         HandTracker.lastPalmX := Some 0.5 |} = (Normal (Some data), h') /\
    HandTracker.lastPalmX h' = Some 0.56 /\
    swipe data = left.
Proof.
  destruct (swipe_computed square
              {| HandTracker.results := HandTracker.frame (handAt 0.56 0.5);
                 HandTracker.lastPalmX := Some 0.5 |}
              (handAt 0.56 0.5))
    as (data & h' & Hget & Hlast & Hprev & _).
  - eexists. exists []. split; reflexivity.
  - reflexivity.
  - exists data, h'. split; [exact Hget|]. split; [exact Hlast|].
    destruct (Hprev 0.5 eq_refl) as (Hleft & _).
    apply Hleft; reflexivity.
Defined.

(** C4 as stated fails: the palm proxy moves from 0.013103977432331082 to
    0.04310397743233108, by more than 0.03 and to the right of zero, yet
    the difference the code computes is the double 0.03 itself, the test
    [|diff| > 0.03] fails and the swipe is none. *)
Lemma swipe_exact_counterexample :
  (3 # 100 < toQ 0.04310397743233108 - toQ 0.013103977432331082)%Q /\
  (0.04310397743233108 - 0.013103977432331082 = 0.03) /\
  exists data h',
    HandTracker.getData square
      {| HandTracker.results := HandTracker.frame (handAt 0.04310397743233108 0.5);
         HandTracker.lastPalmX := Some 0.013103977432331082 |}
    = (Normal (Some data), h') /\
    swipe data = none.
Proof.
  split; [vm_compute; reflexivity|].
  split; [vm_compute; reflexivity|].
  eexists. eexists. split; [vm_compute; reflexivity|]. reflexivity.
Qed.

(** The specification's own example, 0.50 then 0.47: the difference of the
    two doubles is -0.030000000000000027, beyond the threshold, and the
    swipe is right. *)
Example swipe_050_047 :
  exists data h',
    HandTracker.getData square
      {| HandTracker.results := HandTracker.frame (handAt 0.47 0.5);
         HandTracker.lastPalmX := Some 0.5 |}
    = (Normal (Some data), h') /\
    swipe data = right.
Proof.
  eexists. eexists. split; [vm_compute; reflexivity|]. reflexivity.
Qed.

(** ** The integration step *)

Lemma frd_insert_eq (a : list float) (i : nat) (v : float) :
  (i < length a)%nat -> rd (<[i := v]> a) i = v.
Proof. intros H. unfold rd. rewrite list_lookup_insert_eq by exact H. reflexivity. Qed.

Lemma frd_insert_ne (a : list float) (i j : nat) (v : float) :
  i <> j -> rd (<[i := v]> a) j = rd a j.
Proof. intros H. unfold rd. rewrite list_lookup_insert_ne by exact H. reflexivity. Qed.

Ltac frd_simpl :=
  repeat first
    [ rewrite frd_insert_eq by (rewrite ?length_insert; lia)
    | rewrite frd_insert_ne by lia ].

(** With the three flags clear and no cursor the loop body eases particle
    [i] and touches nothing else. *)
Lemma updateParticle_plain (Math_sin : float -> float) (s : ParticleSystem.t)
    (tp : list float) (attractPos : Point) (i : nat)
    (positions colors : list float) :
  ParticleSystem.expanded s = false ->
  ParticleSystem.attracted s = false ->
  ParticleSystem.isWaving s = false ->
  (i * 3 + 2 < length positions)%nat ->
  let out := ParticleSystem.updateParticle Math_sin s tp None attractPos i
               (positions, colors) in
  length (fst out) = length positions /\
  (forall j, j <> i ->
     ParticleSystem.point (fst out) j = ParticleSystem.point positions j) /\
  ParticleSystem.point (fst out) i
  = ParticleSystem.ease (ParticleSystem.point positions i) (ParticleSystem.point tp i).
Proof.
  intros He Ha Hw Hi out. subst out.
  unfold ParticleSystem.updateParticle, ParticleSystem.ease, ParticleSystem.point.
  rewrite He, Ha, Hw. cbn [fst x y z]. rewrite !length_insert.
  split; [reflexivity|]. split.
  - intros j Hj. frd_simpl. reflexivity.
  - frd_simpl. reflexivity.
Qed.

Lemma update_plain_loop (Math_sin : float -> float) (s : ParticleSystem.t)
    (tp : list float) (attractPos : Point) (n : nat)
    (positions colors : list float) :
  ParticleSystem.expanded s = false ->
  ParticleSystem.attracted s = false ->
  ParticleSystem.isWaving s = false ->
  length positions = (n * 3)%nat ->
  forall j, (j < n)%nat ->
    ParticleSystem.point
      (fst (for_range 0 n (ParticleSystem.updateParticle Math_sin s tp None attractPos)
              (positions, colors))) j
    = ParticleSystem.ease (ParticleSystem.point positions j) (ParticleSystem.point tp j).
Proof.
  intros He Ha Hw Hp.
  assert (H : let out := for_range 0 n
                 (ParticleSystem.updateParticle Math_sin s tp None attractPos)
                 (positions, colors) in
              length (fst out) = (n * 3)%nat /\
              forall j,
                ((j < n)%nat ->
                 ParticleSystem.point (fst out) j
                 = ParticleSystem.ease (ParticleSystem.point positions j)
                     (ParticleSystem.point tp j)) /\
                ((n <= j)%nat ->
                 ParticleSystem.point (fst out) j = ParticleSystem.point positions j)).
  { apply (for_range_ind
             (fun k st =>
                length (fst st) = (n * 3)%nat /\
                forall j,
                  ((j < k)%nat ->
                   ParticleSystem.point (fst st) j
                   = ParticleSystem.ease (ParticleSystem.point positions j)
                       (ParticleSystem.point tp j)) /\
                  ((k <= j)%nat ->
                   ParticleSystem.point (fst st) j = ParticleSystem.point positions j)));
      [lia| |].
    - cbn [fst]. split; [exact Hp|]. intros j. split; [lia|reflexivity].
    - intros i [P C] Hi (HlP & Hinv). cbn [fst] in *.
      destruct (updateParticle_plain Math_sin s tp attractPos i P C He Ha Hw)
        as (HP' & Hfr & Hpt); [lia|].
      split; [congruence|].
      intros j. split.
      + intros Hj. destruct (decide (j = i)) as [->|Hne].
        * rewrite Hpt. destruct (Hinv i) as [_ Hsame].
          rewrite (Hsame ltac:(lia)). reflexivity.
        * rewrite (Hfr j Hne). apply Hinv. lia.
      + intros Hj. rewrite (Hfr j ltac:(lia)). apply Hinv. lia. }
  destruct H as [_ H]. intros j Hj. apply H. exact Hj.
Qed.

(** [update] with the three flags clear and no cursor, particle by
    particle. *)
Lemma update_plain (Math_sin : float -> float) (time : float)
    (handData : option HandData) (s : ParticleSystem.t) (i : nat) (b : list float) :
  length (ParticleSystem.positions s) = (ParticleSystem.count s * 3)%nat ->
  (i < ParticleSystem.count s)%nat ->
  ParticleSystem.expanded s = false ->
  ParticleSystem.attracted s = false ->
  ParticleSystem.isWaving s = false ->
  ParticleSystem.cursor handData = None ->
  ParticleSystem.templates s !! ParticleSystem.currentTarget s = Some b ->
  ParticleSystem.pos (ParticleSystem.update Math_sin time handData s) i
  = ParticleSystem.ease (ParticleSystem.pos s i) (ParticleSystem.point b i).
Proof.
  intros Hp Hi He Ha Hw Hc Hb.
  unfold ParticleSystem.update, ParticleSystem.advanceWave.
  rewrite Hw, Hc.
  assert (Htb : ParticleSystem.targetBuffer s = b).
  { unfold ParticleSystem.targetBuffer, ParticleSystem.get_property.
    rewrite Hb. reflexivity. }
  rewrite Htb.
  pose proof (update_plain_loop Math_sin s b (default (mkPoint 0 0 0) None)
                (ParticleSystem.count s) (ParticleSystem.positions s)
                (ParticleSystem.aColor s) He Ha Hw Hp i Hi) as H.
  destruct (for_range _ _ _ _) as [positions' colors'].
  exact H.
Qed.

(** C7, as the code has it.  With [expanded], [attracted] and [waving]
    false and no cursor, [update] replaces every coordinate of every
    particle by [pos + (target - pos) * 0.05], with [target] the coordinate
    of the current template, evaluated in binary64 and rounded to binary32
    when it is stored. *)
Theorem ease_stored (Math_sin : float -> float) (time : float)
    (handData : option HandData) (s : ParticleSystem.t) (i : nat) (b : list float) :
  ParticleSystem.wf s -> (i < ParticleSystem.count s)%nat ->
  ParticleSystem.expanded s = false ->
  ParticleSystem.attracted s = false ->
  ParticleSystem.isWaving s = false ->
  ParticleSystem.cursor handData = None ->
  ParticleSystem.templates s !! ParticleSystem.currentTarget s = Some b ->
  let p := ParticleSystem.pos s i in
  let t := ParticleSystem.point b i in
  let p' := ParticleSystem.pos (ParticleSystem.update Math_sin time handData s) i in
  x p' = fround (x p + (x t - x p) * 0.05) /\
  y p' = fround (y p + (y t - y p) * 0.05) /\
  z p' = fround (z p + (z t - z p) * 0.05).
Proof.
  intros [Hp _ _] Hi He Ha Hw Hc Hb p t p'. subst p'.
  rewrite (update_plain Math_sin time handData s i b Hp Hi He Ha Hw Hc Hb).
  repeat split.
Qed.

Lemma single_wf (p tp : Point) : ParticleSystem.wf (ParticleSystem.single p tp).
Proof.
  split; [reflexivity|reflexivity|].
  exists [x tp; y tp; z tp]. split; [|reflexivity].
  unfold ParticleSystem.single.
  cbn [ParticleSystem.templates ParticleSystem.currentTarget].
  by simplify_map_eq.
Qed.

Lemma single_template (p tp : Point) :
  ParticleSystem.templates (ParticleSystem.single p tp)
    !! ParticleSystem.currentTarget (ParticleSystem.single p tp)
  = Some [x tp; y tp; z tp].
Proof.
  unfold ParticleSystem.single.
  cbn [ParticleSystem.templates ParticleSystem.currentTarget].
  by simplify_map_eq.
Qed.

(** A particle at the origin on its way to (1, 2, -4): after one frame it
    is at the binary32 numbers nearest 0.05, 0.1 and -0.2. *)
Lemma ease_stored_witness :
  ParticleSystem.pos
    (ParticleSystem.update (fun v => v) 0 None
       (ParticleSystem.single (mkPoint 0 0 0) (mkPoint 1 2 (-4)))) 0
  = mkPoint 0.05000000074505806 0.10000000149011612 (-0.20000000298023224).
Proof.
  pose proof (ease_stored (fun v => v) 0 None
                (ParticleSystem.single (mkPoint 0 0 0) (mkPoint 1 2 (-4))) 0
                [1; 2; -4] (single_wf _ _) ltac:(cbn; lia) eq_refl eq_refl eq_refl
                eq_refl (single_template _ _)) as (Hx & Hy & Hz).
  destruct (ParticleSystem.pos _ 0) as [px py pz].
  cbn [x y z] in Hx, Hy, Hz. rewrite Hx, Hy, Hz.
  vm_compute. reflexivity.
Defined.

(** C7 as stated fails: a particle at 0.9999995231628418, eight binary32
    steps below its target 1, is not moved by [update], whatever
    [Math.sin] is: the rounded sum is the old position, and what separates
    the particle from its target is not multiplied by 0.95. *)
Lemma ease_exact_counterexample :
  ParticleSystem.wf
    (ParticleSystem.single (mkPoint 0.9999995231628418 0 0) (mkPoint 1 0 0)) /\
  forall Math_sin,
    x (ParticleSystem.pos
         (ParticleSystem.update Math_sin 0 None
            (ParticleSystem.single (mkPoint 0.9999995231628418 0 0) (mkPoint 1 0 0)))
         0) = 0.9999995231628418 /\
    ~ (toQ 1
       - toQ (x (ParticleSystem.pos
                   (ParticleSystem.update Math_sin 0 None
                      (ParticleSystem.single (mkPoint 0.9999995231628418 0 0)
                         (mkPoint 1 0 0))) 0))
       == (95 # 100) * (toQ 1 - toQ 0.9999995231628418))%Q.
Proof.
  split; [apply single_wf|].
  intros Math_sin.
  rewrite (update_plain Math_sin 0 None
             (ParticleSystem.single (mkPoint 0.9999995231628418 0 0) (mkPoint 1 0 0))
             0 [1; 0; 0] eq_refl ltac:(cbn; lia) eq_refl eq_refl eq_refl eq_refl
             (single_template _ _)).
  split; [vm_compute; reflexivity|].
  vm_compute. intros H. discriminate H.
Qed.

(** ** The wave phase *)

Lemma update_wave (Math_sin : float -> float) (time : float)
    (handData : option HandData) (s : ParticleSystem.t) :
  ParticleSystem.isWaving (ParticleSystem.update Math_sin time handData s)
  = ParticleSystem.isWaving s /\
  ParticleSystem.wavePhase (ParticleSystem.update Math_sin time handData s)
  = (if ParticleSystem.isWaving s then ParticleSystem.wavePhase s + 0.1
     else ParticleSystem.wavePhase s).
Proof.
  unfold ParticleSystem.update.
  destruct (for_range _ _ _ _) as [positions' colors'].
  unfold ParticleSystem.advanceWave.
  destruct (ParticleSystem.isWaving s) eqn:E; cbn; rewrite ?E; split; reflexivity.
Qed.

(** X12. Over a sequence of [update] calls the waving flag is left alone
    and the wave phase does not move while the engine is not waving; while
    it is, every call adds the double 0.1 to the phase in binary64,
    whatever the hand signals, the elapsed times and [Math.sin] are: after
    [n] calls the phase is the result of [n] such additions, one after the
    other. *)
Theorem wave_phase (Math_sin : float -> float)
    (frames : list (float * option HandData)) (s : ParticleSystem.t) :
  ParticleSystem.isWaving (ParticleSystem.updates Math_sin frames s)
  = ParticleSystem.isWaving s /\
  ParticleSystem.wavePhase (ParticleSystem.updates Math_sin frames s)
  = (if ParticleSystem.isWaving s
     then Nat.iter (length frames) (fun phase => phase + 0.1) (ParticleSystem.wavePhase s)
     else ParticleSystem.wavePhase s).
Proof.
  revert s. induction frames as [|[time handData] frames IH]; intros s.
  - cbn. destruct (ParticleSystem.isWaving s); split; reflexivity.
  - unfold ParticleSystem.updates. cbn [fold_left fst snd].
    destruct (IH (ParticleSystem.update Math_sin time handData s)) as [Hw Hp].
    unfold ParticleSystem.updates in Hw, Hp. rewrite Hw, Hp.
    destruct (update_wave Math_sin time handData s) as [-> ->].
    split; [reflexivity|].
    destruct (ParticleSystem.isWaving s); [|reflexivity].
    cbn [length]. rewrite Nat.iter_succ_r. reflexivity.
Qed.

(** Three frames after a swipe the phase is 0.1 + 0.1 + 0.1 as binary64
    adds them, the double above 0.3. *)
Lemma wave_phase_witness :
  ParticleSystem.wavePhase
    (ParticleSystem.updates (fun v => v) [(0, None); (1, None); (2, None)]
       (ParticleSystem.triggerWave
          (ParticleSystem.single (mkPoint 0 0 0) (mkPoint 1 2 (-4)))))
  = 0.30000000000000004.
Proof.
  rewrite (proj2 (wave_phase (fun v => v) [(0, None); (1, None); (2, None)]
                    (ParticleSystem.triggerWave
                       (ParticleSystem.single (mkPoint 0 0 0) (mkPoint 1 2 (-4)))))).
  vm_compute. reflexivity.
Defined.

End IEEEFacts.
